(** * Orchestration core of the VXDL / VOX creative front-end

    A shallow embedding of the orchestration logic of the application:
    the retrying API client and the service functions built on it
    ([services/geminiService]), the session undo/redo stack, the request
    router, the generate action and the video quota of the VOX page
    ([components/VoxPage.tsx]), the persistent activity history and the
    session of the user ([Root.tsx]), and the retry of the chat page
    ([components/Header.tsx]).

    JavaScript values are modelled as follows.  Strings are [string]: the
    bytes of the UTF-8 form of the JavaScript string, so that a character
    of ASCII is one character here and any other character is a sequence
    of two to four characters of code 128 and above.  A string is falsy
    exactly when it is empty.  Searching and cutting a string commute with
    this encoding; white space is recognised in its encoded form; the
    change of letter case maps the letters of ASCII, as JavaScript does,
    and leaves the other letters as they are, so a statement about the
    letter case of a text that comes from outside (a refusal of the
    model, a token that was typed) is made for ASCII text
    ([Js.is_ascii]).  Numbers that the
    code only uses as integers (HTTP status codes, the quota, the cursor
    of the undo stack, seeds) are [Z], which is what JavaScript computes
    as long as the values are safe integers ([Js.isSafeInteger]).
    [null]/[undefined] is [None].  Arrays are lists.  A function that may
    throw, or an [async] function whose promise may reject, is a
    state-passing computation that returns [inl error] or [inr value]
    together with the next state; [await] is sequencing.

    A function of a React component is a closure over the state of the
    render that created it.  Where such a function reads the state, the
    model hands it that render ([r]) next to the pending state it updates:
    a function called after an [await] still reads the render in which the
    user started the action. *)

From Stdlib Require Import String Ascii ZArith List Bool Arith Lia.
From Stdlib Require Import DecimalString DecimalPos.
Import ListNotations.

Open Scope string_scope.
Open Scope Z_scope.

(** ** JavaScript string helpers *)

Module Js.

(** [s.includes(sub)] *)
Definition includes (s sub : string) : bool :=
  match String.index 0 sub s with
  | Some _ => true
  | None => false
  end.

(** [s.startsWith(p)] *)
Definition startsWith (s p : string) : bool := String.prefix p s.

Definition lower_ascii (c : ascii) : ascii :=
  let n := nat_of_ascii c in
  if (Nat.leb 65 n && Nat.leb n 90)%bool then ascii_of_nat (n + 32) else c.

(** [s.toLowerCase()]: the letters [A-Z] are mapped to [a-z].  On ASCII
    text this is what JavaScript does; a letter outside ASCII is left as
    it is. *)
Fixpoint toLowerCase (s : string) : string :=
  match s with
  | EmptyString => EmptyString
  | String c r => String (lower_ascii c) (toLowerCase r)
  end.

(** Every character of the text is an ASCII character. *)
Definition is_ascii_char (c : ascii) : bool := Nat.ltb (nat_of_ascii c) 128.

Fixpoint is_ascii (s : string) : bool :=
  match s with
  | EmptyString => true
  | String c r => (is_ascii_char c && is_ascii r)%bool
  end.

(** The ASCII white space that [trim] removes: TAB, LF, VT, FF, CR, SPACE. *)
Definition is_space (c : ascii) : bool :=
  let n := nat_of_ascii c in
  (Nat.leb 9 n && Nat.leb n 13 || Nat.eqb n 32)%bool.

(** The white space beyond ASCII that [trim] removes, in UTF-8: U+00A0 in
    two bytes ([C2 A0]); and in three bytes U+1680 ([E1 9A 80]), U+2000
    to U+200A ([E2 80 80] to [E2 80 8A]), U+2028, U+2029 and U+202F
    ([E2 80 A8], [E2 80 A9], [E2 80 AF]), U+205F ([E2 81 9F]), U+3000
    ([E3 80 80]) and U+FEFF ([EF BB BF]). *)
Definition is_space2 (c1 c2 : ascii) : bool :=
  (Nat.eqb (nat_of_ascii c1) 194 && Nat.eqb (nat_of_ascii c2) 160)%bool.

Definition is_space3 (c1 c2 c3 : ascii) : bool :=
  let a := nat_of_ascii c1 in
  let b := nat_of_ascii c2 in
  let c := nat_of_ascii c3 in
  (Nat.eqb a 225 && Nat.eqb b 154 && Nat.eqb c 128
   || Nat.eqb a 226 && Nat.eqb b 128
      && (Nat.leb 128 c && Nat.leb c 138
          || Nat.eqb c 168 || Nat.eqb c 169 || Nat.eqb c 175)
   || Nat.eqb a 226 && Nat.eqb b 129 && Nat.eqb c 159
   || Nat.eqb a 227 && Nat.eqb b 128 && Nat.eqb c 128
   || Nat.eqb a 239 && Nat.eqb b 187 && Nat.eqb c 191)%bool.

(** [!s.trim()]: the string is empty once white space is trimmed, that is,
    it consists of white space only. *)
Fixpoint trim_is_empty (s : string) : bool :=
  match s with
  | EmptyString => true
  | String c1 r1 =>
      if is_space c1 then trim_is_empty r1
      else
        match r1 with
        | EmptyString => false
        | String c2 r2 =>
            if is_space2 c1 c2 then trim_is_empty r2
            else
              match r2 with
              | EmptyString => false
              | String c3 r3 =>
                  (is_space3 c1 c2 c3 && trim_is_empty r3)%bool
              end
        end
  end.

(** [s.trimStart()] and [s.trimEnd()] *)
Fixpoint trimStart (s : string) : string :=
  match s with
  | EmptyString => EmptyString
  | String c1 r1 =>
      if is_space c1 then trimStart r1
      else if is_ascii_char c1 then s
      else
        match r1 with
        | EmptyString => s
        | String c2 r2 =>
            if is_space2 c1 c2 then trimStart r2
            else
              match r2 with
              | EmptyString => s
              | String c3 r3 =>
                  if is_space3 c1 c2 c3 then trimStart r3 else s
              end
        end
  end.

Fixpoint trimEnd (s : string) : string :=
  match s with
  | EmptyString => EmptyString
  | String c r => if trim_is_empty s then EmptyString else String c (trimEnd r)
  end.

(** [s.trim()] *)
Definition trim (s : string) : string := trimEnd (trimStart s).

(** Truthiness of a string. *)
Definition truthy (s : string) : bool :=
  match s with
  | EmptyString => false
  | _ => true
  end.

(** Truthiness of an object reference: anything but [null]/[undefined]. *)
Definition present {A} (x : option A) : bool :=
  match x with
  | Some _ => true
  | None => false
  end.

(** [a || b] on strings. *)
Definition or_else (a b : string) : string := if truthy a then a else b.

(** An absent string is as falsy as the empty one. *)
Definition str_or_empty (x : option string) : string :=
  match x with
  | Some s => s
  | None => EmptyString
  end.

(** [s.indexOf(sub)]: the position of the first occurrence, or [-1]. *)
Definition indexOf (s sub : string) : Z :=
  match String.index 0 sub s with
  | Some i => Z.of_nat i
  | None => -1
  end.

(** [s.substring(a, b)]: both ends are clamped to [0 .. s.length] and
    swapped when [a > b]. *)
Definition substring (s : string) (a b : Z) : string :=
  let len := Z.of_nat (String.length s) in
  let a' := Z.min (Z.max a 0) len in
  let b' := Z.min (Z.max b 0) len in
  let lo := Z.min a' b' in
  let hi := Z.max a' b' in
  String.substring (Z.to_nat lo) (Z.to_nat (hi - lo)) s.

(** [s.replace(pat, by)] for a string pattern: the first occurrence only. *)
Definition replace (s pat by_ : string) : string :=
  match String.index 0 pat s with
  | Some i =>
      String.substring 0 i s ++ by_
      ++ String.substring (i + String.length pat)
           (String.length s - (i + String.length pat)) s
  | None => s
  end.

(** [Number.isSafeInteger(n)]: the integers that a JavaScript number
    holds exactly, up to [2^53 - 1] in absolute value. *)
Definition MAX_SAFE_INTEGER : Z := 9007199254740991.

Definition isSafeInteger (n : Z) : bool := Z.abs n <=? MAX_SAFE_INTEGER.

(** [n.toString()] for an integer: its decimal digits, which is what
    JavaScript writes for a safe integer (from [1e21] on it writes an
    exponent). *)
Definition toString (n : Z) : string := NilZero.string_of_int (Z.to_int n).

(** [x === n] for an optional numeric property. *)
Definition num_is (x : option Z) (n : Z) : bool :=
  match x with
  | Some v => v =? n
  | None => false
  end.

End Js.

(** ** Thrown values *)

(** The nested [error] object of an API error: [error.error.code] and
    [error.error.message] (when it is a string). *)
Record InnerError : Type := mkInnerError {
  inner_code : option Z;
  inner_message : option string
}.

(** What the code inspects of a thrown object: whether it is an instance
    of [Error] or of [DOMException], [name], [message] (when it is a
    string), [toString()], [status], [code] and the nested [error]. *)
Record JsError : Type := mkJsError {
  is_Error : bool;
  is_DOMException : bool;
  name : string;
  message : option string;
  to_string : string;
  status : option Z;
  code : option Z;
  inner : option InnerError
}.

(** [new Error(msg)] *)
Definition new_Error (msg : string) : JsError :=
  {| is_Error := true;
     is_DOMException := false;
     name := "Error";
     message := Some msg;
     to_string := "Error: " ++ msg;
     status := None;
     code := None;
     inner := None |}.

(** ** Computations that may throw *)

Definition Io (S A : Type) : Type := S -> (JsError + A) * S.

Definition ret {S A} (a : A) : Io S A := fun s => (inr a, s).

Definition throw {S A} (e : JsError) : Io S A := fun s => (inl e, s).

Definition bind {S A B} (m : Io S A) (k : A -> Io S B) : Io S B :=
  fun s =>
    match m s with
    | (inr a, s1) => k a s1
    | (inl e, s1) => (inl e, s1)
    end.

(** [try { body } catch (e) { handler(e) }] *)
Definition try_catch {S A} (body : Io S A) (handler : JsError -> Io S A)
  : Io S A :=
  fun s =>
    match body s with
    | (inr a, s1) => (inr a, s1)
    | (inl e, s1) => handler e s1
    end.

(** A read of the state. *)
Definition gets {S A} (f : S -> A) : Io S A := fun s => (inr (f s), s).

(** A state update that cannot throw. *)
Definition modify {S} (f : S -> S) : Io S unit := fun s => (inr tt, f s).

Declare Scope io_scope.
Delimit Scope io_scope with io.
Notation "x <- m ;; k" := (bind m (fun x => k))
  (at level 100, m at next level, right associativity) : io_scope.
Notation "m ;;; k" := (bind m (fun _ => k))
  (at level 100, right associativity) : io_scope.
Open Scope io_scope.

(** ** The retrying API client ([executeWithApiKeyHandling]) *)

Module ApiClient.

(** [error.message || error.toString()] *)
Definition error_text (error : JsError) : string :=
  Js.or_else (Js.str_or_empty (message error)) (to_string error).

(** [error.error && error.error.code === n] *)
Definition inner_code_is (error : JsError) (n : Z) : bool :=
  match inner error with
  | Some i => Js.num_is (inner_code i) n
  | None => false
  end.

Definition isPermissionDenied (error : JsError) : bool :=
  let message := error_text error in
  (Js.includes message "does not have permission"
   || Js.includes message "PERMISSION_DENIED"
   || Js.num_is (status error) 403
   || Js.num_is (code error) 403
   || inner_code_is error 403)%bool.

Definition isNotFound (error : JsError) : bool :=
  let message := error_text error in
  (Js.includes message "Requested entity was not found"
   || Js.includes message "NOT_FOUND"
   || Js.num_is (status error) 404
   || Js.num_is (code error) 404
   || inner_code_is error 404)%bool.

Section Execute.

Context {S T : Type}.

(** [typeof window !== 'undefined' && window.aistudio] *)
Variable has_aistudio : S -> bool.

(** [window.aistudio.openSelectKey()] *)
Variable openSelectKey : Io S unit.

Definition executeWithApiKeyHandling (fn : Io S T) : Io S T :=
  try_catch fn (fun error =>
    if (isPermissionDenied error || isNotFound error)%bool then
      present <- gets has_aistudio ;;
      if (present : bool) then
        try_catch (openSelectKey ;;; fn) (fun _ => throw error)
      else throw error
    else throw error).

End Execute.

(** Counting the calls of one outer call.  The thunk and the collaborator
    act on the world [W] only; the counters are invisible to them. *)
Record Counted (W : Type) : Type := mkCounted {
  world : W;
  thunk_calls : nat;
  select_calls : nat
}.
Arguments mkCounted {W}.
Arguments world {W}.
Arguments thunk_calls {W}.
Arguments select_calls {W}.

Definition start {W} (w : W) : Counted W := mkCounted w 0 0.

Definition count_thunk {W T} (fn : Io W T) : Io (Counted W) T :=
  fun c =>
    let (r, w1) := fn (world c) in
    (r, mkCounted w1 (S (thunk_calls c)) (select_calls c)).

Definition count_select {W} (sel : Io W unit) : Io (Counted W) unit :=
  fun c =>
    let (r, w1) := sel (world c) in
    (r, mkCounted w1 (thunk_calls c) (S (select_calls c))).

Definition execute_counted {W T} (has : W -> bool) (sel : Io W unit)
    (fn : Io W T) (w : W) : (JsError + T) * Counted W :=
  executeWithApiKeyHandling (fun c => has (world c)) (count_select sel)
    (count_thunk fn) (start w).

Definition reauth_eligible (e : JsError) : bool :=
  (isPermissionDenied e || isNotFound e)%bool.

End ApiClient.

(** ** The service functions ([services/geminiService]) *)

Module Service.

Record ImageData : Type := mkImageData {
  base64 : string;
  mimeType : string
}.

Inductive AspectRatio : Type := R1_1 | R3_4 | R4_3 | R9_16 | R16_9.

Definition aspect_text (r : AspectRatio) : string :=
  match r with
  | R1_1 => "1:1"
  | R3_4 => "3:4"
  | R4_3 => "4:3"
  | R9_16 => "9:16"
  | R16_9 => "16:9"
  end.

Inductive GenerationModel : Type := Veo31FastGeneratePreview | Vx0.

Record ImageSettings : Type := mkImageSettings {
  numberOfImages : Z;
  aspectRatio : AspectRatio;
  model : GenerationModel
}.

(** A part of a request or of a response: [inlineData] (mime type and
    data) and [text], each possibly absent. *)
Record Part : Type := mkPart {
  inlineData : option (string * string);
  text : option string
}.

Record ContentRequest : Type := mkContentRequest {
  req_model : string;
  req_parts : list Part;
  req_systemInstruction : option string;
  req_seed : option Z
}.

(** [response.candidates?.[0]?.content?.parts] *)
Record Response : Type := mkResponse {
  first_candidate_parts : option (list Part)
}.

Record VideoRequest : Type := mkVideoRequest {
  vid_model : string;
  vid_prompt : string;
  vid_numberOfVideos : Z;
  vid_aspectRatio : AspectRatio;
  vid_image : option (string * string)
}.

(** A long-running operation: [done] and
    [response?.generatedVideos?.[0]?.video?.uri]. *)
Record Operation : Type := mkOperation {
  done : bool;
  video_uri : option string
}.

Record FetchResponse : Type := mkFetchResponse {
  ok : bool;
  statusText : string
}.

(** What the service calls outside itself, as operations on a world [W]:
    the environment variable, the key selector of the host page, the
    canvas-based [resizeImage], the random source, the remote model, the
    timer, and the download of the finished video. *)
Record Platform (W : Type) : Type := mkPlatform {
  API_KEY : W -> string;
  aistudio : W -> bool;
  openSelectKey : Io W unit;
  resizeImage : string -> Io W (string * string);
  random_seed : W -> Z * W;
  generateContent : ContentRequest -> Io W Response;
  generateVideos : VideoRequest -> Io W Operation;
  getVideosOperation : Operation -> Io W Operation;
  setTimeout : Z -> W -> W;
  fetch : string -> Io W FetchResponse;
  createObjectURL : FetchResponse -> Io W string
}.
Arguments API_KEY {W}.
Arguments aistudio {W}.
Arguments openSelectKey {W}.
Arguments resizeImage {W}.
Arguments random_seed {W}.
Arguments generateContent {W}.
Arguments generateVideos {W}.
Arguments getVideosOperation {W}.
Arguments setTimeout {W}.
Arguments fetch {W}.
Arguments createObjectURL {W}.

(** What a run does, in the order it does it. *)
Inductive Event : Type :=
| EvOpenSelectKey
| EvResizeImage (src : string)
| EvGenerateContent (request : ContentRequest)
| EvGenerateVideos (request : VideoRequest)
| EvReadCancelled (current : bool)
| EvSetTimeout (ms : Z)
| EvGetVideosOperation
| EvFetch (url : string)
| EvProgress (msg : option string).

Record Sys (W : Type) : Type := mkSys {
  world : W;
  trace : list Event
}.
Arguments mkSys {W}.
Arguments world {W}.
Arguments trace {W}.

Definition boot {W} (w : W) : Sys W := mkSys w [].

Definition emit {W} (ev : Event) : Io (Sys W) unit :=
  modify (fun s => mkSys (world s) (trace s ++ [ev])).

(** An outside operation, recorded in the trace when it is called. *)
Definition call {W A} (ev : Event) (op : Io W A) : Io (Sys W) A :=
  fun s =>
    let (r, w1) := op (world s) in
    (r, mkSys w1 (trace s ++ [ev])).

(** [parseGeminiError]: the message shown for an error of the service
    (what it writes with [console.error] is left out). *)
Definition parseGeminiError (error : JsError) : string :=
  let message :=
    if is_Error error then Js.str_or_empty (message error)
    else
      match inner error with
      | Some (mkInnerError _ (Some m)) => m
      | _ =>
          match message error with
          | Some m => m
          | None => "An unknown and unexpected error occurred. Please try again."
          end
      end in
  if Js.includes message "Requested entity was not found." then
    "The requested AI model is not available with your current API key. Please ensure your key has access to Gemini 3.0 Preview models."
  else if (Js.includes message "does not have permission"
           || Js.includes message "PERMISSION_DENIED")%bool then
    "Permission denied. Your API key does not have access to this model. Please select a different key or check your Google Cloud project permissions."
  else
    let lowerMessage := Js.toLowerCase message in
    if (Js.includes lowerMessage "xhr error"
        || Js.includes lowerMessage "network error"
        || Js.includes lowerMessage "failed to fetch")%bool then
      "A network connection error occurred. Please check your internet connection and try again. The API service may be temporarily unavailable."
    else if Js.startsWith message "Model refusal:" then message
    else if (Js.includes lowerMessage "safety policies"
             || Js.includes lowerMessage "blocked")%bool then
      "Your request was blocked due to safety policies. Please adjust your prompt and try again."
    else if Js.includes lowerMessage "api key not valid" then
      "The provided API key is invalid. Please ensure it is configured correctly."
    else if Js.includes lowerMessage "quota" then
      "API quota exceeded. Please check your usage and limits."
    else if (Js.includes lowerMessage "resource has been exhausted"
             || Js.includes lowerMessage "rate limit")%bool then
      "The server is busy or you have hit a rate limit. Please try again in a moment."
    else "An unexpected API error occurred: " ++ message.
Arguments parseGeminiError : simpl never.

Section Functions.

Context {W : Type}.
Variable P : Platform W.

(** [getAi()]: throws when [process.env.API_KEY] is falsy. *)
Definition getAi : Io (Sys W) unit :=
  key <- gets (fun s => API_KEY P (world s)) ;;
  if Js.truthy key then ret tt
  else throw (new_Error
         "API_KEY environment variable is not set. Please select a key.").

(** The service functions all run their body under the retrying client,
    with the key selector of the host page. *)
Definition withApiKeyHandling {T} (fn : Io (Sys W) T) : Io (Sys W) T :=
  ApiClient.executeWithApiKeyHandling
    (fun s => aistudio P (world s))
    (call EvOpenSelectKey (openSelectKey P))
    fn.

(** [catch (error) { throw new Error(parseGeminiError(error)); }] *)
Definition rethrow_parsed {T} (error : JsError) : Io (Sys W) T :=
  throw (new_Error (parseGeminiError error)).

(** The loop over the parts of the first candidate: image payloads become
    data URLs, truthy text is appended to the refusal text. *)
Fixpoint collect_parts (parts : list Part) (images : list string)
    (refusalText : option string) : list string * option string :=
  match parts with
  | [] => (images, refusalText)
  | part :: rest =>
      match inlineData part with
      | Some (mime, data) =>
          collect_parts rest
            (images ++ ["data:" ++ mime ++ ";base64," ++ data]) refusalText
      | None =>
          if Js.truthy (Js.str_or_empty (text part)) then
            collect_parts rest images
              (Some (Js.str_or_empty refusalText
                     ++ Js.str_or_empty (text part)))
          else collect_parts rest images refusalText
      end
  end.

Definition read_response (response : Response)
  : list string * option string :=
  match first_candidate_parts response with
  | Some parts => collect_parts parts [] None
  | None => ([], None)
  end.

Record Generated : Type := mkGenerated {
  images : list string;
  seed : Z
}.

(** The function that [generateImagesFromPrompt] hands to the retrying
    client. *)
Definition generateImagesFromPrompt_body (prompt : string)
    (settings : ImageSettings) (vxdlUltraSystemInstruction : option string)
    (aspectRatioTextTemplate : string) (seed : option Z)
  : Io (Sys W) Generated :=
    (try_catch
       (getAi ;;;
        usedSeed <- match seed with
                    | Some v => ret v
                    | None =>
                        fun s => let (v, w1) := random_seed P (world s) in
                                 (inr v, mkSys w1 (trace s))
                    end ;;
        let finalPrompt := prompt in
        let backendModel := "gemini-3-pro-image-preview" in
        let request :=
          {| req_model := backendModel;
             req_parts :=
               [ {| inlineData := None;
                    text := Some (finalPrompt
                      ++ Js.replace aspectRatioTextTemplate "{{ratio}}"
                           (aspect_text (aspectRatio settings))) |} ];
             req_systemInstruction :=
               if Js.truthy (Js.str_or_empty vxdlUltraSystemInstruction)
               then vxdlUltraSystemInstruction else None;
             req_seed := Some usedSeed |} in
        response <- call (EvGenerateContent request)
                      (generateContent P request) ;;
        let (images, refusalText) := read_response response in
        match images with
        | [] =>
            if Js.truthy (Js.str_or_empty refusalText) then
              throw (new_Error
                ("Model refusal: " ++ Js.str_or_empty refusalText))
            else
              throw (new_Error
                "VX-0 (Gemini 3 Pro): The model did not return an image. This might be due to safety policies.")
        | first :: _ => ret {| images := [first]; seed := usedSeed |}
        end)
       rethrow_parsed).

Definition generateImagesFromPrompt (prompt : string)
    (settings : ImageSettings) (vxdlUltraSystemInstruction : option string)
    (aspectRatioTextTemplate : string) (seed : option Z)
  : Io (Sys W) Generated :=
  withApiKeyHandling
    (generateImagesFromPrompt_body prompt settings
       vxdlUltraSystemInstruction aspectRatioTextTemplate seed).

(** [images.map(image => resizeImage(image.base64))]: every promise is
    started, in the order of the list. *)
Fixpoint start_resizes (imgs : list ImageData)
  : Sys W -> list (JsError + string * string) * Sys W :=
  fun s =>
    match imgs with
    | [] => ([], s)
    | image :: rest =>
        let (r, s1) :=
          call (EvResizeImage (base64 image)) (resizeImage P (base64 image)) s in
        let (rs, s2) := start_resizes rest s1 in
        (r :: rs, s2)
    end.

(** [await Promise.all(promises)]: all the values, or a rejection (here
    that of the first promise of the list that rejected). *)
Fixpoint all_settled {A} (rs : list (JsError + A)) : JsError + list A :=
  match rs with
  | [] => inr []
  | inl e :: _ => inl e
  | inr a :: rest =>
      match all_settled rest with
      | inl e => inl e
      | inr l => inr (a :: l)
      end
  end.

Definition resize_all (imgs : list ImageData)
  : Io (Sys W) (list (string * string)) :=
  fun s => let (rs, s1) := start_resizes imgs s in (all_settled rs, s1).

(** [s.substring(s.indexOf(',') + 1)] *)
Definition pure_base64 (s : string) : string :=
  Js.substring s (Js.indexOf s "," + 1) (Z.of_nat (String.length s)).

(** The function that [combineImages] hands to the retrying client. *)
Definition combineImages_body (images : list ImageData)
    (masterPrompt : string) : Io (Sys W) (list string) :=
    (try_catch
       (getAi ;;;
        if ((length images <? 2)%nat || (6 <? length images)%nat)%bool then
          throw (new_Error "Combining requires 2 to 6 images.")
        else
          resizedImages <- resize_all images ;;
          let imageParts :=
            map (fun image : string * string =>
                   {| inlineData := Some (snd image, pure_base64 (fst image));
                      text := None |}) resizedImages in
          let finalPrompt := masterPrompt in
          let textPart := {| inlineData := None; text := Some finalPrompt |} in
          let request :=
            {| req_model := "gemini-3-pro-image-preview";
               req_parts := imageParts ++ [textPart];
               req_systemInstruction := None;
               req_seed := None |} in
          response <- call (EvGenerateContent request)
                        (generateContent P request) ;;
          let (resultImages, refusalText) := read_response response in
          match resultImages with
          | [] =>
              if Js.truthy (Js.str_or_empty refusalText) then
                throw (new_Error
                  ("Model refusal: " ++ Js.str_or_empty refusalText))
              else
                throw (new_Error
                  "The model did not return a combined image. It may have refused the request due to safety policies or an unclear prompt.")
          | _ => ret resultImages
          end)
       rethrow_parsed).

Definition combineImages (images : list ImageData) (masterPrompt : string)
  : Io (Sys W) (list string) :=
  withApiKeyHandling (combineImages_body images masterPrompt).

(** [isCancelledRef.current], read from the shared object. *)
Definition read_cancelled (isCancelledRef : W -> bool) : Io (Sys W) bool :=
  fun s =>
    let current := isCancelledRef (world s) in
    (inr current, mkSys (world s) (trace s ++ [EvReadCancelled current])).

(** [await new Promise(resolve => setTimeout(resolve, ms))]: time passes
    and the world may change meanwhile. *)
Definition wait (ms : Z) : Io (Sys W) unit :=
  fun s => (inr tt, mkSys (setTimeout P ms (world s))
                          (trace s ++ [EvSetTimeout ms])).

Definition progressInterval : Z := 20000.

Definition cancelled_error : JsError :=
  new_Error "Video generation cancelled by user.".

(** [progressMessages[progressCounter % progressMessages.length]] *)
Definition progress_message (progressMessages : list string)
    (progressCounter : nat) : option string :=
  match progressMessages with
  | [] => None
  | _ => nth_error progressMessages
           (progressCounter mod length progressMessages)%nat
  end.

(** [while (!operation.done) { ... }].  [fuel] bounds the number of
    iterations; [None] is returned when it is used up with the operation
    still running. *)
Fixpoint poll_loop (isCancelledRef : W -> bool)
    (progressMessages : list string) (fuel : nat) (operation : Operation)
    (progressCounter : nat) {struct fuel} : Io (Sys W) (option Operation) :=
  if done operation then ret (Some operation)
  else
    match fuel with
    | O => ret None
    | S fuel' =>
        cancelled <- read_cancelled isCancelledRef ;;
        if (cancelled : bool) then throw cancelled_error
        else
          wait progressInterval ;;;
          operation' <- call EvGetVideosOperation
                          (getVideosOperation P operation) ;;
          if negb (done operation') then
            emit (EvProgress
                    (progress_message progressMessages progressCounter)) ;;;
            poll_loop isCancelledRef progressMessages fuel' operation'
              (S progressCounter)
          else
            poll_loop isCancelledRef progressMessages fuel' operation'
              progressCounter
    end.

(** The statements of [generateVideo] that follow the [while] loop: the
    flag is read once more, then the finished video is downloaded. *)
Definition after_polling (isCancelledRef : W -> bool)
    (operation : Operation) : Io (Sys W) (option string) :=
  cancelled <- read_cancelled isCancelledRef ;;
  if (cancelled : bool) then throw cancelled_error
  else
    emit (EvProgress (Some "Finalizing video...")) ;;;
    let downloadLink := Js.str_or_empty (video_uri operation) in
    if negb (Js.truthy downloadLink) then
      throw (new_Error
        "Video generation completed, but no download link was found.")
    else
      key <- gets (fun s => API_KEY P (world s)) ;;
      let url := downloadLink ++ "&key=" ++ key in
      videoResponse <- call (EvFetch url) (fetch P url) ;;
      if negb (ok videoResponse) then
        throw (new_Error
          ("Failed to download video file. Status: "
           ++ statusText videoResponse))
      else
        objectUrl <- (fun s =>
                        let (r, w1) :=
                          createObjectURL P videoResponse (world s) in
                        (r, mkSys w1 (trace s))) ;;
        ret (Some objectUrl).

(** The request sent to start the job; the image is attached when there
    is one and its payload is not empty. *)
Definition video_request (prompt : string) (aspectRatio : AspectRatio)
    (resizedImage : option ImageData) : VideoRequest :=
  let pureBase64 := option_map (fun r => pure_base64 (base64 r))
                      resizedImage in
  {| vid_model := "veo-3.1-fast-generate-preview";
     vid_prompt := prompt;
     vid_numberOfVideos := 1;
     vid_aspectRatio := aspectRatio;
     vid_image :=
       match pureBase64, resizedImage with
       | Some bytes, Some r =>
           if Js.truthy bytes then Some (bytes, mimeType r) else None
       | _, _ => None
       end |}.

(** The statements of [generateVideo] from the first progress message on:
    the job is submitted, polled until it is done, and its video fetched. *)
Definition submit_and_poll (fuel : nat) (requestPayload : VideoRequest)
    (progressMessages : list string) (isCancelledRef : W -> bool)
  : Io (Sys W) (option string) :=
  emit (EvProgress (nth_error progressMessages 0)) ;;;
  operation <- call (EvGenerateVideos requestPayload)
                 (generateVideos P requestPayload) ;;
  emit (EvProgress (nth_error progressMessages 1)) ;;;
  polled <- poll_loop isCancelledRef progressMessages fuel operation 2 ;;
  match polled with
  | None => ret None
  | Some operation => after_polling isCancelledRef operation
  end.

(** The function that [generateVideo] hands to the retrying client. *)
Definition generateVideo_body (fuel : nat) (prompt : string)
    (image : option ImageData) (aspectRatio : AspectRatio)
    (progressMessages : list string) (isCancelledRef : W -> bool)
  : Io (Sys W) (option string) :=
  try_catch
    (getAi ;;;
     resizedImage <-
       match image with
       | Some img =>
           r <- call (EvResizeImage (base64 img))
                  (resizeImage P (base64 img)) ;;
           ret (Some {| base64 := fst r; mimeType := snd r |})
       | None => ret None
       end ;;
     submit_and_poll fuel (video_request prompt aspectRatio resizedImage)
       progressMessages isCancelledRef)
    rethrow_parsed.

Definition generateVideo (fuel : nat) (prompt : string)
    (image : option ImageData) (aspectRatio : AspectRatio)
    (progressMessages : list string) (isCancelledRef : W -> bool)
  : Io (Sys W) (option string) :=
  withApiKeyHandling
    (generateVideo_body fuel prompt image aspectRatio progressMessages
       isCancelledRef).

End Functions.

Arguments after_polling : simpl never.
Arguments submit_and_poll : simpl never.
Arguments video_request : simpl never.

End Service.

(** ** The VOX page ([components/VoxPage.tsx]) *)

Module Vox.

Import Service.

Definition MAX_HISTORY_ITEMS : Z := 10.
Definition DAILY_FREE_QUOTA : Z := 3.
Definition MAX_SESSION_HISTORY : Z := 50.

(** [interface SessionState]: one snapshot of the undo stack. *)
Module SessionState.
Record t : Type := mk {
  image : option ImageData;
  prompt : string
}.
End SessionState.

(** The state of the component, as far as the handlers below use it. *)
Record VoxState : Type := mkVoxState {
  prompt : string;
  bgUrl1 : option string;
  bgUrl2 : option string;
  isBg1Active : bool;
  error : option string;
  currentImage : option ImageData;
  inputImages : list ImageData;
  currentVideoUrl : option string;
  sessionHistory : list SessionState.t;
  historyIndex : Z;
  videoQuota : Z;
  isGeneratingVideo : bool;
  videoProgress : string;
  isInpaintingMode : bool
}.

Definition setPrompt (v : string) (st : VoxState) : VoxState :=
  mkVoxState v (bgUrl1 st) (bgUrl2 st) (isBg1Active st) (error st)
    (currentImage st) (inputImages st) (currentVideoUrl st)
    (sessionHistory st) (historyIndex st) (videoQuota st)
    (isGeneratingVideo st) (videoProgress st) (isInpaintingMode st).

Definition setBgUrl1 (v : option string) (st : VoxState) : VoxState :=
  mkVoxState (prompt st) v (bgUrl2 st) (isBg1Active st) (error st)
    (currentImage st) (inputImages st) (currentVideoUrl st)
    (sessionHistory st) (historyIndex st) (videoQuota st)
    (isGeneratingVideo st) (videoProgress st) (isInpaintingMode st).

Definition setBgUrl2 (v : option string) (st : VoxState) : VoxState :=
  mkVoxState (prompt st) (bgUrl1 st) v (isBg1Active st) (error st)
    (currentImage st) (inputImages st) (currentVideoUrl st)
    (sessionHistory st) (historyIndex st) (videoQuota st)
    (isGeneratingVideo st) (videoProgress st) (isInpaintingMode st).

Definition setIsBg1Active (v : bool) (st : VoxState) : VoxState :=
  mkVoxState (prompt st) (bgUrl1 st) (bgUrl2 st) v (error st)
    (currentImage st) (inputImages st) (currentVideoUrl st)
    (sessionHistory st) (historyIndex st) (videoQuota st)
    (isGeneratingVideo st) (videoProgress st) (isInpaintingMode st).

Definition setError (v : option string) (st : VoxState) : VoxState :=
  mkVoxState (prompt st) (bgUrl1 st) (bgUrl2 st) (isBg1Active st) v
    (currentImage st) (inputImages st) (currentVideoUrl st)
    (sessionHistory st) (historyIndex st) (videoQuota st)
    (isGeneratingVideo st) (videoProgress st) (isInpaintingMode st).

Definition setCurrentImage (v : option ImageData) (st : VoxState) : VoxState :=
  mkVoxState (prompt st) (bgUrl1 st) (bgUrl2 st) (isBg1Active st) (error st)
    v (inputImages st) (currentVideoUrl st) (sessionHistory st)
    (historyIndex st) (videoQuota st) (isGeneratingVideo st)
    (videoProgress st) (isInpaintingMode st).

Definition setInputImages (v : list ImageData) (st : VoxState) : VoxState :=
  mkVoxState (prompt st) (bgUrl1 st) (bgUrl2 st) (isBg1Active st) (error st)
    (currentImage st) v (currentVideoUrl st) (sessionHistory st)
    (historyIndex st) (videoQuota st) (isGeneratingVideo st)
    (videoProgress st) (isInpaintingMode st).

Definition setCurrentVideoUrl (v : option string) (st : VoxState) : VoxState :=
  mkVoxState (prompt st) (bgUrl1 st) (bgUrl2 st) (isBg1Active st) (error st)
    (currentImage st) (inputImages st) v (sessionHistory st)
    (historyIndex st) (videoQuota st) (isGeneratingVideo st)
    (videoProgress st) (isInpaintingMode st).

Definition setSessionHistory (v : list SessionState.t) (st : VoxState) : VoxState :=
  mkVoxState (prompt st) (bgUrl1 st) (bgUrl2 st) (isBg1Active st) (error st)
    (currentImage st) (inputImages st) (currentVideoUrl st) v
    (historyIndex st) (videoQuota st) (isGeneratingVideo st)
    (videoProgress st) (isInpaintingMode st).

Definition setHistoryIndex (v : Z) (st : VoxState) : VoxState :=
  mkVoxState (prompt st) (bgUrl1 st) (bgUrl2 st) (isBg1Active st) (error st)
    (currentImage st) (inputImages st) (currentVideoUrl st)
    (sessionHistory st) v (videoQuota st) (isGeneratingVideo st)
    (videoProgress st) (isInpaintingMode st).

Definition setVideoQuota (v : Z) (st : VoxState) : VoxState :=
  mkVoxState (prompt st) (bgUrl1 st) (bgUrl2 st) (isBg1Active st) (error st)
    (currentImage st) (inputImages st) (currentVideoUrl st)
    (sessionHistory st) (historyIndex st) v (isGeneratingVideo st)
    (videoProgress st) (isInpaintingMode st).

Definition setIsGeneratingVideo (v : bool) (st : VoxState) : VoxState :=
  mkVoxState (prompt st) (bgUrl1 st) (bgUrl2 st) (isBg1Active st) (error st)
    (currentImage st) (inputImages st) (currentVideoUrl st)
    (sessionHistory st) (historyIndex st) (videoQuota st) v
    (videoProgress st) (isInpaintingMode st).

Definition setVideoProgress (v : string) (st : VoxState) : VoxState :=
  mkVoxState (prompt st) (bgUrl1 st) (bgUrl2 st) (isBg1Active st) (error st)
    (currentImage st) (inputImages st) (currentVideoUrl st)
    (sessionHistory st) (historyIndex st) (videoQuota st)
    (isGeneratingVideo st) v (isInpaintingMode st).

Definition setIsInpaintingMode (v : bool) (st : VoxState) : VoxState :=
  mkVoxState (prompt st) (bgUrl1 st) (bgUrl2 st) (isBg1Active st) (error st)
    (currentImage st) (inputImages st) (currentVideoUrl st)
    (sessionHistory st) (historyIndex st) (videoQuota st)
    (isGeneratingVideo st) (videoProgress st) v.

(** The state of a freshly mounted page. *)
Definition initial : VoxState :=
  {| prompt := EmptyString;
     bgUrl1 := None;
     bgUrl2 := None;
     isBg1Active := true;
     error := None;
     currentImage := None;
     inputImages := [];
     currentVideoUrl := None;
     sessionHistory := [];
     historyIndex := -1;
     videoQuota := DAILY_FREE_QUOTA;
     isGeneratingVideo := false;
     videoProgress := EmptyString;
     isInpaintingMode := false |}.

(** Handlers are closures over the state of the render that created them:
    they read that state ([r] below) and queue updates, which are applied
    here to the pending state [st].  An updater function such as
    [setHistoryIndex(prev => prev + 1)] reads the pending state. *)
Definition Handler : Type := VoxState -> VoxState -> VoxState.

(** An event delivered to the page: the handler of the current render runs
    and the page renders again with the updated state. *)
Definition dispatch (h : Handler) (st : VoxState) : VoxState := h st st.

(** [arr.slice(0, e)] *)
Definition slice0 {A} (arr : list A) (e : Z) : list A :=
  let len := Z.of_nat (length arr) in
  let e' := if e <? 0 then Z.max (len + e) 0 else Z.min e len in
  firstn (Z.to_nat e') arr.

(** [arr[i]]; [None] is [undefined]. *)
Definition at_index {A} (arr : list A) (i : Z) : option A :=
  if i <? 0 then None else nth_error arr (Z.to_nat i).

Definition updateCurrentImage (newSrc : option string)
    (newMimeType : option string) : Handler :=
  fun r st =>
    let st1 :=
      match newSrc with
      | Some src =>
          if Js.truthy src then
            let st' := if isBg1Active r then setBgUrl2 (Some src) st
                       else setBgUrl1 (Some src) st in
            let st' := setIsBg1Active (negb (isBg1Active r)) st' in
            let mime :=
              Js.or_else (Js.str_or_empty newMimeType)
                (Js.substring src (Js.indexOf src ":" + 1)
                   (Js.indexOf src ";")) in
            setCurrentImage (Some {| base64 := src; mimeType := mime |}) st'
          else setBgUrl2 None (setBgUrl1 None (setCurrentImage None st))
      | None => setBgUrl2 None (setBgUrl1 None (setCurrentImage None st))
      end in
    if Js.truthy (Js.str_or_empty (currentVideoUrl r))
    then setCurrentVideoUrl None st1 else st1.

Definition pushToSessionHistory (image : option ImageData)
    (currentPrompt : string) : Handler :=
  fun r st =>
    let newState := SessionState.mk image currentPrompt in
    let newHistory :=
      (slice0 (sessionHistory r) (historyIndex r + 1) ++ [newState])%list in
    if MAX_SESSION_HISTORY <? Z.of_nat (length newHistory) then
      setSessionHistory (tl newHistory) st
    else
      setSessionHistory newHistory (setHistoryIndex (historyIndex st + 1) st).

(** The restore step shared by undo and redo.  Reading [.image] of an
    [undefined] entry is a [TypeError]: the handler stops there and the
    updates queued before it remain. *)
Definition restore (entry : option SessionState.t) : Handler :=
  fun r st =>
    match entry with
    | None => st
    | Some state =>
        let st1 :=
          match SessionState.image state with
          | Some img =>
              updateCurrentImage (Some (base64 img)) (Some (mimeType img)) r st
          | None => updateCurrentImage None None r st
          end in
        setPrompt (SessionState.prompt state) st1
    end.

Definition handleUndo : Handler :=
  fun r st =>
    if 0 <? historyIndex r then
      let prevIndex := historyIndex r - 1 in
      let prevState := at_index (sessionHistory r) prevIndex in
      restore prevState r (setHistoryIndex prevIndex st)
    else if historyIndex r =? 0 then
      setPrompt EmptyString
        (updateCurrentImage None None r (setHistoryIndex (-1) st))
    else st.

Definition handleRedo : Handler :=
  fun r st =>
    if historyIndex r <? Z.of_nat (length (sessionHistory r)) - 1 then
      let nextIndex := historyIndex r + 1 in
      let nextState := at_index (sessionHistory r) nextIndex in
      restore nextState r (setHistoryIndex nextIndex st)
    else st.

(** *** Which remote operation [handleGenerate] runs *)

Inductive Operation : Type := Combine | Inpaint | Edit | Generate.

(** The branch of [handleGenerate] that is taken; [None] when the handler
    returns at once because the prompt is blank.  [maskCanvas] says
    whether [maskCanvasRef.current] is set. *)
Definition handleGenerate_operation (maskCanvas : bool) (r : VoxState)
  : option Operation :=
  if Js.trim_is_empty (prompt r) then None
  else if (1 <? length (inputImages r))%nat then Some Combine
  else if (isInpaintingMode r
           && Js.present (currentImage r)
           && maskCanvas)%bool then Some Inpaint
  else if Js.present (currentImage r) then Some Edit
  else Some Generate.

(** The chat page routes on the text of the message
    ([handleSendMessage]): several uploaded images are combined only when
    the lower-cased input contains "combine" or "merge". *)
Definition mentions_merge (currentInput : string) : bool :=
  (Js.includes (Js.toLowerCase currentInput) "combine"
   || Js.includes (Js.toLowerCase currentInput) "merge")%bool.

Definition handleSendMessage_combines (currentImages : list ImageData)
    (currentInput : string) : bool :=
  ((1 <? length currentImages)%nat && mentions_merge currentInput)%bool.

(** *** The tray of input images *)

(** A selected file: what its [FileReader] loaded ([None] when the load
    event never fires) and its [type]. *)
Record UploadedFile : Type := mkUploadedFile {
  result : option string;
  type : string
}.

(** [newImages] once the readers have fired: a file is added when its
    result is truthy.  The readers are taken to finish in list order. *)
Fixpoint loaded_images (files : list UploadedFile) : list ImageData :=
  match files with
  | [] => []
  | file :: rest =>
      match result file with
      | Some data =>
          if Js.truthy data
          then {| base64 := data; mimeType := type file |}
               :: loaded_images rest
          else loaded_images rest
      | None => loaded_images rest
      end
  end.

Definition handleFileUpload (files : list UploadedFile) : Handler :=
  fun r st =>
    match files with
    | [] => st
    | first_file :: _ =>
        if ((length files =? 1)%nat && (length (inputImages r) =? 0)%nat)%bool
        then
          match result first_file with
          | None => st
          | Some data =>
              let st1 := updateCurrentImage (Some data)
                           (Some (type first_file)) r st in
              let st2 :=
                pushToSessionHistory
                  (Some {| base64 := data; mimeType := type first_file |})
                  (prompt r) r st1 in
              setIsInpaintingMode false (setCurrentVideoUrl None st2)
          end
        else
          let newImages := loaded_images files in
          if (length newImages =? length files)%nat then
            let st1 :=
              setInputImages (firstn 6 (inputImages st ++ newImages)) st in
            match newImages with
            | first :: _ =>
                updateCurrentImage (Some (base64 first))
                  (Some (mimeType first)) r st1
            | [] => st1
            end
          else st
    end.

(** [prev.filter((_, i) => i !== index)] *)
Fixpoint remove_at {A} (l : list A) (index : nat) : list A :=
  match l, index with
  | [], _ => []
  | _ :: rest, O => rest
  | x :: rest, S i => x :: remove_at rest i
  end.

Definition handleRemoveFromTray (index : nat) : Handler :=
  fun _ st => setInputImages (remove_at (inputImages st) index) st.

(** *** The video quota and [handleGenerateVideo] *)

(** Where [handleGenerateVideo] left: without a current image, at the
    quota check, or past it (the quota is then charged). *)
Inductive Gate : Type := NoImage | QuotaExceeded | Charged.

Inductive PageEvent : Type :=
| EvSetItem (key value : string)
| EvGenerateVideo (motionPrompt : string)
| EvAddToHistory (motionPrompt videoUrl : string).

(** The page with what lies outside the component: the world [W] (local
    storage, the remote service, the history of the parent) and the calls
    made to it, oldest first. *)
Record Page (W : Type) : Type := mkPage {
  view : VoxState;
  world : W;
  events : list PageEvent
}.
Arguments mkPage {W}.
Arguments view {W}.
Arguments world {W}.
Arguments events {W}.

Section Video.

Context {W : Type}.

(** [localStorage.setItem(key, value)] *)
Variable setItem : string -> string -> Io W unit.

(** [getActiveAspectRatio()] *)
Variable getActiveAspectRatio : W -> AspectRatio.

(** The imported [generateVideo], called with the motion prompt, the
    current image and the aspect ratio. *)
Variable generateVideo : string -> ImageData -> AspectRatio -> Io W string.

(** [addToHistory] of the parent component, reached through
    [createAndStoreHistoryItem]. *)
Variable addToHistory : string -> string -> W -> W.

Definition update_view (f : VoxState -> VoxState) : Io (Page W) unit :=
  modify (fun pg => mkPage (f (view pg)) (world pg) (events pg)).

Definition outside {A} (ev : PageEvent) (op : Io W A) : Io (Page W) A :=
  fun pg =>
    let (r, w1) := op (world pg) in
    (r, mkPage (view pg) w1 (events pg ++ [ev])).

Definition updateQuota (newQuota : Z) : Io (Page W) unit :=
  update_view (setVideoQuota newQuota) ;;;
  outside (EvSetItem "vox_video_quota" (Js.toString newQuota))
    (setItem "vox_video_quota" (Js.toString newQuota)).

Definition handleGenerateVideo (motionPrompt : string) (r : VoxState)
  : Page W -> Gate * Page W :=
  fun pg =>
    match currentImage r with
    | None => (NoImage, pg)
    | Some img =>
        if videoQuota r <=? 0 then
          (QuotaExceeded,
           snd (update_view
                  (setError
                     (Some "Daily video quota exceeded. Please add tokens."))
                  pg))
        else
          let body : Io (Page W) unit :=
            update_view (setIsGeneratingVideo true) ;;;
            update_view (setVideoProgress "Initializing Veo 3.1...") ;;;
            update_view (setError None) ;;;
            try_catch
              (aspect <- gets (fun pg =>
                           match getActiveAspectRatio (world pg) with
                           | R9_16 => R9_16
                           | _ => R16_9
                           end) ;;
               updateQuota (videoQuota r - 1) ;;;
               videoUrl <- outside (EvGenerateVideo motionPrompt)
                             (generateVideo motionPrompt img aspect) ;;
               update_view (setCurrentVideoUrl (Some videoUrl)) ;;;
               outside (EvAddToHistory motionPrompt videoUrl)
                 (fun w => (inr tt, addToHistory motionPrompt videoUrl w)))
              (fun err => update_view (setError (message err))) ;;;
            update_view (setIsGeneratingVideo false) ;;;
            update_view (setVideoProgress EmptyString) in
          (Charged, snd (body pg))
    end.

(** One press of the animate button: the handler of the current render
    runs on the page. *)
Definition attempt (motionPrompt : string) (pg : Page W) : Gate * Page W :=
  handleGenerateVideo motionPrompt (view pg) pg.

(** [getActiveAspectRatio() === '9:16' ? '9:16' : '16:9'] *)
Definition clip_aspect (w : W) : AspectRatio :=
  match getActiveAspectRatio w with
  | R9_16 => R9_16
  | _ => R16_9
  end.

End Video.

End Vox.

(** ** The persistent activity history ([Root.tsx]) *)

Module Root.

Import Service.

Definition MAX_HISTORY_ITEMS : nat := 10.

Inductive UpscaleResolution : Type := X2 | X4.
Inductive ImageFilter : Type := NoFilter | Grayscale | Sepia | Invert | Blur.
Inductive GenerationMode : Type :=
  TextToImage | ImageToImage | TextToVideo | ImageToVideo.

Record ImageInfo : Type := mkImageInfo {
  src : string;
  upscaledTo : option UpscaleResolution;
  isRefined : bool;
  filter : option ImageFilter
}.

Record VoxSettings : Type := mkVoxSettings {
  negativePrompt : string;
  activeStyles : list string;
  detailIntensity : Z;
  voxAspectRatio : option (option AspectRatio)
}.

Record HistoryItem : Type := mkHistoryItem {
  id : string;
  prompt : string;
  settings : ImageSettings;
  images : list ImageInfo;
  timestamp : Z;
  generationMode : GenerationMode;
  inputImage : option string;
  voxSettings : option VoxSettings;
  videoSrc : option string;
  seed : option Z
}.

(** The component state [history], the world [W] that holds the local
    storage, and what was written with [console.error], newest first. *)
Record State (W : Type) : Type := mkState {
  history : list HistoryItem;
  world : W;
  console : list (string * JsError)
}.
Arguments mkState {W}.
Arguments history {W}.
Arguments world {W}.
Arguments console {W}.

(** The two storage calls of the history:
    [localStorage.setItem('generationHistory', JSON.stringify(h))] and
    [localStorage.removeItem('generationHistory')].  Either may throw. *)
Record Storage (W : Type) : Type := mkStorage {
  setItem : list HistoryItem -> Io W unit;
  removeItem : Io W unit
}.
Arguments setItem {W}.
Arguments removeItem {W}.

(** [error instanceof DOMException && (error.name === 'QuotaExceededError'
    || error.name === 'NS_ERROR_DOM_QUOTA_REACHED')] *)
Definition is_quota_error (error : JsError) : bool :=
  (is_DOMException error
   && (String.eqb (name error) "QuotaExceededError"
       || String.eqb (name error) "NS_ERROR_DOM_QUOTA_REACHED"))%bool.

Section History.

Context {W : Type}.
Variable LS : Storage W.

Definition setHistory (h : list HistoryItem) : Io (State W) unit :=
  modify (fun st => mkState h (world st) (console st)).

Definition console_error (msg : string) (e : JsError) : Io (State W) unit :=
  modify (fun st => mkState (history st) (world st) ((msg, e) :: console st)).

Definition storage {A} (op : Io W A) : Io (State W) A :=
  fun st =>
    let (r, w1) := op (world st) in
    (r, mkState (history st) w1 (console st)).

(** How one turn of the [while] loop ends: the function returns, or the
    loop goes on with one item less. *)
Inductive Turn : Type :=
| Return_
| Retry (historyToSave : list HistoryItem).

(** [historyToSave.pop()] removes the last item, which is the oldest. *)
Definition pop (historyToSave : list HistoryItem) : list HistoryItem :=
  removelast historyToSave.

(** [saveHistory], from the head of the [while] loop on.  [fuel] bounds
    the number of turns; [None] is returned when it is used up. *)
Fixpoint save_loop (fuel : nat) (historyToSave : list HistoryItem)
  : Io (State W) (option unit) :=
  match historyToSave with
  | [] =>
      try_catch (storage (removeItem LS))
        (fun e =>
           console_error
             "Failed to clear history from localStorage after pruning." e) ;;;
      setHistory [] ;;;
      ret (Some tt)
  | _ :: _ =>
      match fuel with
      | O => ret None
      | S fuel' =>
          turn <- try_catch
                    (storage (setItem LS historyToSave) ;;;
                     setHistory historyToSave ;;;
                     ret Return_)
                    (fun error =>
                       if is_quota_error error then
                         ret (Retry (pop historyToSave))
                       else
                         console_error
                           "Failed to save history to localStorage" error ;;;
                         ret Return_) ;;
          match turn with
          | Return_ => ret (Some tt)
          | Retry shorter => save_loop fuel' shorter
          end
      end
  end.

Definition saveHistory (newHistory : list HistoryItem)
  : Io (State W) (option unit) :=
  save_loop (length newHistory) newHistory.

(** [addToHistory] is created anew by every render of the component and
    reads the [history] of that render, [r]: the pages that receive it
    call it after an [await], when the state may have moved on. *)
Definition addToHistory (item : HistoryItem) (r : State W)
  : Io (State W) (option unit) :=
  let newHistory := firstn MAX_HISTORY_ITEMS (item :: history r) in
  saveHistory newHistory.

(** [clearHistory]: the key is removed, a failure of the removal is
    logged, and the history is emptied in either case. *)
Definition clearHistory : Io (State W) unit :=
  try_catch (storage (removeItem LS))
    (fun e => console_error "Failed to clear history from localStorage." e) ;;;
  setHistory [].

(** [deleteHistoryItems]: the records whose id is in the set are filtered
    out and the rest is saved.  The page that is handed this function
    never calls it; it is modelled as called by the render that shows
    the current state. *)
Definition deleteHistoryItems (idsToDelete : list string)
  : Io (State W) (option unit) :=
  fun st =>
    let newHistory :=
      List.filter
        (fun item => negb (existsb (String.eqb (id item)) idsToDelete))
        (history st) in
    saveHistory newHistory st.

End History.

End Root.

(** ** Sending a chat message ([components/Header.tsx]) *)

Module Chat.

(** [(msg.includes("Requested entity was not found") || e.status === 404)]
    with [msg = e.message || e.toString()] *)
Definition entity_not_found (e : JsError) : bool :=
  let msg := Js.or_else (Js.str_or_empty (message e)) (to_string e) in
  (Js.includes msg "Requested entity was not found"
   || Js.num_is (status e) 404)%bool.

Section Send.

Context {St Session T : Type}.

(** [typeof window !== 'undefined' && window.aistudio] *)
Variable has_aistudio : St -> bool.

(** [window.aistudio.openSelectKey()] *)
Variable openSelectKey : Io St unit.

(** [initChat()]: a new chat session, or [null] without a key or when
    the session could not be created. *)
Variable initChat : St -> option Session.

(** [currentChat.sendMessage({ message: parts })] *)
Variable sendMessage : Session -> Io St T.

(** [sendMessageWithRetry(currentChat, attempt)].  [fuel] bounds the
    depth of the recursion; [None] is returned when it is used up. *)
Fixpoint sendMessageWithRetry (fuel : nat) (currentChat : option Session)
    (attempt : Z) {struct fuel} : Io St (option (T * option Session)) :=
  match fuel with
  | O => ret None
  | S fuel' =>
      match currentChat with
      | None => throw (new_Error "Chat not initialized")
      | Some session =>
          try_catch
            (result <- sendMessage session ;;
             ret (Some (result, currentChat)))
            (fun e =>
               if (entity_not_found e && (attempt =? 1))%bool then
                 present <- gets has_aistudio ;;
                 if (present : bool) then
                   try_catch
                     (openSelectKey ;;;
                      newChat <- gets initChat ;;
                      sendMessageWithRetry fuel' newChat 2)
                     (fun selErr => throw e)
                 else throw e
               else throw e)
      end
  end.

End Send.

End Chat.

(** ** The other image functions of the service ([services/geminiService]) *)

Module Imaging.

Import Service.

(** [Math.round(a / b)] for integers [0 <= a] and [0 < b]: the nearest
    integer, a half rounded up. *)
Definition round_div (a b : Z) : Z := (2 * a + b) / (2 * b).

(** The size of the canvas [resizeImage] draws on, from the size of the
    loaded image and the two bounds. *)
Definition resized_dimensions (width height maxWidth maxHeight : Z)
  : Z * Z :=
  if height <? width then
    if maxWidth <? width then
      (maxWidth, round_div (height * maxWidth) width)
    else (width, height)
  else
    if maxHeight <? height then
      (round_div (width * maxHeight) height, maxHeight)
    else (width, height).

(** The loop of [upscaleImage] and of [refineImage] over the parts of the
    first candidate: the first image payload is taken and the loop
    breaks. *)
Fixpoint first_image (parts : list Part) : option string :=
  match parts with
  | [] => None
  | part :: rest =>
      match inlineData part with
      | Some (mime, data) => Some ("data:" ++ mime ++ ";base64," ++ data)
      | None => first_image rest
      end
  end.

Definition read_first_image (response : Response) : option string :=
  match first_candidate_parts response with
  | Some parts => first_image parts
  | None => None
  end.

(** [s.substring(s.indexOf(':') + 1, s.indexOf(';'))] *)
Definition mime_of_data_url (s : string) : string :=
  Js.substring s (Js.indexOf s ":" + 1) (Js.indexOf s ";").

Section Functions.

Context {W : Type}.
Variable P : Platform W.

(** The function that [editImageFromPrompt] hands to the retrying
    client. *)
Definition editImageFromPrompt_body (masterPrompt base64ImageData : string)
    (_mimeType : string) (seed : option Z) : Io (Sys W) Generated :=
  try_catch
    (getAi P ;;;
     usedSeed <- match seed with
                 | Some v => ret v
                 | None =>
                     fun s => let (v, w1) := random_seed P (world s) in
                              (inr v, mkSys w1 (trace s))
                 end ;;
     resized <- call (EvResizeImage base64ImageData)
                  (resizeImage P base64ImageData) ;;
     let pureBase64 := pure_base64 (fst resized) in
     let finalPrompt := masterPrompt in
     let request :=
       {| req_model := "gemini-3-pro-image-preview";
          req_parts :=
            [ {| inlineData := Some (snd resized, pureBase64);
                 text := None |};
              {| inlineData := None; text := Some finalPrompt |} ];
          req_systemInstruction := None;
          req_seed := Some usedSeed |} in
     response <- call (EvGenerateContent request)
                   (generateContent P request) ;;
     let (images, refusalText) := read_response response in
     match images with
     | [] =>
         if Js.truthy (Js.str_or_empty refusalText) then
           throw (new_Error
             ("Model refusal: " ++ Js.str_or_empty refusalText))
         else
           throw (new_Error
             "The model did not return an edited image. It may have refused the request due to safety policies or an unclear prompt.")
     | _ => ret {| images := images; seed := usedSeed |}
     end)
    (rethrow_parsed).

Definition editImageFromPrompt (masterPrompt base64ImageData : string)
    (_mimeType : string) (seed : option Z) : Io (Sys W) Generated :=
  withApiKeyHandling P
    (editImageFromPrompt_body masterPrompt base64ImageData _mimeType seed).

(** The function that [inpaintImage] hands to the retrying client.  The
    two images are sent as they are, without a resize. *)
Definition inpaintImage_body (originalImageBase64 maskImageBase64 : string)
    (mimeType : string) (masterPrompt : string)
  : Io (Sys W) (list string) :=
  try_catch
    (getAi P ;;;
     let pureOriginalBase64 := pure_base64 originalImageBase64 in
     let pureMaskBase64 := pure_base64 maskImageBase64 in
     let finalPrompt := masterPrompt in
     let request :=
       {| req_model := "gemini-3-pro-image-preview";
          req_parts :=
            [ {| inlineData := Some (mimeType, pureOriginalBase64);
                 text := None |};
              {| inlineData := Some ("image/png", pureMaskBase64);
                 text := None |};
              {| inlineData := None; text := Some finalPrompt |} ];
          req_systemInstruction := None;
          req_seed := None |} in
     response <- call (EvGenerateContent request)
                   (generateContent P request) ;;
     let (images, refusalText) := read_response response in
     match images with
     | [] =>
         if Js.truthy (Js.str_or_empty refusalText) then
           throw (new_Error
             ("Model refusal: " ++ Js.str_or_empty refusalText))
         else
           throw (new_Error
             "The model did not return an inpainted image. It may have refused the request.")
     | _ => ret images
     end)
    (rethrow_parsed).

Definition inpaintImage (originalImageBase64 maskImageBase64 : string)
    (mimeType : string) (masterPrompt : string)
  : Io (Sys W) (list string) :=
  withApiKeyHandling P
    (inpaintImage_body originalImageBase64 maskImageBase64 mimeType
       masterPrompt).

(** The function that [upscaleImage] hands to the retrying client.  The
    requested resolution is not used. *)
Definition upscaleImage_body (base64ImageData : string)
    (resolution : Root.UpscaleResolution) (upscalePrompt : string)
  : Io (Sys W) string :=
  try_catch
    (getAi P ;;;
     let pureBase64 := pure_base64 base64ImageData in
     let mimeType := mime_of_data_url base64ImageData in
     let finalPrompt := upscalePrompt in
     let request :=
       {| req_model := "gemini-3-pro-image-preview";
          req_parts :=
            [ {| inlineData := Some (mimeType, pureBase64); text := None |};
              {| inlineData := None; text := Some finalPrompt |} ];
          req_systemInstruction := None;
          req_seed := None |} in
     response <- call (EvGenerateContent request)
                   (generateContent P request) ;;
     let upscaledImage := read_first_image response in
     if negb (Js.truthy (Js.str_or_empty upscaledImage)) then
       throw (new_Error
         "The model did not return an upscaled image. This may be due to safety policies.")
     else ret (Js.str_or_empty upscaledImage))
    (rethrow_parsed).

Definition upscaleImage (base64ImageData : string)
    (resolution : Root.UpscaleResolution) (upscalePrompt : string)
  : Io (Sys W) string :=
  withApiKeyHandling P
    (upscaleImage_body base64ImageData resolution upscalePrompt).

(** The function that [refineImage] hands to the retrying client. *)
Definition refineImage_body (base64ImageData masterPrompt : string)
  : Io (Sys W) string :=
  try_catch
    (getAi P ;;;
     resized <- call (EvResizeImage base64ImageData)
                  (resizeImage P base64ImageData) ;;
     let pureBase64 := pure_base64 (fst resized) in
     let finalPrompt := masterPrompt in
     let request :=
       {| req_model := "gemini-3-pro-image-preview";
          req_parts :=
            [ {| inlineData := Some (snd resized, pureBase64);
                 text := None |};
              {| inlineData := None; text := Some finalPrompt |} ];
          req_systemInstruction := None;
          req_seed := None |} in
     response <- call (EvGenerateContent request)
                   (generateContent P request) ;;
     let refinedImage := read_first_image response in
     if negb (Js.truthy (Js.str_or_empty refinedImage)) then
       throw (new_Error
         "The model did not return a refined image. This may be due to safety policies.")
     else ret (Js.str_or_empty refinedImage))
    (rethrow_parsed).

Definition refineImage (base64ImageData masterPrompt : string)
  : Io (Sys W) string :=
  withApiKeyHandling P (refineImage_body base64ImageData masterPrompt).

(** The function that [reframeImage] hands to the retrying client. *)
Definition reframeImage_body (base64ImageData : string) (_mimeType : string)
    (masterPrompt : string) : Io (Sys W) (list string) :=
  try_catch
    (getAi P ;;;
     resized <- call (EvResizeImage base64ImageData)
                  (resizeImage P base64ImageData) ;;
     let pureBase64 := pure_base64 (fst resized) in
     let finalPrompt := masterPrompt in
     let request :=
       {| req_model := "gemini-3-pro-image-preview";
          req_parts :=
            [ {| inlineData := Some (snd resized, pureBase64);
                 text := None |};
              {| inlineData := None; text := Some finalPrompt |} ];
          req_systemInstruction := None;
          req_seed := None |} in
     response <- call (EvGenerateContent request)
                   (generateContent P request) ;;
     let (images, refusalText) := read_response response in
     match images with
     | [] =>
         if Js.truthy (Js.str_or_empty refusalText) then
           throw (new_Error
             ("Model refusal: " ++ Js.str_or_empty refusalText))
         else
           throw (new_Error
             "The model did not return a reframed image. It may have refused the request.")
     | _ => ret images
     end)
    (rethrow_parsed).

Definition reframeImage (base64ImageData : string) (_mimeType : string)
    (masterPrompt : string) : Io (Sys W) (list string) :=
  withApiKeyHandling P
    (reframeImage_body base64ImageData _mimeType masterPrompt).

End Functions.

End Imaging.

(** ** The video quota across reloads and the tokens ([components/VoxPage.tsx]) *)

Module Quota.

Import Service Vox.

Definition upper_ascii (c : ascii) : ascii :=
  let n := nat_of_ascii c in
  if (Nat.leb 97 n && Nat.leb n 122)%bool then ascii_of_nat (n - 32) else c.

(** [s.toUpperCase()]: the letters [a-z] are mapped to [A-Z].  On ASCII
    text this is what JavaScript does; a letter outside ASCII is left as
    it is. *)
Fixpoint toUpperCase (s : string) : string :=
  match s with
  | EmptyString => EmptyString
  | String c r => String (upper_ascii c) (toUpperCase r)
  end.

(** A number that is an integer or [NaN]. *)
Inductive Number : Type :=
| Int (n : Z)
| NaN.

(** The value of a character as a digit: [0-9], then [a-z] or [A-Z] for
    10 to 35. *)
Definition digit_value (c : ascii) : option Z :=
  let n := Z.of_nat (nat_of_ascii c) in
  if ((48 <=? n) && (n <=? 57))%bool then Some (n - 48)
  else if ((97 <=? n) && (n <=? 122))%bool then Some (n - 87)
  else if ((65 <=? n) && (n <=? 90))%bool then Some (n - 55)
  else None.

(** The longest prefix of digits of the radix, read as a number; [NaN]
    when it is empty. *)
Fixpoint parse_digits (radix : Z) (s : string) (acc : Z) (seen : bool)
  : Number :=
  match s with
  | EmptyString => if seen then Int acc else NaN
  | String c r =>
      match digit_value c with
      | Some d =>
          if d <? radix then parse_digits radix r (acc * radix + d) true
          else if seen then Int acc else NaN
      | None => if seen then Int acc else NaN
      end
  end.

(** [parseInt(s, radix)], a radix of [0] standing for an omitted one:
    leading white space, a sign, the prefix [0x] when the radix is
    omitted or 16, then the digits.  The result is the integer that the
    digits denote, which is what JavaScript gives when that is a safe
    integer (a longer numeral is rounded there). *)
Definition parseInt (s : string) (radix : Z) : Number :=
  let s1 := Js.trimStart s in
  let negative :=
    match s1 with
    | String "-"%char _ => true
    | _ => false
    end in
  let s2 :=
    match s1 with
    | String "-"%char r => r
    | String "+"%char r => r
    | _ => s1
    end in
  if (negb (radix =? 0) && ((radix <? 2) || (36 <? radix)))%bool then NaN
  else
    let R := if radix =? 0 then 10 else radix in
    let prefixed :=
      if ((radix =? 0) || (radix =? 16))%bool then
        match s2 with
        | String "0"%char (String x r) =>
            if (Ascii.eqb x "x" || Ascii.eqb x "X")%bool then Some r else None
        | _ => None
        end
      else None in
    let parsed :=
      match prefixed with
      | Some r => parse_digits 16 r 0 false
      | None => parse_digits R s2 0 false
      end in
    match parsed with
    | Int v => Int (if negative then - v else v)
    | NaN => NaN
    end.

(** [validTokens[key]]: the table of the tokens. *)
Definition validTokens (key : string) : option Z :=
  if String.eqb key "VEO-FAST" then Some 5
  else if String.eqb key "GEMINI-VIDEO" then Some 10
  else if String.eqb key "VXDL-PRO" then Some 20
  else if String.eqb key "DEMO-123" then Some 3
  else None.

(** The quota of the page and the world that holds the local storage and
    the clock, for the effect that runs when the page is mounted. *)
Record Mount (W : Type) : Type := mkMount {
  videoQuota : Number;
  world : W
}.
Arguments mkMount {W}.
Arguments videoQuota {W}.
Arguments world {W}.

Section Storage.

Context {W : Type}.

(** [localStorage.getItem(key)]; [None] is [null]. *)
Variable getItem : string -> W -> option string.

(** [localStorage.setItem(key, value)] *)
Variable setItem : string -> string -> Io W unit.

(** [new Date().toDateString()] *)
Variable toDateString : W -> string.

Definition setVideoQuota (v : Number) : Io (Mount W) unit :=
  modify (fun m => mkMount v (world m)).

Definition localStorage {A} (op : Io W A) : Io (Mount W) A :=
  fun m =>
    let (r, w1) := op (world m) in
    (r, mkMount (videoQuota m) w1).

(** [storedDate !== today] *)
Definition differs (storedDate : option string) (today : string) : bool :=
  match storedDate with
  | Some d => negb (String.eqb d today)
  | None => true
  end.

(** The effect of the quota, run once when the page is mounted. *)
Definition quota_effect : Io (Mount W) unit :=
  storedDate <- gets (fun m => getItem "vox_quota_date" (world m)) ;;
  today <- gets (fun m => toDateString (world m)) ;;
  if differs storedDate today then
    setVideoQuota (Int DAILY_FREE_QUOTA) ;;;
    localStorage (setItem "vox_quota_date" today) ;;;
    localStorage (setItem "vox_video_quota" (Js.toString DAILY_FREE_QUOTA))
  else
    storedQuota <- gets (fun m => getItem "vox_video_quota" (world m)) ;;
    if Js.truthy (Js.str_or_empty storedQuota) then
      setVideoQuota (parseInt (Js.str_or_empty storedQuota) 0)
    else ret tt.

(** [handleRedeemToken]: a token of the table adds its value to the quota
    of the render; the answer says whether the token was accepted. *)
Definition handleRedeemToken (token : string) (r : VoxState)
  : Io (Page W) bool :=
  match validTokens (toUpperCase token) with
  | Some value =>
      if negb (value =? 0) then
        updateQuota setItem (Vox.videoQuota r + value) ;;;
        ret true
      else ret false
  | None => ret false
  end.

(** One submission of a token: the handler of the current render runs on
    the page. *)
Definition redeem (token : string) (pg : Page W) : (JsError + bool) * Page W :=
  handleRedeemToken token (view pg) pg.

End Storage.

Arguments parseInt : simpl never.

End Quota.

(** ** The session of the user and the rest of the history ([Root.tsx]) *)

Module Session.

Import Service Root.

Definition GUEST_SESSION_DURATION : Z := 1800.

Inductive AppState : Type := Landing | Login | Bridge | InApp.

(** A user as the session stores it: [type] and [loginTime], which is
    absent for a member. *)
Record User : Type := mkUser {
  type : string;
  loginTime : option Z
}.

(** The state of the root component: where the application is, the user
    ([None] is [null]), the seconds left of a guest session, whether the
    interval of the timer effect is running, and the history with the
    world and the console. *)
Record App (W : Type) : Type := mkApp {
  appState : AppState;
  user : option User;
  sessionTime : Z;
  timer : bool;
  store : State W
}.
Arguments mkApp {W}.
Arguments appState {W}.
Arguments user {W}.
Arguments sessionTime {W}.
Arguments timer {W}.
Arguments store {W}.

(** What the root component calls outside itself: the session storage
    under the key [userSession], the local storage under the key
    [generationHistory], [JSON.parse] on what they hold, [JSON.stringify]
    on a user, and the clock in milliseconds. *)
Record Browser (W : Type) : Type := mkBrowser {
  session_getItem : W -> option string;
  session_setItem : string -> Io W unit;
  session_removeItem : Io W unit;
  local_getItem : W -> option string;
  parse_user : string -> JsError + option User;
  parse_history : string -> JsError + list HistoryItem;
  stringify_user : User -> string;
  now : W -> Z
}.
Arguments session_getItem {W}.
Arguments session_setItem {W}.
Arguments session_removeItem {W}.
Arguments local_getItem {W}.
Arguments parse_user {W}.
Arguments parse_history {W}.
Arguments stringify_user {W}.
Arguments now {W}.

Section Root.

Context {W : Type}.
Variable B : Browser W.
Variable LS : Storage W.

Definition setAppState (v : AppState) : Io (App W) unit :=
  modify (fun a => mkApp v (user a) (sessionTime a) (timer a) (store a)).

Definition setSessionTime (v : Z) : Io (App W) unit :=
  modify (fun a => mkApp (appState a) (user a) v (timer a) (store a)).

(** [user?.type === 'guest'] *)
Definition is_guest (u : option User) : bool :=
  match u with
  | Some v => String.eqb (type v) "guest"
  | None => false
  end.

(** [setUser(v)].  The timer effect depends on the user: with the new
    user its interval is cleared, and a new one is set when the user is a
    guest. *)
Definition setUser (v : option User) : Io (App W) unit :=
  modify (fun a => mkApp (appState a) v (sessionTime a) (is_guest v)
                     (store a)).

Definition clearInterval : Io (App W) unit :=
  modify (fun a => mkApp (appState a) (user a) (sessionTime a) false
                     (store a)).

(** A computation of the history part, run on the root component. *)
Definition on_store {A} (op : Io (State W) A) : Io (App W) A :=
  fun a =>
    let (r, st1) := op (store a) in
    (r, mkApp (appState a) (user a) (sessionTime a) (timer a) st1).

Definition thrown {A} (r : JsError + A) : Io (App W) A := fun a => (r, a).

Definition handleLogout : Io (App W) unit :=
  on_store (storage (session_removeItem B)) ;;;
  setUser None ;;;
  setAppState Login.

(** The part of the mount effect that reads the session.  The answer says
    whether the effect goes on: it is [false] after the [return] that
    follows the logout of an expired guest. *)
Definition load_user : Io (App W) bool :=
  storedUserJSON <- gets (fun a => session_getItem B (world (store a))) ;;
  if Js.truthy (Js.str_or_empty storedUserJSON) then
    storedUser <- thrown (parse_user B (Js.str_or_empty storedUserJSON)) ;;
    match storedUser with
    | Some u =>
        if String.eqb (type u) "guest" then
          current <- gets (fun a => now B (world (store a))) ;;
          let elapsedTime :=
            (current - match loginTime u with
                       | Some t => if t =? 0 then 0 else t
                       | None => 0
                       end) / 1000 in
          if GUEST_SESSION_DURATION <=? elapsedTime then
            handleLogout ;;; ret false
          else
            setUser storedUser ;;;
            setSessionTime (GUEST_SESSION_DURATION - elapsedTime) ;;;
            setAppState Bridge ;;;
            ret true
        else if String.eqb (type u) "member" then
          setUser storedUser ;;;
          setAppState Bridge ;;;
          ret true
        else ret true
    | None => ret true
    end
  else ret true.

(** The effect that loads the session and the history, once, when the
    root component is mounted. *)
Definition load_session : Io (App W) unit :=
  try_catch
    (goes_on <- load_user ;;
     if (goes_on : bool) then
       storedHistory <- gets (fun a => local_getItem B (world (store a))) ;;
       if Js.truthy (Js.str_or_empty storedHistory) then
         h <- thrown (parse_history B (Js.str_or_empty storedHistory)) ;;
         on_store (setHistory h)
       else ret tt
     else ret tt)
    (fun error =>
       on_store
         (console_error "Failed to load session from sessionStorage" error) ;;;
       on_store (storage (session_removeItem B))).

(** One firing of the interval of the timer effect: the updater of the
    remaining time logs the guest out when a second or less is left. *)
Definition tick : Io (App W) unit :=
  running <- gets timer ;;
  if (running : bool) then
    prevTime <- gets sessionTime ;;
    if prevTime <=? 1 then
      clearInterval ;;;
      handleLogout ;;;
      setSessionTime 0
    else setSessionTime (prevTime - 1)
  else ret tt.

Inductive UserType : Type := Member | Guest.

Definition type_text (userType : UserType) : string :=
  match userType with
  | Member => "member"
  | Guest => "guest"
  end.

Definition handleLoginSuccess (userType : UserType) : Io (App W) unit :=
  current <- gets (fun a => now B (world (store a))) ;;
  let newUser :=
    match userType with
    | Guest => {| type := type_text userType; loginTime := Some current |}
    | Member => {| type := type_text userType; loginTime := None |}
    end in
  match userType with
  | Guest => setSessionTime GUEST_SESSION_DURATION
  | Member => ret tt
  end ;;;
  try_catch
    (on_store (storage (session_setItem B (stringify_user B newUser))))
    (fun e =>
       on_store
         (console_error "Failed to save session to sessionStorage" e)) ;;;
  setUser (Some newUser) ;;;
  setAppState Bridge.

(** [updateHistoryItem]: the images of the record with the given id are
    replaced and the history is saved.  Like [addToHistory] it reads the
    [history] of the render [r] that created it, and the page that
    receives it calls it after an [await]. *)
Definition updateHistoryItem (itemId : string)
    (updatedImages : list ImageInfo) (r : State W)
  : Io (State W) (option unit) :=
  let newHistory :=
    map (fun item =>
           if String.eqb (id item) itemId then
             {| id := id item;
                prompt := prompt item;
                settings := settings item;
                images := updatedImages;
                timestamp := timestamp item;
                generationMode := generationMode item;
                inputImage := inputImage item;
                voxSettings := voxSettings item;
                videoSrc := videoSrc item;
                seed := seed item |}
           else item)
      (history r) in
  saveHistory LS newHistory.

End Root.

End Session.

(** ** The generate action of the VOX page ([components/VoxPage.tsx]) *)

Module Studio.

Import Service Vox.

(** [parts.join(sep)] *)
Fixpoint join (sep : string) (parts : list string) : string :=
  match parts with
  | [] => EmptyString
  | [part] => part
  | part :: rest => part ++ sep ++ join sep rest
  end.

Definition STYLE_PRESETS : list (string * string) :=
  [ ("Cinematic",
     "cinematic, film grain, dramatic lighting, professional cinematography");
    ("Photorealistic",
     "photorealistic, 8k, ultra detailed, sharp focus, high quality photo");
    ("Hyper-realistic",
     "hyperrealistic, masterpiece, best quality, ultra-detailed, cinematic photography, sharp focus, professional color grading, 8k");
    ("Anime",
     "anime style, vibrant colors, clean line art, studio ghibli inspired");
    ("Fantasy",
     "fantasy art, epic, magical, glowing elements, matte painting");
    ("Cyberpunk",
     "cyberpunk, neon lights, futuristic city, dystopian, high tech");
    ("Vintage", "vintage photo, sepia tones, 1950s photograph, grainy") ].

(** [DETAIL_LEVELS[k]]; [None] is [undefined]. *)
Definition DETAIL_LEVELS (k : Z) : option string :=
  if k =? 1 then Some "simple sketch, basic shapes"
  else if k =? 2 then Some EmptyString
  else if k =? 3 then Some "detailed, intricate details"
  else if k =? 4 then Some "highly detailed, professional digital art"
  else if k =? 5 then
    Some "hyperrealistic, 8k resolution, masterpiece, breathtaking detail"
  else None.

(** The settings of the page and the rest of its state that the generate
    action reads or writes; [selectedAspectRatio] is [None] for 'auto'. *)
Record Panel : Type := mkPanel {
  page : VoxState;
  isLoading : bool;
  selectedModel : GenerationModel;
  negativePrompt : string;
  activeStyles : list string;
  detailIntensity : Z;
  selectedAspectRatio : option AspectRatio;
  seed : string
}.

Definition setPage (v : VoxState) (p : Panel) : Panel :=
  mkPanel v (isLoading p) (selectedModel p) (negativePrompt p)
    (activeStyles p) (detailIntensity p) (selectedAspectRatio p) (seed p).

Definition setIsLoading (v : bool) (p : Panel) : Panel :=
  mkPanel (page p) v (selectedModel p) (negativePrompt p)
    (activeStyles p) (detailIntensity p) (selectedAspectRatio p) (seed p).

(** [STYLE_PRESETS.find(p => p.name === name)?.keywords || ''] *)
Definition style_keywords (name : string) : string :=
  match find (fun p => String.eqb (fst p) name) STYLE_PRESETS with
  | Some p => Js.or_else (snd p) EmptyString
  | None => EmptyString
  end.

Definition constructFinalPrompt (r : Panel) : string :=
  let finalPrompt := prompt (page r) in
  let styleKeywords := join ", " (map style_keywords (activeStyles r)) in
  let finalPrompt :=
    if Js.truthy styleKeywords then finalPrompt ++ ", " ++ styleKeywords
    else finalPrompt in
  let detailKeywords := DETAIL_LEVELS (detailIntensity r) in
  let finalPrompt :=
    if Js.truthy (Js.str_or_empty detailKeywords)
    then finalPrompt ++ ", " ++ Js.str_or_empty detailKeywords
    else finalPrompt in
  if Js.truthy (Js.trim (negativePrompt r))
  then finalPrompt ++ " --no " ++ Js.trim (negativePrompt r)
  else finalPrompt.

(** The calls the action makes outside the component, with what it hands
    over. *)
Inductive Call : Type :=
| CallCombine (images : list ImageData) (masterPrompt : string)
| CallEnhance (currentPrompt systemInstruction : string)
| CallInpaint (original mask mimeType masterPrompt : string)
| CallEdit (masterPrompt image mimeType : string)
    (seed : option Quota.Number)
| CallGenerate (prompt : string) (settings : ImageSettings)
    (systemInstruction : option string) (aspectRatioText : string)
    (seed : option Quota.Number)
| CallAddToHistory (item : Root.HistoryItem).

(** The page with what lies outside it and the calls made so far, oldest
    first. *)
Record Desk (W : Type) : Type := mkDesk {
  panel : Panel;
  world : W;
  calls : list Call
}.
Arguments mkDesk {W}.
Arguments panel {W}.
Arguments world {W}.
Arguments calls {W}.

(** The double quote. *)
Definition quote : string := String (ascii_of_nat 34) EmptyString.

Section Generate.

Context {W : Type}.

(** The translation of a key, with the values of its parameters. *)
Variable t : string -> list (string * string) -> string.

(** The imported functions of the service. *)
Variable combineImages : list ImageData -> string -> Io W (list string).
Variable enhancePrompt : string -> string -> Io W string.
Variable inpaintImage : string -> string -> string -> string
                        -> Io W (list string).
Variable editImageFromPrompt :
  string -> string -> string -> option Quota.Number -> Io W Generated.
Variable generateImagesFromPrompt :
  string -> ImageSettings -> option string -> string -> option Quota.Number
  -> Io W Generated.

(** [maskCanvasRef.current], as the data URL [toDataURL('image/png')]
    gives for it; [None] when the reference is [null]. *)
Variable maskCanvas : W -> option string.

(** What reading a property of [null] throws. *)
Variable null_TypeError : JsError.

(** [getActiveAspectRatio()] *)
Variable getActiveAspectRatio : W -> AspectRatio.

(** [addToHistory] of the parent component, [new Date().toISOString()]
    and [Date.now()]. *)
Variable addToHistory : Root.HistoryItem -> W -> W.
Variable toISOString : W -> string.
Variable now : W -> Z.

Definition update_panel (f : Panel -> Panel) : Io (Desk W) unit :=
  modify (fun d => mkDesk (f (panel d)) (world d) (calls d)).

Definition update_page (f : VoxState -> VoxState) : Io (Desk W) unit :=
  update_panel (fun p => setPage (f (page p)) p).

Definition outside {A} (c : Call) (op : Io W A) : Io (Desk W) A :=
  fun d =>
    let (r, w1) := op (world d) in
    (r, mkDesk (panel d) w1 (calls d ++ [c])).

(** [createAndStoreHistoryItem], with the settings and the current image
    of the render [r]. *)
Definition createAndStoreHistoryItem (r : Panel)
    (thumbnail : list Root.ImageInfo) (userPrompt : string)
    (settings : ImageSettings) (mode : Root.GenerationMode)
    (videoSrc : option string) (seed : option Z) : Io (Desk W) unit :=
  fun d =>
    let voxSettings :=
      {| Root.negativePrompt := negativePrompt r;
         Root.activeStyles := activeStyles r;
         Root.detailIntensity := detailIntensity r;
         Root.voxAspectRatio := Some (selectedAspectRatio r) |} in
    let newHistoryItem :=
      {| Root.id := toISOString (world d);
         Root.prompt := userPrompt;
         Root.settings := settings;
         Root.images := thumbnail;
         Root.timestamp := now (world d);
         Root.generationMode := mode;
         Root.inputImage := option_map base64 (currentImage (page r));
         Root.voxSettings := Some voxSettings;
         Root.videoSrc := videoSrc;
         Root.seed := seed |} in
    outside (CallAddToHistory newHistoryItem)
      (fun w => (inr tt, addToHistory newHistoryItem w)) d.

(** The settings handed to the service and stored with the record. *)
Definition current_settings (r : Panel) : Io (Desk W) ImageSettings :=
  gets (fun d =>
          {| model := selectedModel r;
             numberOfImages := 1;
             aspectRatio := getActiveAspectRatio (world d) |}).

(** The remote operation of [handleGenerate]: the images it gave and the
    seed, when the operation returns one. *)
Definition operate (r : Panel) (rawPrompt : string)
    (inputSeed : option Quota.Number)
  : Io (Desk W) (list string * option Z) :=
  if (1 <? length (inputImages (page r)))%nat then
    res <- outside (CallCombine (inputImages (page r)) rawPrompt)
             (combineImages (inputImages (page r)) rawPrompt) ;;
    update_page (setInputImages []) ;;;
    ret (res, None)
  else
    maskCanvasRef <- gets (fun d => maskCanvas (world d)) ;;
    match isInpaintingMode (page r), currentImage (page r), maskCanvasRef with
    | true, Some image, Some _ =>
        let enhancementInstruction :=
          "Refine this image editing instruction for an AI inpainting model. The goal is to modify the masked area seamlessly. User instruction: "
          ++ quote ++ rawPrompt ++ quote in
        enhancedPrompt <-
          outside (CallEnhance rawPrompt enhancementInstruction)
            (enhancePrompt rawPrompt enhancementInstruction) ;;
        maskBase64 <-
          (fun d => match maskCanvas (world d) with
                    | Some url => (inr url, d)
                    | None => (inl null_TypeError, d)
                    end) ;;
        inpaintRes <-
          outside (CallInpaint (base64 image) maskBase64 (mimeType image)
                     enhancedPrompt)
            (inpaintImage (base64 image) maskBase64 (mimeType image)
               enhancedPrompt) ;;
        match inpaintRes with
        | [] => ret ([], None)
        | _ =>
            update_page (setIsInpaintingMode false) ;;;
            ret (inpaintRes, None)
        end
    | _, Some image, _ =>
        let masterPrompt :=
          t "gemini_editImage_masterPrompt" [("prompt", rawPrompt)] in
        res <- outside (CallEdit masterPrompt (base64 image) (mimeType image)
                          inputSeed)
                 (editImageFromPrompt masterPrompt (base64 image)
                    (mimeType image) inputSeed) ;;
        ret (images res, Some (Service.seed res))
    | _, None, _ =>
        settings <- current_settings r ;;
        let vxdlUltraSystemInstruction :=
          match selectedModel r with
          | Vx0 => Some (t "gemini_vx0_systemInstruction" [])
          | _ => None
          end in
        res <- outside (CallGenerate rawPrompt settings
                          vxdlUltraSystemInstruction
                          (t "gemini_aspectRatio_text" []) inputSeed)
                 (generateImagesFromPrompt rawPrompt settings
                    vxdlUltraSystemInstruction
                    (t "gemini_aspectRatio_text" []) inputSeed) ;;
        ret (images res, Some (Service.seed res))
    end.

(** What [handleGenerate] does with the first image of a result. *)
Definition show_result (r : Panel) (newSrc : string) (resultSeed : option Z)
  : Io (Desk W) unit :=
  let newMime := Imaging.mime_of_data_url newSrc in
  update_page (updateCurrentImage (Some newSrc) (Some newMime) (page r)) ;;;
  update_page
    (pushToSessionHistory
       (Some {| base64 := newSrc; mimeType := newMime |})
       (prompt (page r)) (page r)) ;;;
  settings <- current_settings r ;;
  createAndStoreHistoryItem r
    [ {| Root.src := newSrc; Root.upscaledTo := None;
         Root.isRefined := false; Root.filter := None |} ]
    (prompt (page r)) settings
    (if isInpaintingMode (page r) then Root.ImageToImage
     else if (1 <? length (inputImages (page r)))%nat then Root.ImageToImage
     else if Js.present (currentImage (page r)) then Root.ImageToImage
     else Root.TextToImage)
    None resultSeed ;;;
  update_page (setPrompt EmptyString).

Definition handleGenerate (r : Panel) : Io (Desk W) unit :=
  if Js.trim_is_empty (prompt (page r)) then ret tt
  else
    update_panel (setIsLoading true) ;;;
    update_page (setError None) ;;;
    try_catch
      (let rawPrompt := constructFinalPrompt r in
       let inputSeed :=
         if Js.truthy (seed r) then Some (Quota.parseInt (seed r) 10)
         else None in
       res <- operate r rawPrompt inputSeed ;;
       match fst res with
       | newSrc :: _ => show_result r newSrc (snd res)
       | [] => ret tt
       end)
      (fun err =>
         update_page
           (setError
              (Some (Js.or_else (Js.str_or_empty (message err))
                       "Generation failed")))) ;;;
    update_panel (setIsLoading false).

(** One press on the generate button: the handler of the current render
    runs on the page. *)
Definition generate (d : Desk W) : (JsError + unit) * Desk W :=
  handleGenerate (panel d) d.

End Generate.

End Studio.

(** * Vocabulary of the statements *)

(** ** The undo stack as a sequence of events *)

Module Undo.

Import Service Vox.

(** One push, one undo and one redo, each delivered to the page as an
    event of its own. *)
Definition push (snapshot : option ImageData * string) (st : VoxState)
  : VoxState :=
  dispatch (pushToSessionHistory (fst snapshot) (snd snapshot)) st.

Definition push_all (snapshots : list (option ImageData * string))
    (st : VoxState) : VoxState :=
  fold_left (fun acc snapshot => push snapshot acc) snapshots st.

(** A push as the page makes it: the handler that pushes was created by
    the render [r], in which the user started the action, and its updates
    are applied to the pending state [st], after the remote call has
    returned. *)
Definition push_from (r : VoxState) (snapshot : option ImageData * string)
    (st : VoxState) : VoxState :=
  pushToSessionHistory (fst snapshot) (snd snapshot) r st.

Definition push_all_from
    (pushes : list (VoxState * (option ImageData * string)))
    (st : VoxState) : VoxState :=
  fold_left (fun acc p => push_from (fst p) (snd p) acc) pushes st.

(** The stack and the cursor that the render [r] shows are those of the
    state [st]. *)
Definition SameStack (r st : VoxState) : Prop :=
  sessionHistory r = sessionHistory st /\ historyIndex r = historyIndex st.

(** No push of the sequence overlaps another: each is applied to the
    stack and the cursor that its render showed. *)
Fixpoint InTurn (pushes : list (VoxState * (option ImageData * string)))
    (st : VoxState) : Prop :=
  match pushes with
  | [] => True
  | p :: rest =>
      SameStack (fst p) st /\ InTurn rest (push_from (fst p) (snd p) st)
  end.

(** Pushes that may overlap: the render of each push shows the stack and
    the cursor of the state at the start or of a state that an earlier
    push of the sequence left ([seen] holds the states left behind). *)
Fixpoint Overlapping (seen : list VoxState)
    (pushes : list (VoxState * (option ImageData * string)))
    (st : VoxState) : Prop :=
  match pushes with
  | [] => True
  | p :: rest =>
      (exists s, In s (st :: seen) /\ SameStack (fst p) s)
      /\ Overlapping (st :: seen) rest (push_from (fst p) (snd p) st)
  end.

Definition undo (st : VoxState) : VoxState := dispatch handleUndo st.

Definition redo (st : VoxState) : VoxState := dispatch handleRedo st.

Fixpoint undo_times (n : nat) (st : VoxState) : VoxState :=
  match n with
  | O => st
  | S m => undo_times m (undo st)
  end.

(** The empty state of the stack: the cursor is [-1]. *)
Definition Empty (st : VoxState) : Prop := historyIndex st = -1.

(** Undo run back to back reaches the empty state after [n] steps and not
    earlier. *)
Definition reaches_Empty_in (st : VoxState) (n : nat) : Prop :=
  Empty (undo_times n st) /\
  forall m, (m < n)%nat -> ~ Empty (undo_times m st).

(** The snapshot under the cursor. *)
Definition current (st : VoxState) : option SessionState.t :=
  at_index (sessionHistory st) (historyIndex st).

End Undo.

(** ** Sequences of appends and the ways a save ends *)

Module Activity.

Import Root.

Section Outcomes.

Context {W : Type}.
Variable LS : Storage W.

(** Appends run one after the other, each on the state the previous one
    left.  An append comes with the render that created the function the
    page calls: the render that shows the current state, or an earlier
    one when the page started its action before other appends landed. *)
Fixpoint append_all (appends : list (State W * HistoryItem))
  : Io (State W) (option unit) :=
  match appends with
  | [] => ret (Some tt)
  | (r, item) :: rest =>
      finished <- addToHistory LS item r ;;
      match finished with
      | Some _ => append_all rest
      | None => ret None
      end
  end.

(** How a save that started in [before] with the list [wanted] may have
    ended in [after]: some write succeeded and a non-empty prefix of
    [wanted] is the new history; or nothing was left to write and the
    history is empty; or a write failed for another reason than capacity,
    which was logged, and the history is as before. *)
Definition Saved (wanted : list HistoryItem) (before after : State W) : Prop :=
  history after <> []
  /\ (exists n, history after = firstn n wanted)
  /\ console after = console before.

Definition Cleared (before after : State W) : Prop :=
  history after = []
  /\ (console after = console before
      \/ exists e,
           console after =
             ("Failed to clear history from localStorage after pruning.", e)
             :: console before).

Definition Abandoned (before after : State W) : Prop :=
  history after = history before
  /\ exists e,
       is_quota_error e = false
       /\ console after =
            ("Failed to save history to localStorage", e) :: console before.

End Outcomes.

End Activity.

(** ** What a generation keeps of the response *)

(** The image kept from a response: the first payload only. *)
Definition kept_from {W : Type} (P : Service.Platform W)
    (g : Service.Generated) : Prop :=
  exists request w response w1,
    Service.generateContent P request w = (inr response, w1)
    /\ Service.images g = firstn 1 (fst (Service.read_response response)).

(** The job [operation] is what the remote service answered during the
    run whose trace is [events]: to the submission of the job or to a
    poll. *)
Definition reported_in {W : Type} (P : Service.Platform W)
    (events : list Service.Event) (operation : Service.Operation) : Prop :=
  (exists request w w1,
     Service.generateVideos P request w = (inr operation, w1)
     /\ In (Service.EvGenerateVideos request) events)
  \/ (exists previous w w1,
        Service.getVideosOperation P previous w = (inr operation, w1)
        /\ In Service.EvGetVideosOperation events).

(** ** Reading the trace of a video job *)

(** Reading a trace of the service.  Two small automata follow a trace
    event by event.  The first tells how the run stands with respect to
    the cancellation flag: nothing of interest yet ([Quiet]), the first
    read of the flag found it set and nothing happened since
    ([CancelHit]), the first read found it clear ([FirstClear]), or
    something happened that a cancelled run must not do ([Spoiled]): a
    poll or a download before any read of the flag, or any event at all
    after the read that found the flag set.  The second checks that each
    poll comes right after a read of the flag that found it clear and the
    wait that follows it. *)
Module Watch.

Import Service.

Inductive Phase : Type := Quiet | CancelHit | FirstClear | Spoiled.

Inductive Guard : Type := Idle | ReadClear | Waited | Unguarded.

Record Obs : Type := mkObs {
  phase : Phase;
  selected : bool;
  guard : Guard
}.

Definition is_poll (ev : Event) : bool :=
  match ev with
  | EvGetVideosOperation => true
  | _ => false
  end.

Definition is_fetch (ev : Event) : bool :=
  match ev with
  | EvFetch _ => true
  | _ => false
  end.

Definition is_select (ev : Event) : bool :=
  match ev with
  | EvOpenSelectKey => true
  | _ => false
  end.

Definition phase_step (p : Phase) (ev : Event) : Phase :=
  match p with
  | Quiet =>
      match ev with
      | EvReadCancelled true => CancelHit
      | EvReadCancelled false => FirstClear
      | EvGetVideosOperation | EvFetch _ => Spoiled
      | _ => Quiet
      end
  | CancelHit => Spoiled
  | FirstClear => FirstClear
  | Spoiled => Spoiled
  end.

Definition guard_step (g : Guard) (ev : Event) : Guard :=
  match g with
  | Unguarded => Unguarded
  | _ =>
      match ev with
      | EvGetVideosOperation =>
          match g with
          | Waited => Idle
          | _ => Unguarded
          end
      | EvReadCancelled false => ReadClear
      | EvSetTimeout _ =>
          match g with
          | ReadClear => Waited
          | _ => Idle
          end
      | _ => Idle
      end
  end.

Definition step (o : Obs) (ev : Event) : Obs :=
  {| phase := phase_step (phase o) ev;
     selected := (selected o || is_select ev)%bool;
     guard := guard_step (guard o) ev |}.

Definition start : Obs := {| phase := Quiet; selected := false; guard := Idle |}.

Definition scan_from (o : Obs) (t : list Event) : Obs := fold_left step t o.

Definition scan (t : list Event) : Obs := scan_from start t.
Arguments scan : simpl never.

(** A state from which a run of the service may start. *)
Definition Ready (o : Obs) : Prop :=
  (phase o = Quiet \/ phase o = FirstClear) /\ guard o <> Unguarded.

(** How the observation [o'] after a computation that returned [r] stands
    to the observation [o] before it, [rejection] being what a cancelled
    computation returns. *)
Definition Follows (rejection : JsError) {A} (o : Obs) (r : JsError + A)
    (o' : Obs) : Prop :=
  selected o' = selected o
  /\ guard o' <> Unguarded
  /\ phase o' <> Spoiled
  /\ (phase o = FirstClear -> phase o' = FirstClear)
  /\ (phase o' = CancelHit -> r = inl rejection).

(** The value found by the first read of the cancellation flag. *)
Fixpoint first_read (t : list Event) : option bool :=
  match t with
  | [] => None
  | EvReadCancelled current :: _ => Some current
  | _ :: rest => first_read rest
  end.

(** Every poll of the job comes right after a read of the flag that found
    it clear and the wait that follows the read. *)
Definition polls_guarded (t : list Event) : Prop :=
  forall before after,
    t = (before ++ EvGetVideosOperation :: after)%list ->
    exists earlier ms,
      before = (earlier ++ [EvReadCancelled false; EvSetTimeout ms])%list.

(** The rejection of a cancelled run, after the error parser. *)
Definition cancelled_rejection : JsError :=
  new_Error
    "An unexpected API error occurred: Video generation cancelled by user.".

End Watch.

(** ** Counting the calls of one chat message *)

Module Sending.

Import ApiClient.

(** One call of [sendMessageWithRetry] with the attempt number left at
    its default, the sends and the key selections counted. *)
Definition send_counted {W Session T} (has : W -> bool) (sel : Io W unit)
    (init : W -> option Session) (send : Session -> Io W T) (fuel : nat)
    (chat : option Session) (w : W)
  : (JsError + option (T * option Session)) * Counted W :=
  Chat.sendMessageWithRetry (fun c => has (world c)) (count_select sel)
    (fun c => init (world c)) (fun session => count_thunk (send session))
    fuel chat 1 (start w).

End Sending.

(** ** Reading decimal numerals *)

Module Numeral.

(** The value of a decimal numeral read digit by digit after a value
    [acc] already read. *)
Fixpoint uint_value (d : Decimal.uint) (acc : Z) : Z :=
  match d with
  | Decimal.Nil => acc
  | Decimal.D0 l => uint_value l (acc * 10 + 0)
  | Decimal.D1 l => uint_value l (acc * 10 + 1)
  | Decimal.D2 l => uint_value l (acc * 10 + 2)
  | Decimal.D3 l => uint_value l (acc * 10 + 3)
  | Decimal.D4 l => uint_value l (acc * 10 + 4)
  | Decimal.D5 l => uint_value l (acc * 10 + 5)
  | Decimal.D6 l => uint_value l (acc * 10 + 6)
  | Decimal.D7 l => uint_value l (acc * 10 + 7)
  | Decimal.D8 l => uint_value l (acc * 10 + 8)
  | Decimal.D9 l => uint_value l (acc * 10 + 9)
  end.

End Numeral.

(** ** The local storage as the quota uses it, and what the user does *)

Module Persist.

Import Service Vox.

(** A write that succeeds is read back, leaves the other keys alone and
    does not change the date. *)
Definition keeps {W} (getItem : string -> W -> option string)
    (setItem : string -> string -> Io W unit) (toDateString : W -> string)
  : Prop :=
  forall key value w w',
    setItem key value w = (inr tt, w') ->
    getItem key w' = Some value
    /\ (forall other, other <> key -> getItem other w' = getItem other w)
    /\ toDateString w' = toDateString w.

(** What the user does with the quota: a press on the animate button, or
    a token submitted. *)
Inductive Action : Type :=
| Animate (motionPrompt : string)
| Submit (token : string).

Section Run.

Context {W : Type}.
Variable setItem : string -> string -> Io W unit.
Variable getActiveAspectRatio : W -> AspectRatio.
Variable generateVideo : string -> ImageData -> AspectRatio -> Io W string.
Variable addToHistory : string -> string -> W -> W.

Definition act (pg : Page W) (a : Action) : Page W :=
  match a with
  | Animate motionPrompt =>
      snd (attempt setItem getActiveAspectRatio generateVideo addToHistory
             motionPrompt pg)
  | Submit token => snd (Quota.redeem setItem token pg)
  end.

Definition run (actions : list Action) (pg : Page W) : Page W :=
  fold_left act actions pg.

End Run.

End Persist.

(** ** Reading the errors and the responses of the service *)

Module Reading.

Import Service.

(** The text [parseGeminiError] reads off a thrown value: the message of
    an [Error], else the nested message, else the message property, else
    a fixed text. *)
Definition thrown_message (error : JsError) : string :=
  if is_Error error then Js.str_or_empty (message error)
  else
    match inner error with
    | Some (mkInnerError _ (Some m)) => m
    | _ =>
        match message error with
        | Some m => m
        | None => "An unknown and unexpected error occurred. Please try again."
        end
    end.

(** The image payloads of a list of parts as data URLs, and the truthy
    texts of the parts without a payload, both in the order of the
    parts. *)
Definition payloads (parts : list Part) : list string :=
  flat_map
    (fun part =>
       match inlineData part with
       | Some (mime, data) => ["data:" ++ mime ++ ";base64," ++ data]
       | None => []
       end) parts.

Definition texts (parts : list Part) : list string :=
  flat_map
    (fun part =>
       match inlineData part with
       | Some _ => []
       | None =>
           if Js.truthy (Js.str_or_empty (text part))
           then [Js.str_or_empty (text part)] else []
       end) parts.

Definition parts_of (response : Response) : list Part :=
  match first_candidate_parts response with
  | Some parts => parts
  | None => []
  end.

(** The rejection of a service function that finds no key. *)
Definition missing_key_rejection : JsError :=
  new_Error
    "An unexpected API error occurred: API_KEY environment variable is not set. Please select a key.".

(** A refusal text that none of the patterns of the error parser and of
    the retrying client matches once it is prefixed. *)
Definition plain_refusal (refusalText : string) : bool :=
  let message := "Model refusal: " ++ refusalText in
  let lowerMessage := Js.toLowerCase message in
  negb (Js.includes message "Requested entity was not found"
        || Js.includes message "NOT_FOUND"
        || Js.includes message "does not have permission"
        || Js.includes message "PERMISSION_DENIED"
        || Js.includes lowerMessage "xhr error"
        || Js.includes lowerMessage "network error"
        || Js.includes lowerMessage "failed to fetch").

(** A service function [f] with body [body] rejects with what the first
    run of its body threw, an [Error] with a message that is not empty. *)
Definition reports_first_failure {S T} (f body : Io S T) : Prop :=
  forall s e s',
    f s = (inl e, s') ->
    (exists s1, body s = (inl e, s1))
    /\ exists m, e = new_Error m /\ m <> EmptyString.

(** The texts of a refusal, one after the other. *)
Definition joined (ts : list string) : string :=
  fold_right String.append EmptyString ts.

(** The remote model answers every content request with [response]. *)
Definition answers {W} (P : Platform W) (response : Response) : Prop :=
  forall request w, fst (generateContent P request w) = inr response.

(** The loads of the images for resizing, one per image, in order. *)
Definition resize_events (images : list ImageData) : list Event :=
  map (fun image => EvResizeImage (base64 image)) images.

(** The request [combineImages] sends for the resized images. *)
Definition combine_request (resizedImages : list (string * string))
    (masterPrompt : string) : ContentRequest :=
  {| req_model := "gemini-3-pro-image-preview";
     req_parts :=
       (map (fun image : string * string =>
               {| inlineData := Some (snd image, pure_base64 (fst image));
                  text := None |}) resizedImages
        ++ [ {| inlineData := None; text := Some masterPrompt |} ])%list;
     req_systemInstruction := None;
     req_seed := None |}.

End Reading.

(** ** The timer of a guest session *)

Module Clock.

Import Session.

Section Ticks.

Context {W : Type}.
Variable B : Browser W.

(** The interval fires [n] times in a row. *)
Fixpoint ticks (n : nat) (a : App W) : App W :=
  match n with
  | O => a
  | S m => ticks m (snd (tick B a))
  end.

(** The session storage accepts every removal. *)
Definition removal_succeeds : Prop :=
  forall w, exists w', session_removeItem B w = (inr tt, w').

(** The seconds between the login of a stored guest and now. *)
Definition elapsed (u : User) (w : W) : Z :=
  (now B w - match loginTime u with
             | Some t => t
             | None => 0
             end) / 1000.

End Ticks.

End Clock.

(** ** What a press on the generate button leaves *)

Module Pressed.

Import Service Vox Studio.

(** The records handed to the history among some calls. *)
Fixpoint stored_records (cs : list Call) : list Root.HistoryItem :=
  match cs with
  | [] => []
  | CallAddToHistory item :: rest => item :: stored_records rest
  | _ :: rest => stored_records rest
  end.

(** The undo stack, the image shown and the prompt are as [before]. *)
Definition NothingShown (before after : VoxState) : Prop :=
  sessionHistory after = sessionHistory before
  /\ historyIndex after = historyIndex before
  /\ currentImage after = currentImage before
  /\ prompt after = prompt before.

(** The image [newSrc] was pushed on the undo stack of [before] with the
    prompt of [before], and the prompt was cleared. *)
Definition Shown (newSrc : string) (before after : VoxState) : Prop :=
  let snapshot :=
    (Some {| base64 := newSrc;
             mimeType := Imaging.mime_of_data_url newSrc |},
     prompt before) in
  sessionHistory after = sessionHistory (Undo.push snapshot before)
  /\ historyIndex after = historyIndex (Undo.push snapshot before)
  /\ prompt after = EmptyString.

(** The call [first] starts the operation [op] for the render [r], with
    the prompt [rawPrompt] built from the settings. *)
Definition starts (t : string -> list (string * string) -> string)
    (op : Operation) (r : Panel) (rawPrompt : string) (first : Call)
  : Prop :=
  match op, first with
  | Combine, CallCombine images masterPrompt =>
      images = inputImages (page r) /\ masterPrompt = rawPrompt
  | Inpaint, CallEnhance currentPrompt _ => currentPrompt = rawPrompt
  | Edit, CallEdit masterPrompt image mime _ =>
      masterPrompt = t "gemini_editImage_masterPrompt" [("prompt", rawPrompt)]
      /\ option_map base64 (currentImage (page r)) = Some image
      /\ option_map mimeType (currentImage (page r)) = Some mime
  | Generate, CallGenerate prompt settings _ _ _ =>
      prompt = rawPrompt
      /\ numberOfImages settings = 1
      /\ model settings = selectedModel r
  | _, _ => False
  end.

End Pressed.

(** ** The shape of the undo stack *)

Module Stack.

Import Service Vox.

(** The cursor is [-1] or points at a stored snapshot, and at most 50
    snapshots are stored. *)
Definition Valid (st : VoxState) : Prop :=
  -1 <= historyIndex st < Z.of_nat (length (sessionHistory st))
  /\ (length (sessionHistory st) <= 50)%nat.

(** The cursor is on the newest snapshot. *)
Definition AtTail (st : VoxState) : Prop :=
  historyIndex st = Z.of_nat (length (sessionHistory st)) - 1.

(** What happens to the stack: an action of the page, started in the
    render [r], pushes a snapshot; the user presses undo; the user presses
    redo.  The two presses run at once, in the render that shows the
    current state. *)
Inductive Action : Type :=
| Push (r : VoxState) (snapshot : option ImageData * string)
| PressUndo
| PressRedo.

Definition act (st : VoxState) (a : Action) : VoxState :=
  match a with
  | Push r snapshot => Undo.push_from r snapshot st
  | PressUndo => Undo.undo st
  | PressRedo => Undo.redo st
  end.

Definition run (actions : list Action) (st : VoxState) : VoxState :=
  fold_left act actions st.

(** No push of the run overlaps another action: each push is applied to
    the stack and the cursor that its render showed. *)
Fixpoint InTurn (actions : list Action) (st : VoxState) : Prop :=
  match actions with
  | [] => True
  | a :: rest =>
      match a with
      | Push r _ => Undo.SameStack r st
      | _ => True
      end
      /\ InTurn rest (act st a)
  end.

End Stack.

(** * Systems to run the model on *)

(** A first attempt that is denied, a key selection that succeeds, and a
    second attempt that succeeds; and the same with a refused selection. *)
Definition denied : JsError :=
  {| is_Error := false; is_DOMException := false; name := "ApiError";
     message := Some "The caller does not have permission";
     to_string := "ApiError"; status := Some 403; code := None;
     inner := None |}.

Definition flaky_thunk : Io nat Z :=
  fun attempts =>
    match attempts with
    | O => (inl denied, 1%nat)
    | S _ => (inr 42, S attempts)
    end.

Definition selection_ok : Io nat unit := fun w => (inr tt, w).

Definition selection_refused : Io nat unit :=
  fun w => (inl (new_Error "cancelled"), w).

(** A thunk that fails at every attempt: it is denied first and times out
    afterwards. *)
Definition timed_out : JsError := new_Error "The request timed out".

Definition failing_thunk : Io nat Z :=
  fun attempts =>
    match attempts with
    | O => (inl denied, 1%nat)
    | S _ => (inl timed_out, S attempts)
    end.

(** A page with two snapshots on the stack and the cursor on the second. *)
Definition two_snapshots : Vox.VoxState :=
  Undo.push_all
    [ (Some {| Service.base64 := "data:image/png;base64,AAAA";
               Service.mimeType := "image/png" |}, "a cat");
      (Some {| Service.base64 := "data:image/png;base64,BBBB";
               Service.mimeType := "image/png" |}, "a dog") ]
    Vox.initial.

(** Two pushes, three undos, a redo, a push and a redo, none overlapping
    another: each push is started in the render that shows what the
    actions before it left. *)
Definition stack_actions : list Stack.Action :=
  let first := Undo.push (None, "a") Vox.initial in
  let second := Undo.push (None, "b") first in
  let back := Undo.redo (Undo.undo (Undo.undo (Undo.undo second))) in
  [ Stack.Push Vox.initial (None, "a"); Stack.Push first (None, "b");
    Stack.PressUndo; Stack.PressUndo; Stack.PressUndo; Stack.PressRedo;
    Stack.Push back (None, "c"); Stack.PressRedo ].

(** A page with two staged images and an instruction that asks for no
    merge. *)
Definition png (data : string) : Service.ImageData :=
  {| Service.base64 := "data:image/png;base64," ++ data;
     Service.mimeType := "image/png" |}.

Definition two_staged : Vox.VoxState :=
  Vox.setPrompt "a cat on a sofa"
    (Vox.setInputImages [png "AAAA"; png "BBBB"] Vox.initial).

(** A local storage that keeps every write, a remote video call that
    always fails, and a page with a current image and a given quota. *)
Definition keep_setItem (key value : string)
  : Io (list (string * string)) unit :=
  fun w => (inr tt, (key, value) :: w).

Fixpoint stored (key : string) (w : list (string * string)) : option string :=
  match w with
  | [] => None
  | (k, v) :: rest => if String.eqb k key then Some v else stored key rest
  end.

Definition video_fails (motionPrompt : string) (image : Service.ImageData)
    (aspect : Service.AspectRatio) : Io (list (string * string)) string :=
  fun w => (inl (new_Error "Failed to fetch"), w).

Definition quota_attempt :=
  Vox.attempt keep_setItem (fun _ => Service.R16_9) video_fails
    (fun _ _ w => w) "pan left".

Definition page_with_quota (q : Z) : Vox.Page (list (string * string)) :=
  Vox.mkPage
    (Vox.setVideoQuota q (Vox.setCurrentImage (Some (png "AAAA")) Vox.initial))
    [] [].

(** Records and storages to run the history on: a storage that rejects
    every write for capacity, one that holds two records at most, and one
    that rejects every call because access is denied. *)
Definition record_ (id : string) : Root.HistoryItem :=
  {| Root.id := id;
     Root.prompt := "a prompt";
     Root.settings :=
       {| Service.numberOfImages := 1;
          Service.aspectRatio := Service.R1_1;
          Service.model := Service.Vx0 |};
     Root.images := [];
     Root.timestamp := 0;
     Root.generationMode := Root.TextToImage;
     Root.inputImage := None;
     Root.voxSettings := None;
     Root.videoSrc := None;
     Root.seed := None |}.

Definition dom_exception (name : string) : JsError :=
  {| is_Error := true; is_DOMException := true; name := name;
     message := Some "The operation failed."; to_string := name;
     status := None; code := None; inner := None |}.

Definition full_storage : Root.Storage unit :=
  {| Root.setItem := fun _ w => (inl (dom_exception "QuotaExceededError"), w);
     Root.removeItem := fun w => (inr tt, w) |}.

Definition small_storage : Root.Storage (list Root.HistoryItem) :=
  {| Root.setItem := fun h w =>
       if (length h <=? 2)%nat then (inr tt, h)
       else (inl (dom_exception "QuotaExceededError"), w);
     Root.removeItem := fun _ => (inr tt, []) |}.

Definition denied_storage : Root.Storage unit :=
  {| Root.setItem := fun _ w => (inl (dom_exception "SecurityError"), w);
     Root.removeItem := fun w => (inl (dom_exception "SecurityError"), w) |}.

Definition fresh {W} (w : W) : Root.State W := Root.mkState [] w [].

(** The records a, b and c appended in turn on the storage that holds two
    records: each append comes from the render that shows what the
    previous one left. *)
Definition in_turn_appends
  : list (Root.State (list Root.HistoryItem) * Root.HistoryItem) :=
  [ (fresh [], record_ "a");
    (Root.mkState [record_ "a"] [record_ "a"] [], record_ "b");
    (Root.mkState [record_ "b"; record_ "a"] [record_ "b"; record_ "a"] [],
     record_ "c") ].

(** A platform to run the service on.  Its world counts the video jobs
    submitted so far.  A key is set, the key selector is present and
    accepts, the model answers every content request with two images, the
    first video job is refused as not found and the later ones are
    accepted, and a poll finds the job done. *)
Definition not_found : JsError :=
  {| is_Error := false; is_DOMException := false; name := "ApiError";
     message := Some "404 NOT_FOUND: the model is not available";
     to_string := "ApiError"; status := Some 404; code := None;
     inner := None |}.

Definition two_images : Service.Response :=
  {| Service.first_candidate_parts :=
       Some [ {| Service.inlineData := Some ("image/png", "AAAA");
                 Service.text := None |};
              {| Service.inlineData := Some ("image/png", "BBBB");
                 Service.text := None |} ] |}.

Definition lab : Service.Platform nat :=
  {| Service.API_KEY := fun _ => "KEY";
     Service.aistudio := fun _ => true;
     Service.openSelectKey := fun w => (inr tt, w);
     Service.resizeImage := fun src w => (inr (src, "image/png"), w);
     Service.random_seed := fun w => (4, w);
     Service.generateContent := fun _ w => (inr two_images, w);
     Service.generateVideos := fun _ w =>
       match w with
       | O => (inl not_found, 1%nat)
       | S _ => (inr {| Service.done := false; Service.video_uri := None |},
                 S w)
       end;
     Service.getVideosOperation := fun _ w =>
       (inr {| Service.done := true;
               Service.video_uri := Some "https://video.example/1?alt=media" |},
        w);
     Service.setTimeout := fun _ w => w;
     Service.fetch := fun _ w =>
       (inr {| Service.ok := true; Service.statusText := "OK" |}, w);
     Service.createObjectURL := fun _ w => (inr "blob:1", w) |}.

(** The same platform without a key. *)
Definition lab_without_key : Service.Platform nat :=
  {| Service.API_KEY := fun _ => EmptyString;
     Service.aistudio := Service.aistudio lab;
     Service.openSelectKey := Service.openSelectKey lab;
     Service.resizeImage := Service.resizeImage lab;
     Service.random_seed := Service.random_seed lab;
     Service.generateContent := Service.generateContent lab;
     Service.generateVideos := Service.generateVideos lab;
     Service.getVideosOperation := Service.getVideosOperation lab;
     Service.setTimeout := Service.setTimeout lab;
     Service.fetch := Service.fetch lab;
     Service.createObjectURL := Service.createObjectURL lab |}.

Definition four_images : Service.ImageSettings :=
  {| Service.numberOfImages := 4;
     Service.aspectRatio := Service.R16_9;
     Service.model := Service.Vx0 |}.

(** A chat session whose first send finds no entity and whose later sends
    succeed. *)
Definition flaky_send (session : unit) : Io nat Z :=
  fun sends =>
    match sends with
    | O => (inl not_found, 1%nat)
    | S _ => (inr 42, S sends)
    end.

(** A page whose storage already holds the date of today. *)
Definition today : string := "Tue Nov 03 2026".

Definition dated_page (q : Z) : Vox.Page (list (string * string)) :=
  Vox.mkPage
    (Vox.setVideoQuota q (Vox.setCurrentImage (Some (png "AAAA")) Vox.initial))
    [("vox_quota_date", today)] [].

(** The platform [lab] with another answer of the model to every content
    request; an answer without parts, and a refusal in two texts. *)
Definition answering (response : Service.Response) : Service.Platform nat :=
  {| Service.API_KEY := Service.API_KEY lab;
     Service.aistudio := Service.aistudio lab;
     Service.openSelectKey := Service.openSelectKey lab;
     Service.resizeImage := Service.resizeImage lab;
     Service.random_seed := Service.random_seed lab;
     Service.generateContent := fun _ w => (inr response, w);
     Service.generateVideos := Service.generateVideos lab;
     Service.getVideosOperation := Service.getVideosOperation lab;
     Service.setTimeout := Service.setTimeout lab;
     Service.fetch := Service.fetch lab;
     Service.createObjectURL := Service.createObjectURL lab |}.

Definition no_parts : Service.Response :=
  {| Service.first_candidate_parts := None |}.

Definition refusal : Service.Response :=
  {| Service.first_candidate_parts :=
       Some [ {| Service.inlineData := None;
                 Service.text := Some "I cannot draw " |};
              {| Service.inlineData := None;
                 Service.text := Some "that." |} ] |}.

(** A browser whose world is the clock, in milliseconds, and what the
    session storage holds; every stored session is that of a guest who
    logged in at time 0.  And a root component at mount, with and without
    a running timer. *)
Definition kiosk : Session.Browser (Z * option string) :=
  {| Session.session_getItem := fun w => snd w;
     Session.session_setItem := fun v w => (inr tt, (fst w, Some v));
     Session.session_removeItem := fun w => (inr tt, (fst w, None));
     Session.local_getItem := fun _ => Some "stored history";
     Session.parse_user := fun _ =>
       inr (Some {| Session.type := "guest"; Session.loginTime := Some 0 |});
     Session.parse_history := fun _ => inr [record_ "a"];
     Session.stringify_user := fun _ => "guest session";
     Session.now := fun w => fst w |}.

Definition at_mount (clock : Z) : Session.App (Z * option string) :=
  Session.mkApp Session.Landing None 1800 false
    (fresh (clock, Some "guest session")).

Definition counting (seconds : Z) : Session.App (Z * option string) :=
  Session.mkApp Session.InApp
    (Some {| Session.type := "guest"; Session.loginTime := Some 0 |})
    seconds true (fresh (0, Some "guest session")).

Definition three_records : Root.State (list Root.HistoryItem) :=
  Root.mkState [record_ "a"; record_ "b"; record_ "c"] [] [].

(** A page with a prompt typed and no image, and a service that refuses
    every request. *)
Definition typed_desk : Studio.Desk unit :=
  Studio.mkDesk
    (Studio.mkPanel (Vox.setPrompt "a cat on a sofa" Vox.initial) false
       Service.Vx0 EmptyString [] 3 None EmptyString)
    tt [].

Definition blocked {A} : Io unit A :=
  fun w =>
    (inl (new_Error
            "Your request was blocked due to safety policies. Please adjust your prompt and try again."),
     w).

Definition press_refused :=
  Studio.generate (fun key _ => key)
    (fun _ _ => blocked) (fun _ _ => blocked) (fun _ _ _ _ => blocked)
    (fun _ _ _ _ => blocked) (fun _ _ _ _ _ => blocked)
    (fun _ => None) (new_Error "Cannot read properties of null")
    (fun _ => Service.R16_9) (fun _ w => w) (fun _ => "2026-11-03T00:00:00.000Z")
    (fun _ => 0).

(** * Properties *)

(** ** The retrying API client *)

Ltac settle_calls :=
  cbn; repeat split; intros;
  try lia; try discriminate; try congruence;
  try (do 2 eexists; repeat split; eauto; fail).

Section ApiClientFacts.

Context {W T : Type}.
Variable has : W -> bool.
Variable sel : Io W unit.
Variable fn : Io W T.

Import ApiClient.

(** The whole behaviour of one outer call, by cases on what the first
    attempt, the key selection and the second attempt do. *)
Lemma execute_counted_cases (w : W) :
  match fn w with
  | (inr v, w1) => execute_counted has sel fn w = (inr v, mkCounted w1 1 0)
  | (inl e, w1) =>
      if (reauth_eligible e && has w1)%bool then
        match sel w1 with
        | (inl _, w2) =>
            execute_counted has sel fn w = (inl e, mkCounted w2 1 1)
        | (inr _, w2) =>
            match fn w2 with
            | (inr v, w3) =>
                execute_counted has sel fn w = (inr v, mkCounted w3 2 1)
            | (inl _, w3) =>
                execute_counted has sel fn w = (inl e, mkCounted w3 2 1)
            end
        end
      else execute_counted has sel fn w = (inl e, mkCounted w1 1 0)
  end.
Proof.
  unfold execute_counted, executeWithApiKeyHandling, try_catch, bind, gets,
    throw, count_thunk, count_select, start, reauth_eligible; cbn.
  destruct (fn w) as [[e | v] w1] eqn:First; cbn; [ | reflexivity ].
  destruct (isPermissionDenied e || isNotFound e)%bool; cbn;
    [ | reflexivity ].
  destruct (has w1); cbn; [ | reflexivity ].
  destruct (sel w1) as [[e2 | []] w2]; cbn; [ reflexivity | ].
  destruct (fn w2) as [[e3 | v] w3]; reflexivity.
Qed.

(** C1 (as amended).  One outer call of [executeWithApiKeyHandling]
    invokes the thunk at most twice and [openSelectKey] at most once,
    whatever the thunk and the key selection do.  A second invocation
    happens only after a first failure classified as permission-denied or
    not-found (and with the key selector present).  When the key selection
    is refused, or the second attempt fails, nothing more is invoked and
    the call fails with the error of the first attempt: the error of the
    selection or of the second attempt is dropped. *)
Theorem execute_bounded_retry (w : W) :
  let out := execute_counted has sel fn w in
  let calls := thunk_calls (snd out) in
  let selections := select_calls (snd out) in
  (1 <= calls <= 2)%nat /\ (selections <= 1)%nat /\
  (calls = 2%nat ->
     selections = 1%nat /\
     exists e w1, fn w = (inl e, w1) /\ reauth_eligible e = true
                  /\ has w1 = true) /\
  (selections = 1%nat ->
     exists e w1, fn w = (inl e, w1) /\ reauth_eligible e = true
                  /\ has w1 = true) /\
  (forall e w1 e2 w2,
     fn w = (inl e, w1) -> reauth_eligible e = true -> has w1 = true ->
     sel w1 = (inl e2, w2) ->
     out = (inl e, mkCounted w2 1 1)) /\
  (forall e w1 w2 e3 w3,
     fn w = (inl e, w1) -> reauth_eligible e = true -> has w1 = true ->
     sel w1 = (inr tt, w2) -> fn w2 = (inl e3, w3) ->
     out = (inl e, mkCounted w3 2 1)) /\
  (forall e w1,
     fn w = (inl e, w1) -> reauth_eligible e = false ->
     out = (inl e, mkCounted w1 1 0)).
Proof.
  cbv zeta.
  pose proof (execute_counted_cases w) as Cases.
  destruct (fn w) as [[e | v] w1] eqn:First.
  - destruct (reauth_eligible e) eqn:El, (has w1) eqn:Has; cbn in Cases.
    + destruct (sel w1) as [[e2 | []] w2] eqn:Sel.
      * rewrite Cases. settle_calls.
      * destruct (fn w2) as [[e3 | v] w3] eqn:Second; rewrite Cases;
          settle_calls.
    + rewrite Cases. settle_calls.
    + rewrite Cases. settle_calls.
    + rewrite Cases. settle_calls.
  - rewrite Cases. settle_calls.
Qed.

End ApiClientFacts.

Lemma execute_bounded_retry_witness :
  ApiClient.execute_counted (fun _ => true) selection_refused flaky_thunk 0%nat
  = (inl denied, ApiClient.mkCounted 1%nat 1%nat 1%nat).
Proof.
  apply (proj1 (proj2 (proj2 (proj2 (proj2
           (execute_bounded_retry (fun _ => true) selection_refused
              flaky_thunk 0%nat)))))
         denied 1%nat (new_Error "cancelled") 1%nat);
    reflexivity.
Defined.

(** C1, as the claim words it, fails: the failure of the retried attempt
    is not what the caller receives.  A first attempt is denied, a key is
    selected and the second attempt times out: the call rejects with the
    error of the first attempt, not with the time-out.  And when the key
    selection is refused, the call rejects with the error of the first
    attempt as well, not with the refusal. *)
Lemma retried_failure_surfaced_counterexample :
  ApiClient.execute_counted (fun _ => true) selection_ok failing_thunk 0%nat
  = (inl denied, ApiClient.mkCounted 2%nat 2%nat 1%nat)
  /\ failing_thunk 1%nat = (inl timed_out, 2%nat)
  /\ timed_out <> denied
  /\ ApiClient.execute_counted (fun _ => true) selection_refused flaky_thunk
       0%nat
     = (inl denied, ApiClient.mkCounted 1%nat 1%nat 1%nat)
  /\ selection_refused 1%nat = (inl (new_Error "cancelled"), 1%nat)
  /\ new_Error "cancelled" <> denied.
Proof. repeat split; discriminate. Qed.

(** The scenario of a denied first attempt followed by a successful key
    selection and a successful second attempt. *)
Example execute_retry_scenario :
  ApiClient.execute_counted (fun _ => true) selection_ok flaky_thunk 0%nat
  = (inr 42, ApiClient.mkCounted 2%nat 2%nat 1%nat).
Proof. reflexivity. Qed.

(** ** The session undo stack *)

Section UndoFacts.

Import Service Vox Undo.

Lemma updateCurrentImage_stack src mime r st :
  sessionHistory (updateCurrentImage src mime r st) = sessionHistory st
  /\ historyIndex (updateCurrentImage src mime r st) = historyIndex st.
Proof.
  unfold updateCurrentImage.
  destruct src as [s | ]; [ destruct (Js.truthy s), (isBg1Active r) | ];
    destruct (Js.truthy (Js.str_or_empty (currentVideoUrl r)));
    split; reflexivity.
Qed.

Lemma restore_stack entry r st :
  sessionHistory (restore entry r st) = sessionHistory st
  /\ historyIndex (restore entry r st) = historyIndex st.
Proof.
  unfold restore.
  destruct entry as [state | ]; [ | split; reflexivity ].
  destruct (SessionState.image state) as [img | ]; cbn;
    apply updateCurrentImage_stack.
Qed.

Lemma undo_sessionHistory st : sessionHistory (undo st) = sessionHistory st.
Proof.
  unfold undo, dispatch, handleUndo.
  destruct (0 <? historyIndex st).
  - rewrite (proj1 (restore_stack _ _ _)). reflexivity.
  - destruct (historyIndex st =? 0); [ | reflexivity ].
    cbn. rewrite (proj1 (updateCurrentImage_stack _ _ _ _)). reflexivity.
Qed.

Lemma redo_sessionHistory st : sessionHistory (redo st) = sessionHistory st.
Proof.
  unfold redo, dispatch, handleRedo.
  destruct (historyIndex st <? Z.of_nat (length (sessionHistory st)) - 1).
  - rewrite (proj1 (restore_stack _ _ _)). reflexivity.
  - reflexivity.
Qed.

Lemma undo_historyIndex st :
  historyIndex (undo st) =
  if 0 <? historyIndex st then historyIndex st - 1
  else if historyIndex st =? 0 then -1 else historyIndex st.
Proof.
  unfold undo, dispatch, handleUndo.
  destruct (0 <? historyIndex st).
  - rewrite (proj2 (restore_stack _ _ _)). reflexivity.
  - destruct (historyIndex st =? 0); [ | reflexivity ].
    cbn. rewrite (proj2 (updateCurrentImage_stack _ _ _ _)). reflexivity.
Qed.

Lemma undo_times_historyIndex n : forall st,
  -1 <= historyIndex st ->
  historyIndex (undo_times n st)
  = Z.max (historyIndex st - Z.of_nat n) (-1).
Proof.
  induction n as [ | n IH]; intros st Low.
  - cbn [undo_times]. lia.
  - cbn [undo_times]. rewrite IH; rewrite undo_historyIndex.
    + destruct (Z.ltb_spec 0 (historyIndex st)); [ lia | ].
      destruct (Z.eqb_spec (historyIndex st) 0); lia.
    + destruct (Z.ltb_spec 0 (historyIndex st)); [ lia | ].
      destruct (Z.eqb_spec (historyIndex st) 0); lia.
Qed.

Lemma slice0_all {A} (arr : list A) :
  slice0 arr (Z.of_nat (length arr) - 1 + 1) = arr.
Proof.
  unfold slice0.
  destruct (Z.ltb_spec (Z.of_nat (length arr) - 1 + 1) 0); [ lia | ].
  replace (Z.min (Z.of_nat (length arr) - 1 + 1) (Z.of_nat (length arr)))
    with (Z.of_nat (length arr)) by lia.
  rewrite Nat2Z.id. apply firstn_all.
Qed.

(** At the tail of the stack a push appends, and drops the oldest entry
    once the stack is full; the cursor stays at the tail. *)
Lemma push_at_tail snapshot st :
  historyIndex st = Z.of_nat (length (sessionHistory st)) - 1 ->
  (length (sessionHistory st) <= 50)%nat ->
  let st' := push snapshot st in
  length (sessionHistory st')
  = Nat.min (S (length (sessionHistory st))) 50
  /\ historyIndex st' = Z.of_nat (length (sessionHistory st')) - 1.
Proof.
  intros Tail Bound. cbv zeta.
  unfold push, dispatch, pushToSessionHistory.
  rewrite Tail, slice0_all.
  rewrite length_app. cbn [length].
  unfold MAX_SESSION_HISTORY.
  destruct (Z.ltb_spec 50 (Z.of_nat (length (sessionHistory st) + 1))).
  - cbn [sessionHistory setSessionHistory historyIndex].
    assert (length (sessionHistory st) = 50%nat) as Full by lia.
    destruct (sessionHistory st) as [ | x rest] eqn:E; [ discriminate | ].
    cbn [app tl]. rewrite length_app. cbn [length] in *. lia.
  - cbn [sessionHistory setSessionHistory historyIndex setHistoryIndex].
    rewrite length_app. cbn [length]. lia.
Qed.

Lemma push_all_at_tail snapshots : forall st,
  historyIndex st = Z.of_nat (length (sessionHistory st)) - 1 ->
  (length (sessionHistory st) <= 50)%nat ->
  let st' := push_all snapshots st in
  length (sessionHistory st')
  = Nat.min (length snapshots + length (sessionHistory st)) 50
  /\ historyIndex st' = Z.of_nat (length (sessionHistory st')) - 1.
Proof.
  induction snapshots as [ | snapshot rest IH]; intros st Tail Bound.
  - cbn. split; [ lia | exact Tail ].
  - cbn [push_all fold_left length].
    destruct (push_at_tail snapshot st Tail Bound) as [Len Tail'].
    destruct (IH (push snapshot st) Tail' ltac:(lia)) as [Len2 Tail2].
    cbv zeta. unfold push_all in *. split; [ lia | exact Tail2 ].
Qed.

(** A push applied to the stack and the cursor that its render showed
    does to them what a push does that runs in the current render. *)
Lemma push_from_in_turn r snapshot st :
  SameStack r st ->
  sessionHistory (push_from r snapshot st) = sessionHistory (push snapshot st)
  /\ historyIndex (push_from r snapshot st) = historyIndex (push snapshot st).
Proof.
  intros [Stack Cursor].
  unfold push_from, push, dispatch, pushToSessionHistory.
  rewrite Stack, Cursor.
  match goal with
  | |- context [if ?c then _ else _] => destruct c
  end; split; reflexivity.
Qed.

Lemma slice0_length {A} (arr : list A) (e : Z) :
  (length (slice0 arr e) <= length arr)%nat.
Proof. unfold slice0. rewrite length_firstn. lia. Qed.

(** Whatever render a push was started in, it leaves at most 50 snapshots
    when that render showed at most 50. *)
Lemma push_from_bounded r snapshot st :
  (length (sessionHistory r) <= 50)%nat ->
  (length (sessionHistory (push_from r snapshot st)) <= 50)%nat.
Proof.
  intros Bound. unfold push_from, pushToSessionHistory.
  pose proof (slice0_length (sessionHistory r) (historyIndex r + 1)) as Slice.
  rewrite length_app. cbn [length]. unfold MAX_SESSION_HISTORY.
  destruct (Z.ltb_spec 50
              (Z.of_nat
                 (length (slice0 (sessionHistory r) (historyIndex r + 1))
                  + 1))).
  - cbn [sessionHistory setSessionHistory].
    destruct (slice0 (sessionHistory r) (historyIndex r + 1)) as [ | x rest];
      cbn [app tl length] in *; [ lia | ].
    rewrite length_app. cbn [length]. lia.
  - cbn [sessionHistory setSessionHistory setHistoryIndex].
    rewrite length_app. cbn [length]. lia.
Qed.

Lemma overlapping_bounded pushes : forall seen st,
  (forall s, In s (st :: seen) -> (length (sessionHistory s) <= 50)%nat) ->
  Overlapping seen pushes st ->
  (length (sessionHistory (push_all_from pushes st)) <= 50)%nat.
Proof.
  induction pushes as [ | p rest IH]; intros seen st Bound Renders.
  - apply Bound. left. reflexivity.
  - destruct Renders as [[s [Seen [Stack _]]] Rest].
    cbn [push_all_from fold_left].
    apply (IH (st :: seen)); [ | exact Rest ].
    intros s' [<- | Old]; [ | apply Bound; exact Old ].
    apply push_from_bounded. rewrite Stack. apply Bound. exact Seen.
Qed.

Lemma in_turn_at_tail pushes : forall st,
  historyIndex st = Z.of_nat (length (sessionHistory st)) - 1 ->
  (length (sessionHistory st) <= 50)%nat ->
  InTurn pushes st ->
  let st' := push_all_from pushes st in
  length (sessionHistory st')
  = Nat.min (length pushes + length (sessionHistory st)) 50
  /\ historyIndex st' = Z.of_nat (length (sessionHistory st')) - 1.
Proof.
  induction pushes as [ | p rest IH]; intros st Tail Bound Turns.
  - cbn. split; [ lia | exact Tail ].
  - destruct Turns as [Same Rest].
    cbn [push_all_from fold_left length].
    destruct (push_at_tail (snd p) st Tail Bound) as [Len Tail'].
    destruct (push_from_in_turn (fst p) (snd p) st Same) as [Stack Cursor].
    rewrite <- Stack in Len, Tail'. rewrite <- Cursor in Tail'.
    destruct (IH (push_from (fst p) (snd p) st) Tail' ltac:(lia) Rest)
      as [Len2 Tail2].
    cbv zeta. unfold push_all_from in *. split; [ lia | exact Tail2 ].
Qed.

(** C3 (as amended).  Pushes onto an empty stack never leave more than 50
    snapshots, also when they overlap (each push was started in a render
    that showed the stack at the start or the stack that an earlier push
    left).  When no push overlaps another, each being applied to the
    stack and the cursor that its render showed, undo run back to back
    after [k] pushes reaches the empty state (cursor [-1]) after exactly
    [min k 50] steps. *)
Theorem pushes_bounded_and_undone
    (pushes : list (VoxState * (option ImageData * string)))
    (st : VoxState) :
  sessionHistory st = [] -> historyIndex st = -1 ->
  let st' := push_all_from pushes st in
  (Overlapping [] pushes st -> (length (sessionHistory st') <= 50)%nat)
  /\ (InTurn pushes st ->
      (length (sessionHistory st') <= 50)%nat
      /\ reaches_Empty_in st' (Nat.min (length pushes) 50)).
Proof.
  intros Nil Cursor. cbv zeta. split.
  - apply overlapping_bounded.
    intros s [<- | []]. rewrite Nil. cbn. lia.
  - intros Turns.
    destruct (in_turn_at_tail pushes st) as [Len Tail];
      [ rewrite Nil, Cursor; reflexivity | rewrite Nil; cbn; lia
      | exact Turns | ].
    rewrite Nil in Len. cbn [length] in Len. rewrite Nat.add_0_r in Len.
    split; [ lia | ].
    unfold reaches_Empty_in, Empty. split.
    + rewrite undo_times_historyIndex by lia. lia.
    + intros m Lt. rewrite undo_times_historyIndex by lia. lia.
Qed.

End UndoFacts.

Lemma pushes_bounded_and_undone_witness :
  Undo.reaches_Empty_in
    (Undo.push_all_from
       [ (Vox.initial, (None, "a"));
         (Undo.push (None, "a") Vox.initial, (None, "b"));
         (Undo.push_all [(None, "a"); (None, "b")] Vox.initial, (None, "c")) ]
       Vox.initial) 3.
Proof.
  apply (proj2 (pushes_bounded_and_undone
                  [ (Vox.initial, (None, "a"));
                    (Undo.push (None, "a") Vox.initial, (None, "b"));
                    (Undo.push_all [(None, "a"); (None, "b")] Vox.initial,
                     (None, "c")) ]
                  Vox.initial eq_refl eq_refl)).
  cbn. repeat split.
Defined.

(** Pushes that overlap: three actions started in the render of the empty
    stack push one after the other.  Each drops what the others pushed,
    and each moves the cursor up: one snapshot is left, the cursor is
    beyond it, and the undo that follows finds no snapshot to restore. *)
Example overlapping_pushes_scenario :
  let st' :=
    Undo.push_all_from
      [ (Vox.initial, (None, "a")); (Vox.initial, (None, "b"));
        (Vox.initial, (None, "c")) ]
      Vox.initial in
  length (Vox.sessionHistory st') = 1%nat
  /\ Vox.historyIndex st' = 2
  /\ Undo.current st' = None
  /\ Vox.at_index (Vox.sessionHistory st') (Vox.historyIndex st' - 1) = None.
Proof. repeat split. Qed.

(** With 51 such pushes the cursor is at 50 over a single snapshot, and
    50 undos do not reach the empty state. *)
Example overlapping_pushes_undo_scenario :
  ~ Undo.reaches_Empty_in
      (Undo.push_all_from (repeat (Vox.initial, (None, "a")) 51) Vox.initial)
      (Nat.min 51 50).
Proof. intros [Reached _]. vm_compute in Reached. discriminate. Qed.

(** C3, as the claim words it, fails already for a single push: the first
    undo reaches the empty state, so it is not first reached at the second
    one. *)
Lemma pushes_undone_in_k_plus_one_counterexample :
  ~ Undo.reaches_Empty_in
      (Undo.push_all [(None, "a")] Vox.initial) (Nat.min 1 50 + 1).
Proof.
  intros [_ Earlier]. apply (Earlier 1%nat); [ cbn; lia | reflexivity ].
Qed.

Section RoundTripFacts.

Import Service Vox Undo.

Lemma at_index_in_range {A} (arr : list A) i x :
  at_index arr i = Some x -> 0 <= i < Z.of_nat (length arr).
Proof.
  unfold at_index. destruct (Z.ltb_spec i 0); [ discriminate | ].
  intros Nth. assert (nth_error arr (Z.to_nat i) <> None) as Def by congruence.
  apply nth_error_Some in Def. lia.
Qed.

(** What restoring a stored snapshot shows: its prompt, and its image
    payload when that is a non-empty string. *)
Lemma restore_shows snap r st :
  prompt (restore (Some snap) r st) = SessionState.prompt snap
  /\ (SessionState.image snap = None ->
      currentImage (restore (Some snap) r st) = None)
  /\ (forall img, SessionState.image snap = Some img ->
      Js.truthy (base64 img) = true ->
      exists cur, currentImage (restore (Some snap) r st) = Some cur
                  /\ base64 cur = base64 img).
Proof.
  unfold restore. split; [ reflexivity | ]. split.
  - intros ->. unfold updateCurrentImage.
    destruct (Js.truthy (Js.str_or_empty (currentVideoUrl r))); reflexivity.
  - intros img -> Truthy. unfold updateCurrentImage. rewrite Truthy.
    eexists. split.
    + destruct (Js.truthy (Js.str_or_empty (currentVideoUrl r))),
        (isBg1Active r); reflexivity.
    + reflexivity.
Qed.

(** C6.  In a state whose cursor [i >= 1] points at a stored snapshot,
    undo followed by redo (with no push in between) brings the cursor back
    to [i] over an unchanged stack, so the same snapshot is current again,
    and the page shows that snapshot's prompt and image payload.  Neither
    undo nor redo changes the stored snapshots, in any state. *)
Theorem undo_redo_round_trip (st : VoxState) (i : Z) (snap : SessionState.t) :
  historyIndex st = i -> 1 <= i ->
  at_index (sessionHistory st) i = Some snap ->
  let st' := redo (undo st) in
  historyIndex st' = i
  /\ sessionHistory st' = sessionHistory st
  /\ current st' = Some snap
  /\ prompt st' = SessionState.prompt snap
  /\ (SessionState.image snap = None -> currentImage st' = None)
  /\ (forall img, SessionState.image snap = Some img ->
      Js.truthy (base64 img) = true ->
      exists cur, currentImage st' = Some cur /\ base64 cur = base64 img)
  /\ (forall any, sessionHistory (undo any) = sessionHistory any
                  /\ sessionHistory (redo any) = sessionHistory any).
Proof.
  intros Cursor Pos Cur. cbv zeta.
  pose proof (at_index_in_range _ _ _ Cur) as Range.
  assert (historyIndex (undo st) = i - 1) as Back.
  { rewrite undo_historyIndex, Cursor.
    destruct (Z.ltb_spec 0 i); [ reflexivity | lia ]. }
  pose proof (undo_sessionHistory st) as Same.
  assert (redo (undo st)
          = restore (Some snap) (undo st) (setHistoryIndex i (undo st)))
    as Redo.
  { unfold redo at 1, dispatch, handleRedo. rewrite Back, Same.
    destruct (Z.ltb_spec (i - 1) (Z.of_nat (length (sessionHistory st)) - 1));
      [ | lia ].
    replace (i - 1 + 1) with i by lia. rewrite Cur. reflexivity. }
  assert (historyIndex (redo (undo st)) = i) as Forth.
  { rewrite Redo, (proj2 (restore_stack _ _ _)). reflexivity. }
  assert (sessionHistory (redo (undo st)) = sessionHistory st) as Stack.
  { rewrite redo_sessionHistory. exact Same. }
  split; [ exact Forth | ]. split; [ exact Stack | ].
  split; [ unfold current; rewrite Forth, Stack; exact Cur | ].
  rewrite Redo.
  destruct (restore_shows snap (undo st) (setHistoryIndex i (undo st)))
    as (Prompt & NoImage & Image).
  split; [ exact Prompt | ]. split; [ exact NoImage | ].
  split; [ exact Image | ].
  intros any. split; [ apply undo_sessionHistory | apply redo_sessionHistory ].
Qed.

End RoundTripFacts.

Lemma undo_redo_round_trip_witness :
  Vox.historyIndex (Undo.redo (Undo.undo two_snapshots)) = 1
  /\ Vox.prompt (Undo.redo (Undo.undo two_snapshots)) = "a dog".
Proof.
  pose proof (undo_redo_round_trip two_snapshots 1
    (Vox.SessionState.mk
       (Some {| Service.base64 := "data:image/png;base64,BBBB";
                Service.mimeType := "image/png" |}) "a dog")
    eq_refl ltac:(lia) eq_refl) as Facts.
  cbv zeta in Facts.
  exact (conj (proj1 Facts) (proj1 (proj2 (proj2 (proj2 Facts))))).
Defined.

(** ** The request router of the VOX page *)

Section RouterFacts.

Import Service Vox.

Lemma ltb_1_length {A} (l : list A) :
  (1 <? length l)%nat = true <-> (2 <= length l)%nat.
Proof. rewrite Nat.ltb_lt. lia. Qed.

Lemma handleSendMessage_combines_iff currentImages currentInput :
  handleSendMessage_combines currentImages currentInput = true
  <-> (2 <= length currentImages)%nat /\ mentions_merge currentInput = true.
Proof.
  unfold handleSendMessage_combines.
  rewrite andb_true_iff, ltb_1_length. tauto.
Qed.

(** C4 (as amended).  [handleGenerate] runs the combine operation exactly
    when the prompt is not blank and at least two input images are staged,
    whatever the words of the instruction.  That test comes first: with two
    staged images neither the inpainting mode nor the current image
    matters.  With fewer, the inpaint, edit and generate rules apply in
    this order.  (The test for the words "combine" and "merge" is that of
    the chat page only.) *)
Theorem combine_selected_by_count (maskCanvas : bool) (r : VoxState) :
  (handleGenerate_operation maskCanvas r = Some Combine
   <-> Js.trim_is_empty (prompt r) = false
       /\ (2 <= length (inputImages r))%nat)
  /\ (Js.trim_is_empty (prompt r) = false ->
      (length (inputImages r) < 2)%nat ->
      handleGenerate_operation maskCanvas r =
        if (isInpaintingMode r && Js.present (currentImage r)
            && maskCanvas)%bool then Some Inpaint
        else if Js.present (currentImage r) then Some Edit
        else Some Generate)
  /\ (Js.trim_is_empty (prompt r) = true ->
      handleGenerate_operation maskCanvas r = None)
  /\ (forall currentImages currentInput,
      handleSendMessage_combines currentImages currentInput = true
      <-> (2 <= length currentImages)%nat
          /\ mentions_merge currentInput = true).
Proof.
  split; [ | split; [ | split ] ].
  - unfold handleGenerate_operation.
    destruct (Js.trim_is_empty (prompt r)).
    + split; [ discriminate | intros [Blank _]; discriminate ].
    + destruct (1 <? length (inputImages r))%nat eqn:Many.
      * apply ltb_1_length in Many. tauto.
      * assert (~ (2 <= length (inputImages r))%nat) as Few.
        { rewrite <- ltb_1_length. congruence. }
        split; [ | tauto ].
        destruct (isInpaintingMode r && Js.present (currentImage r)
                  && maskCanvas)%bool; [ discriminate | ].
        destruct (Js.present (currentImage r)); discriminate.
  - intros NotBlank Few. unfold handleGenerate_operation.
    rewrite NotBlank.
    destruct (1 <? length (inputImages r))%nat eqn:Many; [ | reflexivity ].
    apply ltb_1_length in Many. lia.
  - intros Blank. unfold handleGenerate_operation. rewrite Blank.
    reflexivity.
  - apply handleSendMessage_combines_iff.
Qed.

End RouterFacts.

Lemma combine_selected_by_count_witness :
  Vox.handleGenerate_operation false two_staged = Some Vox.Combine.
Proof.
  apply (proj2 (proj1 (combine_selected_by_count false two_staged))).
  split; [ reflexivity | cbn; lia ].
Defined.

(** A prompt of white space beyond ASCII is blank as well: with the
    ideographic space U+3000 and the no-break space U+00A0 for a prompt
    and two staged images, the handler returns at once. *)
Example blank_prompt_scenario :
  let blank :=
    String (ascii_of_nat 227) (String (ascii_of_nat 128)
      (String (ascii_of_nat 128) (String (ascii_of_nat 194)
         (String (ascii_of_nat 160) EmptyString)))) in
  Vox.handleGenerate_operation true (Vox.setPrompt blank two_staged) = None.
Proof. reflexivity. Qed.

(** C4, as the claim words it, fails: two staged images select the combine
    operation although the instruction implies no merge. *)
Lemma combine_needs_merge_intent_counterexample :
  Vox.handleGenerate_operation true two_staged = Some Vox.Combine
  /\ (2 <= length (Vox.inputImages two_staged))%nat
  /\ Vox.mentions_merge (Vox.prompt two_staged) = false.
Proof. repeat split; cbn; lia. Qed.

(** ** The video quota *)

Section QuotaFacts.

Import Service Vox.

Context {W : Type}.
Variable setItem : string -> string -> Io W unit.
Variable getActiveAspectRatio : W -> AspectRatio.
Variable generateVideo : string -> ImageData -> AspectRatio -> Io W string.
Variable addToHistory : string -> string -> W -> W.

Local Abbreviation attempt :=
  (Vox.attempt setItem getActiveAspectRatio generateVideo addToHistory).
Local Abbreviation clip_aspect := (Vox.clip_aspect getActiveAspectRatio).

(** The whole behaviour of an attempt, by cases on the quota, the storage
    write and the remote call. *)
Lemma attempt_cases motionPrompt (pg : Page W) :
  match currentImage (view pg) with
  | None => attempt motionPrompt pg = (NoImage, pg)
  | Some img =>
      let q := videoQuota (view pg) in
      if q <=? 0 then
        attempt motionPrompt pg =
          (QuotaExceeded,
           mkPage
             (setError (Some "Daily video quota exceeded. Please add tokens.")
                (view pg))
             (world pg) (events pg))
      else
        let written := EvSetItem "vox_video_quota" (Js.toString (q - 1)) in
        exists out,
          attempt motionPrompt pg = (Charged, out)
          /\ videoQuota (view out) = q - 1
          /\ currentImage (view out) = Some img
          /\ match setItem "vox_video_quota" (Js.toString (q - 1)) (world pg)
             with
             | (inl e, w1) =>
                 world out = w1 /\ events out = (events pg ++ [written])%list
             | (inr _, w1) =>
                 match generateVideo motionPrompt img (clip_aspect (world pg)) w1
                 with
                 | (inl e, w2) =>
                     world out = w2
                     /\ events out =
                        (events pg
                         ++ [written; EvGenerateVideo motionPrompt])%list
                 | (inr url, w2) =>
                     world out = addToHistory motionPrompt url w2
                     /\ events out =
                        (events pg
                         ++ [written; EvGenerateVideo motionPrompt;
                             EvAddToHistory motionPrompt url])%list
                 end
             end
  end.
Proof.
  unfold Vox.attempt, handleGenerateVideo.
  destruct (currentImage (view pg)) as [img | ] eqn:Img; [ | reflexivity ].
  cbv zeta.
  destruct (videoQuota (view pg) <=? 0); [ reflexivity | ].
  eexists. split; [ reflexivity | ].
  unfold updateQuota, update_view, outside, try_catch, bind, modify, gets.
  cbn.
  destruct (setItem "vox_video_quota" _ (world pg)) as [[e | []] w1]; cbn.
  - repeat split. exact Img.
  - fold (Vox.clip_aspect getActiveAspectRatio (world pg)).
    destruct (generateVideo motionPrompt img (clip_aspect (world pg)) w1)
      as [[e | url] w2]; cbn.
    + repeat split; [ exact Img | ].
      rewrite <- app_assoc. reflexivity.
    + repeat split; [ exact Img | ].
      rewrite <- !app_assoc. reflexivity.
Qed.

(** C5.  With a current image on the page: an attempt at a quota of zero
    or less is refused: the page shows the error "Daily video quota
    exceeded. Please add tokens." and is otherwise as before, and neither
    the quota nor the world changes (nothing is written, nothing is
    called); an attempt at a positive quota takes
    exactly one unit, and the write of the new value to local storage is
    the first call it makes, before the remote video call; the unit is not
    given back when the remote call fails.  From a quota of 2, three
    attempts in a row are charged, charged and refused, and leave 0. *)
Theorem quota_consumed_before_call motionPrompt (pg : Page W)
    (img : ImageData) :
  currentImage (view pg) = Some img ->
  let q := videoQuota (view pg) in
  let out := attempt motionPrompt pg in
  (q <= 0 ->
     fst out = QuotaExceeded
     /\ error (view (snd out))
        = Some "Daily video quota exceeded. Please add tokens."
     /\ view (snd out)
        = setError (Some "Daily video quota exceeded. Please add tokens.")
            (view pg)
     /\ videoQuota (view (snd out)) = q
     /\ world (snd out) = world pg
     /\ events (snd out) = events pg)
  /\ (0 < q ->
     fst out = Charged
     /\ videoQuota (view (snd out)) = q - 1
     /\ exists later,
          events (snd out) =
            (events pg
             ++ EvSetItem "vox_video_quota" (Js.toString (q - 1)) :: later)%list
          /\ (later = []
              \/ exists more, later = EvGenerateVideo motionPrompt :: more)
          /\ (forall e w1 w2,
                setItem "vox_video_quota" (Js.toString (q - 1)) (world pg)
                  = (inr tt, w1) ->
                generateVideo motionPrompt img (clip_aspect (world pg)) w1
                  = (inl e, w2) ->
                later = [EvGenerateVideo motionPrompt]))
  /\ (q = 2 ->
      let first := attempt motionPrompt pg in
      let second := attempt motionPrompt (snd first) in
      let third := attempt motionPrompt (snd second) in
      [fst first; fst second; fst third] = [Charged; Charged; QuotaExceeded]
      /\ videoQuota (view (snd third)) = 0).
Proof.
  intros Img. cbv zeta.
  pose proof (attempt_cases motionPrompt pg) as Cases.
  rewrite Img in Cases. cbv zeta in Cases.
  split; [ | split ].
  - intros Low. destruct (Z.leb_spec (videoQuota (view pg)) 0); [ | lia ].
    rewrite Cases. cbn. auto 6.
  - intros High. destruct (Z.leb_spec (videoQuota (view pg)) 0); [ lia | ].
    destruct Cases as (out & Run & Quota & _ & Calls). rewrite Run. cbn.
    split; [ reflexivity | ]. split; [ exact Quota | ].
    destruct (setItem "vox_video_quota" _ (world pg)) as [[e | []] w1].
    + exists []. destruct Calls as [_ Ev]. split; [ exact Ev | ].
      split; [ left; reflexivity | ]. intros; discriminate.
    + destruct (generateVideo motionPrompt img (clip_aspect (world pg)) w1)
        as [[e | url] w2] eqn:Remote; destruct Calls as [_ Ev].
      * exists [EvGenerateVideo motionPrompt]. split; [ exact Ev | ].
        split; [ right; exists []; reflexivity | reflexivity ].
      * exists [EvGenerateVideo motionPrompt; EvAddToHistory motionPrompt url].
        split; [ exact Ev | ].
        split; [ right; eexists; reflexivity | ].
        intros e w1' w2' Ok Fail. injection Ok as <-.
        rewrite Remote in Fail. discriminate.
  - intros Two. rewrite Two in Cases. cbn in Cases.
    destruct Cases as (one & Run1 & Quota1 & Img1 & _). rewrite Run1. cbn.
    pose proof (attempt_cases motionPrompt one) as Cases2.
    rewrite Img1, Quota1 in Cases2. cbn in Cases2.
    destruct Cases2 as (two & Run2 & Quota2 & Img2 & _). rewrite Run2. cbn.
    pose proof (attempt_cases motionPrompt two) as Cases3.
    rewrite Img2, Quota2 in Cases3. cbn in Cases3.
    rewrite Cases3. cbn. split; [ reflexivity | exact Quota2 ].
Qed.

End QuotaFacts.

Lemma quota_consumed_before_call_witness :
  [fst (quota_attempt (page_with_quota 2));
   fst (quota_attempt (snd (quota_attempt (page_with_quota 2))));
   fst (quota_attempt
          (snd (quota_attempt (snd (quota_attempt (page_with_quota 2))))))]
  = [Vox.Charged; Vox.Charged; Vox.QuotaExceeded]
  /\ Vox.videoQuota
       (Vox.view
          (snd (quota_attempt
                  (snd (quota_attempt
                          (snd (quota_attempt (page_with_quota 2))))))))
     = 0.
Proof.
  exact (proj2 (proj2
    (quota_consumed_before_call keep_setItem (fun _ => Service.R16_9)
       video_fails (fun _ _ w => w) "pan left" (page_with_quota 2)
       (png "AAAA") eq_refl)) eq_refl).
Defined.

(** In that run the stored value follows the quota down to "0" although
    every remote call failed. *)
Example quota_scenario_storage :
  stored "vox_video_quota"
    (Vox.world
       (snd (quota_attempt
               (snd (quota_attempt
                       (snd (quota_attempt (page_with_quota 2))))))))
  = Some "0".
Proof. reflexivity. Qed.

(** ** The persistent activity history *)

Section ActivityFacts.

Import Root Activity.

Context {W : Type}.
Variable LS : Storage W.

Lemma pop_firstn (h : list HistoryItem) : pop h = firstn (pred (length h)) h.
Proof. apply removelast_firstn_len. Qed.

Lemma pop_length (h : list HistoryItem) : length (pop h) = pred (length h).
Proof.
  rewrite pop_firstn, length_firstn. lia.
Qed.

(** The loop of [saveHistory] returns, without throwing, when it has a
    turn for each item, and ends in one of the three ways. *)
Lemma save_loop_outcome fuel : forall (h : list HistoryItem) (st : State W),
  (length h <= fuel)%nat ->
  exists after,
    save_loop LS fuel h st = (inr (Some tt), after)
    /\ (Saved h st after \/ Cleared st after \/ Abandoned st after).
Proof.
  induction fuel as [ | fuel IH]; intros h st Enough.
  - destruct h as [ | x t]; [ | cbn in Enough; lia ].
    cbn. unfold try_catch, bind, storage, setHistory, console_error, modify,
      ret.
    destruct (removeItem LS (world st)) as [[e | []] w1]; cbn;
      eexists; (split; [ reflexivity | ]); right; left; split; cbn; eauto.
  - destruct h as [ | x t].
    + cbn. unfold try_catch, bind, storage, setHistory, console_error, modify,
        ret.
      destruct (removeItem LS (world st)) as [[e | []] w1]; cbn;
        eexists; (split; [ reflexivity | ]); right; left; split; cbn; eauto.
    + cbn [save_loop].
      unfold try_catch, bind, storage, setHistory, console_error, modify, ret.
      remember (x :: t) as h eqn:Hh.
      destruct (setItem LS h (world st)) as [[e | []] w1]; cbn.
      * destruct (is_quota_error e) eqn:Quota; cbn.
        -- destruct (IH (pop h) (mkState (history st) w1 (console st)))
             as (after & Run & [S | [C | A]]).
           { rewrite pop_length. subst h. cbn in *. lia. }
           ++ exists after. split; [ exact Run | ]. left.
              destruct S as (NonEmpty & [n Pre] & Log).
              split; [ exact NonEmpty | ]. split; [ | exact Log ].
              exists (Nat.min n (pred (length h))).
              rewrite Pre, pop_firstn, firstn_firstn. reflexivity.
           ++ exists after. split; [ exact Run | ]. right; left. exact C.
           ++ exists after. split; [ exact Run | ]. right; right. exact A.
        -- eexists. split; [ reflexivity | ]. right; right.
           split; [ reflexivity | ]. exists e. split; [ exact Quota | ].
           reflexivity.
      * eexists. split; [ reflexivity | ]. left. cbn.
        split; [ subst h; discriminate | ].
        split; [ exists (length h); symmetry; apply firstn_all | reflexivity ].
Qed.

(** When no prefix of the list fits, the history ends up empty. *)
Lemma save_loop_nothing_fits fuel : forall (h : list HistoryItem) (st : State W),
  (length h <= fuel)%nat ->
  (forall n w, (0 < n <= length h)%nat ->
     exists e w', setItem LS (firstn n h) w = (inl e, w')
                  /\ is_quota_error e = true) ->
  exists after,
    save_loop LS fuel h st = (inr (Some tt), after) /\ history after = [].
Proof.
  induction fuel as [ | fuel IH]; intros h st Enough Full.
  - destruct (save_loop_outcome 0 h st Enough) as (after & Run & _).
    destruct h as [ | x t]; [ | cbn in Enough; lia ].
    exists after. split; [ exact Run | ].
    cbn in Run. unfold try_catch, bind, storage, setHistory, console_error,
      modify, ret in Run.
    destruct (removeItem LS (world st)) as [[e | []] w1]; cbn in Run;
      injection Run as <-; reflexivity.
  - destruct h as [ | x t].
    + cbn. unfold try_catch, bind, storage, setHistory, console_error, modify,
        ret.
      destruct (removeItem LS (world st)) as [[e | []] w1]; cbn;
        eexists; split; reflexivity.
    + remember (x :: t) as h eqn:Hh.
      assert (0 < length h)%nat as Pos by (subst h; cbn; lia).
      destruct (Full (length h) (world st) ltac:(lia)) as (e & w1 & Write & Q).
      rewrite firstn_all in Write.
      destruct (IH (pop h) (mkState (history st) w1 (console st)))
        as (after & Run & Nil).
      { rewrite pop_length. cbn in *. lia. }
      { intros n w Range. rewrite pop_length in Range.
        rewrite pop_firstn, firstn_firstn.
        replace (Nat.min n (pred (length h))) with n by lia.
        apply Full. lia. }
      exists after. split; [ | exact Nil ].
      rewrite Hh. cbn [save_loop]. rewrite <- Hh.
      unfold try_catch, bind, storage. rewrite Write. cbn. rewrite Q. cbn.
      exact Run.
Qed.

(** When the longest prefix that fits has [m > 0] items, it is what is
    stored: the oldest items are dropped one by one until the write
    succeeds. *)
Lemma save_loop_fits fuel : forall (h : list HistoryItem) (st : State W) m,
  (length h <= fuel)%nat -> (0 < m <= length h)%nat ->
  (forall n w, (m < n <= length h)%nat ->
     exists e w', setItem LS (firstn n h) w = (inl e, w')
                  /\ is_quota_error e = true) ->
  (forall w, exists w', setItem LS (firstn m h) w = (inr tt, w')) ->
  exists after,
    save_loop LS fuel h st = (inr (Some tt), after)
    /\ history after = firstn m h /\ console after = console st.
Proof.
  induction fuel as [ | fuel IH]; intros h st m Enough Range Over Fits.
  - lia.
  - destruct h as [ | x t]; [ cbn in Range; lia | ].
    remember (x :: t) as h eqn:Hh.
    destruct (Nat.eq_dec m (length h)) as [-> | Shorter].
    + destruct (Fits (world st)) as (w1 & Write).
      rewrite firstn_all in Write.
      rewrite Hh. cbn [save_loop]. rewrite <- Hh.
      unfold try_catch, bind, storage. rewrite Write. cbn.
      eexists. split; [ reflexivity | ]. cbn.
      rewrite firstn_all. split; reflexivity.
    + destruct (Over (length h) (world st) ltac:(lia)) as (e & w1 & Write & Q).
      rewrite firstn_all in Write.
      destruct (IH (pop h) (mkState (history st) w1 (console st)) m)
        as (after & Run & Hist & Log).
      { rewrite pop_length. cbn in *. lia. }
      { rewrite pop_length. lia. }
      { intros n w R. rewrite pop_length in R.
        rewrite pop_firstn, firstn_firstn.
        replace (Nat.min n (pred (length h))) with n by lia.
        apply Over. lia. }
      { intros w. rewrite pop_firstn, firstn_firstn.
        replace (Nat.min m (pred (length h))) with m by lia.
        apply Fits. }
      exists after. split; [ | split; [ | exact Log ] ].
      * rewrite Hh. cbn [save_loop]. rewrite <- Hh.
        unfold try_catch, bind, storage. rewrite Write. cbn. rewrite Q. cbn.
        exact Run.
      * rewrite Hist, pop_firstn, firstn_firstn.
        replace (Nat.min m (pred (length h))) with m by lia. reflexivity.
Qed.

Lemma saved_prefix_head (item : HistoryItem) rest (l : list HistoryItem) n :
  l <> [] -> l = firstn n (firstn MAX_HISTORY_ITEMS (item :: rest)) ->
  hd_error l = Some item /\ (length l <= 10)%nat.
Proof.
  intros NonEmpty ->. split.
  - destruct n as [ | n]; [ cbn in NonEmpty; congruence | reflexivity ].
  - rewrite !length_firstn. unfold MAX_HISTORY_ITEMS. lia.
Qed.

(** One append, in full: [r] is the render that created the function
    and [st] the state the append runs on. *)
Lemma addToHistory_outcome (item : HistoryItem) (r st : State W) :
  exists after,
    addToHistory LS item r st = (inr (Some tt), after)
    /\ ((hd_error (history after) = Some item
         /\ (length (history after) <= 10)%nat
         /\ (exists n, history after =
                       firstn n (firstn MAX_HISTORY_ITEMS (item :: history r)))
         /\ console after = console st)
        \/ Cleared st after
        \/ Abandoned st after).
Proof.
  unfold addToHistory, saveHistory.
  destruct (save_loop_outcome (length (firstn MAX_HISTORY_ITEMS
                                          (item :: history r)))
              (firstn MAX_HISTORY_ITEMS (item :: history r)) st (le_n _))
    as (after & Run & [S | [C | A]]).
  - exists after. split; [ exact Run | ]. left.
    destruct S as (NonEmpty & [n Pre] & Log).
    destruct (saved_prefix_head item (history r) _ n NonEmpty Pre).
    repeat split; eauto.
  - exists after. split; [ exact Run | ]. right; left. exact C.
  - exists after. split; [ exact Run | ]. right; right. exact A.
Qed.

(** After an append the history is the one before it or holds at most 10
    records. *)
Lemma addToHistory_bounded (item : HistoryItem) (r st : State W) :
  exists after,
    addToHistory LS item r st = (inr (Some tt), after)
    /\ (history after = history st \/ (length (history after) <= 10)%nat).
Proof.
  destruct (addToHistory_outcome item r st)
    as (after & Run & [S | [C | A]]); exists after; (split; [ exact Run | ]).
  - right. tauto.
  - right. destruct C as [-> _]. cbn. lia.
  - left. destruct A as [Same _]. exact Same.
Qed.

Lemma append_all_bounded appends : forall st : State W,
  exists final,
    append_all LS appends st = (inr (Some tt), final)
    /\ (history final = history st \/ (length (history final) <= 10)%nat).
Proof.
  induction appends as [ | [r item] rest IH]; intros st.
  - exists st. split; [ reflexivity | left; reflexivity ].
  - destruct (addToHistory_bounded item r st) as (after & Run & Step).
    destruct (IH after) as (final & Rest & Later).
    exists final. split.
    + cbn [append_all]. unfold bind. rewrite Run. exact Rest.
    + destruct Later as [Same | Bound]; [ | right; exact Bound ].
      rewrite Same. exact Step.
Qed.

End ActivityFacts.

Section ActivityClaims.

Import Root Activity.

Context {W : Type}.
Variable LS : Storage W.

(** C2 (as amended).  No sequence of appends throws, whatever the storage
    does and whichever render each append was started in, and after each
    append the history holds at most 10 records unless every write so far
    was rejected for another reason than capacity, in which case it is
    still the history from before the sequence.  After one append the
    history is: a prefix of the new record followed by the records of the
    render that created the function, with the new record first and at
    most 10 records, when some write succeeded (the longest prefix that
    the storage accepts, the oldest records being dropped one at a time);
    empty, when every write was rejected for capacity (the new record is
    dropped too); or unchanged, when a write was rejected for another
    reason. *)
Theorem append_never_throws_history_capped
    (appends : list (State W * HistoryItem)) (item : HistoryItem)
    (r st : State W) :
  (exists final,
     append_all LS appends st = (inr (Some tt), final)
     /\ (history final = history st
         \/ (length (history final) <= 10)%nat))
  /\ exists after,
       addToHistory LS item r st = (inr (Some tt), after)
       /\ ((hd_error (history after) = Some item
            /\ (length (history after) <= 10)%nat
            /\ exists n, history after =
                         firstn n (firstn MAX_HISTORY_ITEMS
                                     (item :: history r)))
           \/ Cleared st after
           \/ Abandoned st after)
       /\ ((forall h w, exists e w',
              setItem LS h w = (inl e, w') /\ is_quota_error e = true) ->
           history after = [])
       /\ (forall m,
             let wanted := firstn MAX_HISTORY_ITEMS (item :: history r) in
             (0 < m <= length wanted)%nat ->
             (forall n w, (m < n <= length wanted)%nat ->
                exists e w', setItem LS (firstn n wanted) w = (inl e, w')
                             /\ is_quota_error e = true) ->
             (forall w, exists w',
                setItem LS (firstn m wanted) w = (inr tt, w')) ->
             history after = firstn m wanted
             /\ hd_error (history after) = Some item).
Proof.
  split; [ apply append_all_bounded | ].
  destruct (addToHistory_outcome LS item r st) as (after & Run & Ways).
  exists after. split; [ exact Run | ].
  split; [ | split ].
  - destruct Ways as [(Head & Bound & Pre & _) | [C | A]]; tauto.
  - intros Full.
    destruct (save_loop_nothing_fits LS
                (length (firstn MAX_HISTORY_ITEMS (item :: history r)))
                (firstn MAX_HISTORY_ITEMS (item :: history r)) st (le_n _))
      as (after' & Run' & Nil).
    { intros n w _. apply Full. }
    unfold addToHistory, saveHistory in Run. rewrite Run in Run'.
    injection Run' as <-. exact Nil.
  - intros m wanted Range Over Fits.
    destruct (save_loop_fits LS (length wanted) wanted st m (le_n _)
                Range Over Fits) as (after' & Run' & Hist & _).
    unfold addToHistory, saveHistory in Run. fold wanted in Run.
    rewrite Run in Run'. injection Run' as <-.
    split; [ exact Hist | ]. rewrite Hist.
    destruct m as [ | m]; [ lia | reflexivity ].
Qed.

Lemma cons_not_self {A} (x : A) (l : list A) : x :: l <> l.
Proof.
  intros E. apply (f_equal (@length A)) in E. cbn in E. lia.
Qed.

(** C7 (as amended).  When a write of the history is rejected for a
    reason other than capacity (at the first turn of the save loop or at a
    later one), the error is logged with [console.error] and the save
    returns with the history state exactly as it was: a save that logged
    such a failure left the history untouched.  A failure of the removal
    of the stored key, which the save performs when nothing is left to
    write, is logged as well, but the history is then set to empty. *)
Theorem other_write_error_keeps_history
    (newHistory : list HistoryItem) (st after : State W)
    (r : JsError + option unit) :
  saveHistory LS newHistory st = (r, after) ->
  (forall e,
     console after =
       ("Failed to save history to localStorage", e) :: console st ->
     history after = history st /\ is_quota_error e = false)
  /\ (forall e w1,
        newHistory <> [] ->
        setItem LS newHistory (world st) = (inl e, w1) ->
        is_quota_error e = false ->
        r = inr (Some tt)
        /\ after = mkState (history st) w1
                     (("Failed to save history to localStorage", e)
                      :: console st))
  /\ (forall fuel h s e w1,
        h <> [] ->
        setItem LS h (world s) = (inl e, w1) ->
        is_quota_error e = false ->
        save_loop LS (S fuel) h s =
          (inr (Some tt),
           mkState (history s) w1
             (("Failed to save history to localStorage", e) :: console s)))
  /\ (forall fuel s e w1,
        removeItem LS (world s) = (inl e, w1) ->
        save_loop LS fuel [] s =
          (inr (Some tt),
           mkState [] w1
             (("Failed to clear history from localStorage after pruning.", e)
              :: console s))).
Proof.
  intros Run.
  assert (forall fuel h s e w1,
            h <> [] -> setItem LS h (world s) = (inl e, w1) ->
            is_quota_error e = false ->
            save_loop LS (S fuel) h s =
              (inr (Some tt),
               mkState (history s) w1
                 (("Failed to save history to localStorage", e)
                  :: console s))) as Turn.
  { intros fuel h s e w1 NonEmpty Write Other.
    destruct h as [ | x t]; [ congruence | ].
    cbn [save_loop]. unfold try_catch, bind, storage.
    rewrite Write. cbn. rewrite Other. reflexivity. }
  split; [ | split; [ | split; [ exact Turn | ] ] ].
  - intros e Logged.
    destruct (save_loop_outcome LS (length newHistory) newHistory st (le_n _))
      as (after' & Run' & [S | [C | A]]);
      unfold saveHistory in Run; rewrite Run in Run'; injection Run' as _ <-.
    + destruct S as (_ & _ & Log). rewrite Log in Logged.
      symmetry in Logged. apply cons_not_self in Logged. contradiction.
    + destruct C as (_ & [Log | [e' Log]]); rewrite Log in Logged.
      * symmetry in Logged. apply cons_not_self in Logged. contradiction.
      * discriminate.
    + destruct A as (Hist & e' & Other & Log). rewrite Log in Logged.
      injection Logged as <-. split; assumption.
  - intros e w1 NonEmpty Write Other.
    unfold saveHistory in Run.
    destruct newHistory as [ | x t]; [ congruence | ].
    cbn [length] in Run. rewrite (Turn _ _ _ e w1) in Run by assumption.
    injection Run as <- <-. split; reflexivity.
  - intros fuel s e w1 Removal.
    destruct fuel; cbn [save_loop];
      unfold try_catch, bind, storage, setHistory, console_error, modify, ret;
      rewrite Removal; reflexivity.
Qed.

End ActivityClaims.

Lemma append_never_throws_history_capped_witness :
  exists final,
    Activity.append_all small_storage in_turn_appends (fresh [])
    = (inr (Some tt), final)
    /\ (Root.history final = []
        \/ (length (Root.history final) <= 10)%nat).
Proof.
  apply (proj1 (append_never_throws_history_capped small_storage
                  in_turn_appends (record_ "a") (fresh []) (fresh []))).
Defined.

(** With room for two records, appending a, b and c, each from the render
    that shows what the previous append left, leaves c and b. *)
Example append_scenario_capacity_two :
  Activity.append_all small_storage in_turn_appends (fresh [])
  = (inr (Some tt),
     Root.mkState [record_ "c"; record_ "b"] [record_ "c"; record_ "b"] []).
Proof. reflexivity. Qed.

(** An append started before another one landed: the page starts a video
    while the history is empty, a record a is appended meanwhile, and the
    video is appended when it arrives, by the function of the render that
    showed the empty history.  The record a is gone. *)
Example append_scenario_stale_render :
  Activity.append_all small_storage
    [ (fresh [], record_ "a"); (fresh [], record_ "video") ] (fresh [])
  = (inr (Some tt),
     Root.mkState [record_ "video"] [record_ "video"] []).
Proof. reflexivity. Qed.

(** C2, as the claim words it, fails: when the storage rejects every write
    for capacity, the append returns with an empty history, in which the
    new record is not first. *)
Lemma append_new_record_first_counterexample :
  Root.addToHistory full_storage (record_ "a") (fresh tt) (fresh tt)
  = (inr (Some tt), Root.mkState [] tt [])
  /\ hd_error (Root.history (Root.mkState [] tt [])) <> Some (record_ "a").
Proof. split; [ reflexivity | discriminate ]. Qed.

(** C7, as the claim words it, fails for the removal of the stored key:
    deleting the only record on a storage that denies access saves the
    empty list, which logs the failed removal and still empties the
    history. *)
Lemma removal_error_empties_history_counterexample :
  Root.deleteHistoryItems denied_storage ["a"]
    (Root.mkState [record_ "a"] tt [])
  = (inr (Some tt),
     Root.mkState [] tt
       [("Failed to clear history from localStorage after pruning.",
         dom_exception "SecurityError")])
  /\ Root.is_quota_error (dom_exception "SecurityError") = false
  /\ Root.history
       (Root.mkState (W := unit) [] tt
          [("Failed to clear history from localStorage after pruning.",
            dom_exception "SecurityError")])
     <> Root.history (Root.mkState [record_ "a"] tt []).
Proof. repeat split. discriminate. Qed.

Lemma other_write_error_keeps_history_witness :
  Root.history
    (Root.mkState [record_ "a"] tt
       [("Failed to save history to localStorage",
         dom_exception "SecurityError")])
  = [record_ "a"]
  /\ Root.is_quota_error (dom_exception "SecurityError") = false.
Proof.
  apply (proj1
    (other_write_error_keeps_history denied_storage
       [record_ "b"; record_ "a"] (Root.mkState [record_ "a"] tt [])
       (Root.mkState [record_ "a"] tt
          [("Failed to save history to localStorage",
            dom_exception "SecurityError")])
       (inr (Some tt)) eq_refl)
    (dom_exception "SecurityError") eq_refl).
Defined.

(** ** The service functions *)

Section ClientLemmas.

Import ApiClient.

Context {S T : Type}.
Variable has : S -> bool.
Variable sel : Io S unit.
Variable fn : Io S T.

(** A call that succeeds returns what some run of the thunk returned. *)
Lemma execute_success s v s' :
  executeWithApiKeyHandling has sel fn s = (inr v, s') ->
  exists s0, fn s0 = (inr v, s').
Proof.
  unfold executeWithApiKeyHandling, try_catch, bind, gets, throw.
  destruct (fn s) as [[e | v0] s1] eqn:First.
  - destruct (isPermissionDenied e || isNotFound e)%bool;
      [ | discriminate ].
    destruct (has s1); [ | discriminate ].
    destruct (sel s1) as [[e2 | []] s2]; [ discriminate | ].
    destruct (fn s2) as [[e3 | v1] s3] eqn:Second; [ discriminate | ].
    intros E. injection E as <- <-. exists s2. exact Second.
  - intros E. injection E as <- <-. exists s. exact First.
Qed.

(** A failure that is not eligible for a new key selection is final. *)
Lemma execute_final_failure s e s1 :
  fn s = (inl e, s1) -> reauth_eligible e = false ->
  executeWithApiKeyHandling has sel fn s = (inl e, s1).
Proof.
  intros First Other.
  unfold executeWithApiKeyHandling, try_catch, bind, gets, throw.
  rewrite First. unfold reauth_eligible in Other. rewrite Other.
  reflexivity.
Qed.

End ClientLemmas.

Section GenerateFacts.

Import Service.

Context {W : Type}.
Variable P : Platform W.

Lemma generateImagesFromPrompt_body_success prompt settings instruction
    template seed s g s' :
  generateImagesFromPrompt_body P prompt settings instruction template seed s
  = (inr g, s') ->
  length (images g) = 1%nat
  /\ (forall v, seed = Some v -> Service.seed g = v)
  /\ kept_from P g.
Proof.
  unfold generateImagesFromPrompt_body, try_catch, bind, getAi, gets, ret,
    throw, rethrow_parsed, call.
  cbn.
  destruct (Js.truthy (API_KEY P (world s))); [ | discriminate ].
  destruct seed as [v | ]; cbn.
  - match goal with
    | |- context [generateContent P ?req ?w] =>
        destruct (generateContent P req w) as [[e | response] w1] eqn:Remote
    end; cbn; [ discriminate | ].
    destruct (read_response response) as [[ | first more] refusal] eqn:Read;
      cbn.
    + destruct (Js.truthy (Js.str_or_empty refusal)); discriminate.
    + intros E. injection E as <- _. cbn.
      split; [ reflexivity | ].
      split; [ intros v' E'; congruence | ].
      do 4 eexists. split; [ exact Remote | ]. rewrite Read. reflexivity.
  - destruct (random_seed P (world s)) as [v w0]; cbn.
    match goal with
    | |- context [generateContent P ?req ?w] =>
        destruct (generateContent P req w) as [[e | response] w1] eqn:Remote
    end; cbn; [ discriminate | ].
    destruct (read_response response) as [[ | first more] refusal] eqn:Read;
      cbn.
    + destruct (Js.truthy (Js.str_or_empty refusal)); discriminate.
    + intros E. injection E as <- _. cbn.
      split; [ reflexivity | ].
      split; [ intros v' E'; discriminate | ].
      do 4 eexists. split; [ exact Remote | ]. rewrite Read. reflexivity.
Qed.

(** C10.  Whenever [generateImagesFromPrompt] succeeds, on the first
    attempt or on the retried one, the returned array holds exactly one
    image, the first payload of the response, whatever [numberOfImages]
    the settings ask for and however many payloads the model returned; and
    the returned seed is the seed the caller supplied, when there was
    one. *)
Theorem generateImagesFromPrompt_one_image prompt settings instruction
    template seed (s s' : Sys W) (g : Generated) :
  generateImagesFromPrompt P prompt settings instruction template seed s
  = (inr g, s') ->
  length (images g) = 1%nat
  /\ (forall v, seed = Some v -> Service.seed g = v)
  /\ kept_from P g.
Proof.
  unfold generateImagesFromPrompt, withApiKeyHandling. intros Run.
  apply execute_success in Run. destruct Run as [s0 Body].
  exact (generateImagesFromPrompt_body_success _ _ _ _ _ _ _ _ Body).
Qed.

End GenerateFacts.

Lemma generateImagesFromPrompt_one_image_witness :
  length (Service.images
            {| Service.images := ["data:image/png;base64,AAAA"];
               Service.seed := 7 |}) = 1%nat.
Proof.
  apply (proj1
    (generateImagesFromPrompt_one_image lab "a cat" four_images None
       " in {{ratio}}" (Some 7) (Service.boot 0%nat)
       (snd (Service.generateImagesFromPrompt lab "a cat" four_images None
               " in {{ratio}}" (Some 7) (Service.boot 0%nat)))
       {| Service.images := ["data:image/png;base64,AAAA"];
          Service.seed := 7 |}
       eq_refl)).
Defined.

(** ** Combining images *)

Section TrayFacts.

Import Service Vox.

Lemma updateCurrentImage_inputImages src mime r st :
  inputImages (updateCurrentImage src mime r st) = inputImages st.
Proof.
  unfold updateCurrentImage.
  destruct src as [s | ]; [ destruct (Js.truthy s), (isBg1Active r) | ];
    destruct (Js.truthy (Js.str_or_empty (currentVideoUrl r)));
    reflexivity.
Qed.

Lemma pushToSessionHistory_inputImages image p r st :
  inputImages (pushToSessionHistory image p r st) = inputImages st.
Proof.
  unfold pushToSessionHistory.
  destruct (MAX_SESSION_HISTORY <? _); reflexivity.
Qed.

(** An upload leaves the tray as it was or sets it to the first six of the
    old images followed by the new ones. *)
Lemma handleFileUpload_tray files r st :
  inputImages (handleFileUpload files r st) = inputImages st
  \/ inputImages (handleFileUpload files r st)
     = firstn 6 (inputImages st ++ loaded_images files).
Proof.
  unfold handleFileUpload.
  destruct files as [ | first_file rest]; [ left; reflexivity | ].
  destruct ((length (first_file :: rest) =? 1)%nat
            && (length (inputImages r) =? 0)%nat)%bool.
  - left. destruct (result first_file) as [data | ]; [ | reflexivity ].
    cbn. rewrite pushToSessionHistory_inputImages.
    apply updateCurrentImage_inputImages.
  - destruct (length (loaded_images (first_file :: rest))
              =? length (first_file :: rest))%nat; [ | left; reflexivity ].
    right.
    destruct (loaded_images (first_file :: rest)) as [ | first more];
      [ reflexivity | ].
    rewrite updateCurrentImage_inputImages. reflexivity.
Qed.

Lemma remove_at_length {A} (l : list A) : forall index,
  (length (remove_at l index) <= length l)%nat.
Proof.
  induction l as [ | x rest IH]; intros [ | i]; cbn; try lia.
  specialize (IH i). lia.
Qed.

End TrayFacts.

Section CombineFacts.

Import Service Vox.

Context {W : Type}.
Variable P : Platform W.

(** C9 (as amended).  With fewer than 2 or more than 6 images
    [combineImages] rejects and does nothing else: no image is resized, no
    remote call is made and no key selection is opened.  With a key
    configured the message of the rejection is the internal "Combining
    requires 2 to 6 images." wrapped by the error parser as an unexpected
    API error; without a key it is the missing-key message, wrapped the
    same way.  The tray of staged images never grows beyond 6: an upload
    keeps the first six of the old and the new images, and a removal only
    shortens the tray. *)
Theorem combineImages_rejects_outside_2_to_6 (images : list ImageData)
    (masterPrompt : string) (s : Sys W) :
  (length images < 2 \/ 6 < length images)%nat ->
  combineImages P images masterPrompt s =
    (inl (new_Error
            (if Js.truthy (API_KEY P (Service.world s)) then
               "An unexpected API error occurred: Combining requires 2 to 6 images."
             else
               "An unexpected API error occurred: API_KEY environment variable is not set. Please select a key.")),
     s)
  /\ (forall files r st,
        (length (inputImages st) <= 6)%nat ->
        (length (inputImages (handleFileUpload files r st)) <= 6)%nat
        /\ (inputImages (handleFileUpload files r st) = inputImages st
            \/ inputImages (handleFileUpload files r st)
               = firstn 6 (inputImages st ++ loaded_images files)))
  /\ (forall index r st,
        (length (inputImages st) <= 6)%nat ->
        (length (inputImages (handleRemoveFromTray index r st)) <= 6)%nat).
Proof.
  intros Count. split; [ | split ].
  - unfold combineImages, withApiKeyHandling.
    apply execute_final_failure.
    + assert (((length images <? 2)%nat || (6 <? length images)%nat)%bool
              = true) as Out.
      { apply orb_true_iff.
        destruct Count; [ left | right ]; apply Nat.ltb_lt; assumption. }
      unfold combineImages_body, getAi, rethrow_parsed, try_catch, bind,
        gets, ret, throw.
      rewrite Out.
      destruct (Js.truthy (API_KEY P (Service.world s))); reflexivity.
    + destruct (Js.truthy (API_KEY P (Service.world s))); vm_compute; reflexivity.
  - intros files r st Bound.
    destruct (handleFileUpload_tray files r st) as [Same | Cut].
    + split; [ rewrite Same; exact Bound | left; exact Same ].
    + split; [ rewrite Cut, length_firstn; lia | right; exact Cut ].
  - intros index r st Bound. cbn.
    pose proof (remove_at_length (inputImages st) index). lia.
Qed.

End CombineFacts.

Lemma combineImages_rejects_outside_2_to_6_witness :
  Service.combineImages lab [png "AAAA"] "blend" (Service.boot 0%nat)
  = (inl (new_Error
       "An unexpected API error occurred: Combining requires 2 to 6 images."),
     Service.boot 0%nat).
Proof.
  apply (proj1 (combineImages_rejects_outside_2_to_6 lab [png "AAAA"] "blend"
                  (Service.boot 0%nat) ltac:(cbn; lia))).
Defined.

(** C9, as the claim words it, fails: without a key the rejection of a
    single image does not carry the text "Combining requires 2 to 6
    images." at all. *)
Lemma combineImages_message_counterexample :
  exists e,
    Service.combineImages lab_without_key [png "AAAA"] "blend"
      (Service.boot 0%nat) = (inl e, Service.boot 0%nat)
    /\ Js.includes (ApiClient.error_text e)
         "Combining requires 2 to 6 images." = false.
Proof. eexists. split; [ reflexivity | reflexivity ]. Qed.

(** ** Cancelling a video job *)

Section WatchFacts.

Import Service Watch.

Lemma scan_snoc t ev : scan (t ++ [ev]) = step (scan t) ev.
Proof. unfold scan, scan_from. rewrite fold_left_app. reflexivity. Qed.

Lemma scan_from_cons o ev t :
  scan_from o (ev :: t) = scan_from (step o ev) t.
Proof. reflexivity. Qed.

Lemma scan_from_selected t : forall o,
  selected (scan_from o t) = (selected o || existsb is_select t)%bool.
Proof.
  induction t as [ | ev rest IH]; intros o.
  - cbn. rewrite orb_false_r. reflexivity.
  - rewrite scan_from_cons, IH. cbn. rewrite orb_assoc. reflexivity.
Qed.

Lemma scan_from_spoiled t : forall o,
  phase o = Spoiled -> phase (scan_from o t) = Spoiled.
Proof.
  induction t as [ | ev rest IH]; intros o Sp; [ exact Sp | ].
  rewrite scan_from_cons. apply IH. cbn. rewrite Sp. reflexivity.
Qed.

Lemma scan_from_first_clear t : forall o,
  phase o = FirstClear -> phase (scan_from o t) = FirstClear.
Proof.
  induction t as [ | ev rest IH]; intros o Fc; [ exact Fc | ].
  rewrite scan_from_cons. apply IH. cbn. rewrite Fc. reflexivity.
Qed.

Lemma scan_from_cancel_hit t o :
  phase o = CancelHit -> phase (scan_from o t) = CancelHit -> t = [].
Proof.
  intros Hit After. destruct t as [ | ev rest]; [ reflexivity | ].
  rewrite scan_from_cons, scan_from_spoiled in After; [ discriminate | ].
  cbn. rewrite Hit. reflexivity.
Qed.

(** When the first read of the flag found it set and the run is not
    spoiled, the run stopped at that read. *)
Lemma first_read_set_hits t : forall o,
  phase o = Quiet ->
  first_read t = Some true ->
  phase (scan_from o t) <> Spoiled ->
  phase (scan_from o t) = CancelHit.
Proof.
  induction t as [ | ev rest IH]; intros o Q First Fine; [ discriminate | ].
  rewrite scan_from_cons in *.
  assert (phase (step o ev) = phase_step Quiet ev) as Step
    by (cbn; rewrite Q; reflexivity).
  destruct ev as [ | src | request | request | [ | ] | ms | | url | msg ];
    cbn in First; try discriminate; cbn in Step;
    try (apply IH; assumption).
  - destruct rest as [ | ev2 rest2]; [ exact Step | ].
    exfalso. apply Fine. rewrite scan_from_cons. apply scan_from_spoiled.
    cbn [step phase]. cbn [step phase] in Step. rewrite Step. reflexivity.
  - exfalso. apply Fine. apply scan_from_spoiled. exact Step.
  - exfalso. apply Fine. apply scan_from_spoiled. exact Step.
Qed.

(** A run that stopped at a read that found the flag set has made no poll
    and no download. *)
Lemma cancel_hit_no_calls t : forall o,
  phase o = Quiet ->
  phase (scan_from o t) = CancelHit ->
  existsb is_poll t = false /\ existsb is_fetch t = false.
Proof.
  induction t as [ | ev rest IH]; intros o Q Hit; [ split; reflexivity | ].
  rewrite scan_from_cons in Hit.
  assert (phase (step o ev) = phase_step Quiet ev) as Step
    by (cbn; rewrite Q; reflexivity).
  destruct ev as [ | src | request | request | [ | ] | ms | | url | msg ];
    cbn in Step; cbn [existsb is_poll is_fetch orb];
    try (apply (IH (step o _) Step Hit)).
  - apply (scan_from_cancel_hit rest (step o _) Step) in Hit. subst rest.
    split; reflexivity.
  - rewrite (scan_from_first_clear rest (step o _) Step) in Hit.
    discriminate.
  - rewrite (scan_from_spoiled rest (step o _) Step) in Hit. discriminate.
  - rewrite (scan_from_spoiled rest (step o _) Step) in Hit. discriminate.
Qed.

Lemma scan_from_unguarded t : forall o,
  guard o = Unguarded -> guard (scan_from o t) = Unguarded.
Proof.
  induction t as [ | ev rest IH]; intros o Un; [ exact Un | ].
  rewrite scan_from_cons. apply IH. cbn. rewrite Un. reflexivity.
Qed.

Lemma scan_from_app o (t u : list Event) :
  scan_from o (t ++ u) = scan_from (scan_from o t) u.
Proof. unfold scan_from. apply fold_left_app. Qed.

Lemma guard_step_read_clear g ev :
  guard_step g ev = ReadClear -> ev = EvReadCancelled false.
Proof.
  destruct g, ev as [ | src | request | request | [ | ] | ms | | url | msg ];
    cbn; intros E; try discriminate; reflexivity.
Qed.

Lemma guard_step_waited g ev :
  guard_step g ev = Waited -> g = ReadClear /\ exists ms, ev = EvSetTimeout ms.
Proof.
  destruct g, ev as [ | src | request | request | [ | ] | ms | | url | msg ];
    cbn; intros E; try discriminate.
  split; [ reflexivity | exists ms; reflexivity ].
Qed.

Lemma rev_case {A} (l : list A) :
  l = [] \/ exists l' x, l = (l' ++ [x])%list.
Proof.
  induction l as [ | x l _] using rev_ind; [ left; reflexivity | ].
  right. exists l, x. reflexivity.
Qed.

(** A trace after which a poll is allowed ends with a read that found the
    flag clear and a wait. *)
Lemma waited_tail t :
  guard (scan t) = Waited ->
  exists earlier ms,
    t = (earlier ++ [EvReadCancelled false; EvSetTimeout ms])%list.
Proof.
  destruct (rev_case t) as [-> | (l & x & ->)]; [ discriminate | ].
  rewrite scan_snoc. cbn. intros W.
  apply guard_step_waited in W. destruct W as [Rc [ms ->]].
  destruct (rev_case l) as [-> | (l' & y & ->)]; [ discriminate | ].
  rewrite scan_snoc in Rc. cbn in Rc.
  apply guard_step_read_clear in Rc. subst y.
  exists l', ms. rewrite <- app_assoc. reflexivity.
Qed.

(** A trace that the guard automaton accepts has every poll guarded. *)
Lemma accepted_polls_guarded t :
  guard (scan t) <> Unguarded -> polls_guarded t.
Proof.
  intros Fine before after ->.
  apply waited_tail.
  destruct (guard (scan before)) eqn:G; try reflexivity; exfalso; apply Fine;
    unfold scan; rewrite scan_from_app, scan_from_cons;
    apply scan_from_unguarded; cbn; fold (scan before); rewrite G;
    reflexivity.
Qed.

End WatchFacts.

(** Case analysis on what was observed of a trace so far. *)
Ltac observe o :=
  unfold Watch.Follows, Watch.Ready in *;
  repeat rewrite scan_snoc in *;
  destruct o as [ph sel g]; cbn in *;
  destruct ph, g; cbn in *; rewrite ?orb_false_r, ?orb_true_r in *;
  intuition (try congruence; try discriminate).

Section VideoFacts.

Import Service Watch.

Context {W : Type}.
Variable P : Platform W.

(** The poll loop, started in a state from which a run may start, keeps
    the trace acceptable, and when it stops at a read that found the flag
    set it has thrown the cancellation error. *)
Lemma poll_loop_follows isCancelledRef progressMessages fuel :
  forall operation progressCounter (s s' : Sys W) r,
  Ready (scan (trace s)) ->
  poll_loop P isCancelledRef progressMessages fuel operation progressCounter s
  = (r, s') ->
  Follows (cancelled_error) (scan (trace s)) r (scan (trace s')).
Proof.
  induction fuel as [ | fuel IH]; intros operation progressCounter s s' r
    Start.
  - cbn. destruct (done operation); cbn; intros Run;
      injection Run as <- <-; observe (scan (trace s)).
  - cbn [poll_loop].
    destruct (done operation).
    + cbn. intros Run. injection Run as <- <-. observe (scan (trace s)).
    + unfold bind, read_cancelled, wait, call, emit, modify, throw.
      cbn.
      destruct (isCancelledRef (world s)).
      * intros Run. injection Run as <- <-. cbn. observe (scan (trace s)).
      * destruct (getVideosOperation P operation _)
          as [[e | operation'] w1]; cbn.
        -- intros Run. injection Run as <- <-. cbn.
           observe (scan (trace s)).
        -- destruct (done operation'); cbn; intros Run; apply IH in Run;
             cbn in *; observe (scan (trace s)).
Qed.

Lemma parsed_cancellation :
  new_Error (parseGeminiError cancelled_error) = cancelled_rejection.
Proof. reflexivity. Qed.

(** What comes after the poll loop in [generateVideo]. *)
Lemma after_polling_follows (isCancelledRef : W -> bool)
    (operation : Operation) (s s' : Sys W) r :
  Ready (scan (trace s)) ->
  after_polling P isCancelledRef operation s = (r, s') ->
  Follows cancelled_error (scan (trace s)) r (scan (trace s')).
Proof.
  intros Start.
  unfold after_polling, bind, read_cancelled, emit, modify, throw, gets,
    call, ret.
  cbn.
  destruct (isCancelledRef (world s)).
  - intros Run. injection Run as <- <-. cbn. observe (scan (trace s)).
  - destruct (negb (Js.truthy (Js.str_or_empty (video_uri operation)))).
    + intros Run. injection Run as <- <-. cbn. observe (scan (trace s)).
    + cbn. destruct (fetch P _ (world s)) as [[e | videoResponse] w1]; cbn.
      * intros Run. injection Run as <- <-. cbn. observe (scan (trace s)).
      * destruct (negb (ok videoResponse)); cbn.
        -- intros Run. injection Run as <- <-. cbn.
           observe (scan (trace s)).
        -- destruct (createObjectURL P videoResponse w1) as [[e | u] w2];
             cbn; intros Run; injection Run as <- <-; cbn;
             observe (scan (trace s)).
Qed.

Lemma ready_after {A} X (o o1 : Obs) (a : A) :
  Ready o -> Follows X o (inr a) o1 -> Ready o1.
Proof.
  unfold Ready, Follows. destruct o as [ph sel g], o1 as [ph1 sel1 g1]; cbn.
  destruct ph1; intuition (try congruence; try discriminate).
Qed.

Lemma follows_trans {A B} X Y (o o1 o2 : Obs) (a : A) (r : JsError + B) :
  Follows X o (inr a) o1 -> Follows Y o1 r o2 -> Follows Y o r o2.
Proof.
  unfold Follows. destruct o as [ph sel g], o1 as [ph1 sel1 g1],
    o2 as [ph2 sel2 g2]; cbn.
  intuition (try congruence; try discriminate).
Qed.

Lemma follows_error {A B} X (o o1 : Obs) (e : JsError) :
  Follows X o (@inl _ A e) o1 -> Follows X o (@inl _ B e) o1.
Proof.
  unfold Follows. intuition (try congruence; try discriminate).
Qed.

Lemma follows_wrapped {A} (o o1 : Obs) (e : JsError) :
  Follows cancelled_error o (@inl _ A e) o1 ->
  Follows cancelled_rejection o
    (@inl _ A (new_Error (parseGeminiError e))) o1.
Proof.
  unfold Follows. intros (S1 & G1 & P1 & F1 & C1).
  repeat split; try assumption.
  intros Hit. specialize (C1 Hit). injection C1 as ->. reflexivity.
Qed.

Lemma follows_value {A B} X Y (o o1 : Obs) (a : A) (b : B) :
  Follows X o (inr a) o1 -> Follows Y o (inr b) o1.
Proof.
  unfold Follows. intuition (try congruence; try discriminate).
Qed.

(** Submitting the job, polling it and fetching the video. *)
Lemma submit_and_poll_follows fuel request progressMessages isCancelledRef
    (s s' : Sys W) r :
  Ready (scan (trace s)) ->
  submit_and_poll P fuel request progressMessages isCancelledRef s = (r, s') ->
  Follows cancelled_error (scan (trace s)) r (scan (trace s')).
Proof.
  intros Start.
  unfold submit_and_poll, bind, emit, modify, call, ret. cbn.
  destruct (generateVideos P request (world s)) as [[e | operation] w1]; cbn.
  - intros Run. injection Run as <- <-. cbn. observe (scan (trace s)).
  - match goal with
    | |- context [poll_loop P isCancelledRef progressMessages fuel
                    operation 2 ?s2] =>
        assert (Follows cancelled_error (scan (trace s))
                  (@inr JsError unit tt) (scan (trace s2))) as Before
          by (cbn; observe (scan (trace s)));
        destruct (poll_loop P isCancelledRef progressMessages fuel
                    operation 2 s2) as [[e | [operation' | ]] s4] eqn:Loop;
        apply poll_loop_follows in Loop;
        try exact (ready_after _ _ _ _ Start Before)
    end.
    + intros Run. injection Run as <- <-.
      apply (follows_trans _ _ _ _ _ _ _ Before).
      exact (follows_error _ _ _ _ Loop).
    + intros Run.
      apply (follows_trans _ _ _ _ _ _ _ Before).
      apply (follows_trans _ _ _ _ _ _ _ Loop).
      apply (after_polling_follows _ _ _ _ _
               (ready_after _ _ _ _
                  (ready_after _ _ _ _ Start Before) Loop) Run).
    + intros Run. injection Run as <- <-.
      apply (follows_trans _ _ _ _ _ _ _ Before).
      exact (follows_value _ _ _ _ _ _ Loop).
Qed.

(** One run of the function that [generateVideo] hands to the client. *)
Lemma generateVideo_body_follows fuel prompt image aspectRatio
    progressMessages isCancelledRef (s s' : Sys W) r :
  Ready (scan (trace s)) ->
  generateVideo_body P fuel prompt image aspectRatio progressMessages
    isCancelledRef s = (r, s') ->
  Follows cancelled_rejection (scan (trace s)) r (scan (trace s')).
Proof.
  intros Start.
  unfold generateVideo_body, getAi, rethrow_parsed, try_catch, bind, gets,
    ret, throw, call.
  cbn.
  destruct (Js.truthy (API_KEY P (world s))); cbn;
    [ | intros Run; injection Run as <- <-; observe (scan (trace s)) ].
  destruct image as [img | ]; cbn.
  - destruct (resizeImage P (base64 img) (world s)) as [[e | resized] w0]; cbn.
    + intros Run. injection Run as <- <-. cbn. observe (scan (trace s)).
    + assert (Follows cancelled_error (scan (trace s)) (@inr JsError unit tt)
                (scan (trace s ++ [EvResizeImage (base64 img)]))) as Before
        by observe (scan (trace s)).
      match goal with
      | |- context [submit_and_poll P fuel ?request progressMessages
                      isCancelledRef ?s1] =>
          destruct (submit_and_poll P fuel request progressMessages
                      isCancelledRef s1) as [[e | a] s2] eqn:Sub;
          apply submit_and_poll_follows in Sub;
          try exact (ready_after _ _ _ _ Start Before)
      end;
        intros Run; injection Run as <- <-;
        apply (follows_trans _ _ _ _ _ _ _ Before).
      * exact (follows_wrapped _ _ _ Sub).
      * exact (follows_value _ _ _ _ _ _ Sub).
  - match goal with
    | |- context [submit_and_poll P fuel ?request progressMessages
                    isCancelledRef s] =>
        destruct (submit_and_poll P fuel request progressMessages
                    isCancelledRef s) as [[e | a] s2] eqn:Sub;
        apply submit_and_poll_follows in Sub; try exact Start
    end;
      intros Run; injection Run as <- <-.
    + exact (follows_wrapped _ _ _ Sub).
    + exact (follows_value _ _ _ _ _ _ Sub).
Qed.

End VideoFacts.

Section CancelFacts.

Import Service Watch.

Context {W : Type}.
Variable P : Platform W.

Lemma cancelled_rejection_final :
  ApiClient.reauth_eligible cancelled_rejection = false.
Proof. reflexivity. Qed.

(** A whole call of [generateVideo] from an empty trace: the trace stays
    acceptable, and when the call stopped at a read that found the flag
    set it was rejected, with the cancellation message unless a new key
    had been selected on the way. *)
Lemma generateVideo_follows fuel prompt image aspectRatio progressMessages
    isCancelledRef (w : W) :
  let out := generateVideo P fuel prompt image aspectRatio progressMessages
               isCancelledRef (boot w) in
  let o := scan (trace (snd out)) in
  guard o <> Unguarded
  /\ phase o <> Spoiled
  /\ (phase o = CancelHit ->
      (exists e, fst out = inl e)
      /\ (selected o = false -> fst out = inl cancelled_rejection)).
Proof.
  cbv zeta.
  unfold generateVideo, withApiKeyHandling,
    ApiClient.executeWithApiKeyHandling, try_catch, bind, gets, throw, call.
  assert (Ready (scan (trace (boot w)))) as Start.
  { split; [ left; reflexivity | discriminate ]. }
  assert (selected (scan (trace (boot w))) = false) as Fresh by reflexivity.
  destruct (generateVideo_body P fuel prompt image aspectRatio
              progressMessages isCancelledRef (boot w))
    as [[e1 | v] s1] eqn:First;
    pose proof (generateVideo_body_follows P _ _ _ _ _ _ _ _ _ Start First)
      as F1.
  - destruct (ApiClient.isPermissionDenied e1 || ApiClient.isNotFound e1)%bool
      eqn:Eligible.
    + assert (phase (scan (trace s1)) <> CancelHit) as NotHit.
      { intros Hit. destruct F1 as (_ & _ & _ & _ & C). specialize (C Hit).
        injection C as ->.
        pose proof cancelled_rejection_final as Final.
        unfold ApiClient.reauth_eligible in Final. congruence. }
      destruct (aistudio P (world s1)); cbn.
      * destruct (openSelectKey P (world s1)) as [[e2 | []] w2]; cbn.
        -- observe (scan (trace s1)).
        -- match goal with
           | |- context [generateVideo_body P fuel prompt image aspectRatio
                           progressMessages isCancelledRef ?s2] =>
               assert (Ready (scan (trace s2))
                       /\ selected (scan (trace s2)) = true) as [Again Sel]
                 by (cbn; observe (scan (trace s1)));
               destruct (generateVideo_body P fuel prompt image aspectRatio
                           progressMessages isCancelledRef s2)
                 as [[e3 | v] s3] eqn:Second;
               pose proof (generateVideo_body_follows P _ _ _ _ _ _ _ _ _
                             Again Second) as F2
           end; cbn.
           ++ destruct F2 as (S2 & G2 & P2 & _ & _).
              repeat split; try assumption.
              ** exists e1. reflexivity.
              ** intros NoSel. congruence.
           ++ destruct F2 as (S2 & G2 & P2 & _ & C2).
              repeat split; try assumption.
              ** specialize (C2 H). discriminate.
              ** specialize (C2 H). discriminate.
      * destruct F1 as (S1 & G1 & P1 & _ & C1).
        repeat split; try assumption; contradiction.
    + cbn. destruct F1 as (S1 & G1 & P1 & _ & C1).
      repeat split; try assumption.
      * exists e1. reflexivity.
      * intros _. exact (C1 H).
  - cbn. destruct F1 as (S1 & G1 & P1 & _ & C1).
    repeat split; try assumption.
    + specialize (C1 H). discriminate.
    + specialize (C1 H). discriminate.
Qed.

(** With fuel for one turn of the loop, a run whose job was submitted and
    which finds the flag set at that moment does read the flag, and reads
    it set. *)
Lemma generateVideo_reads_flag fuel prompt aspectRatio progressMessages
    isCancelledRef (w w1 : W) (operation : Operation) :
  Js.truthy (API_KEY P w) = true ->
  generateVideos P (video_request prompt aspectRatio None) w
  = (inr operation, w1) ->
  isCancelledRef w1 = true ->
  first_read
    (trace (snd (generateVideo P (S fuel) prompt None aspectRatio
                   progressMessages isCancelledRef (boot w))))
  = Some true.
Proof.
  intros Key Submitted Set_.
  assert (generateVideo_body P (S fuel) prompt None aspectRatio
            progressMessages isCancelledRef (boot w)
          = (inl cancelled_rejection,
             mkSys w1 [EvProgress (nth_error progressMessages 0);
                       EvGenerateVideos
                         (video_request prompt aspectRatio None);
                       EvProgress (nth_error progressMessages 1);
                       EvReadCancelled true])) as Body.
  { unfold generateVideo_body, submit_and_poll, getAi, rethrow_parsed,
      try_catch, bind, gets, ret, throw, call, emit, modify.
    cbn. rewrite Key. cbn. rewrite Submitted. cbn.
    destruct (done operation); cbn.
    - unfold after_polling, bind, read_cancelled, throw.
      cbn. rewrite Set_. reflexivity.
    - unfold bind, read_cancelled, throw.
      cbn. rewrite Set_. reflexivity. }
  unfold generateVideo, withApiKeyHandling.
  rewrite (execute_final_failure _ _ _ _ _ _ Body cancelled_rejection_final).
  reflexivity.
Qed.

(** C8 (as amended).  In every run of [generateVideo], each poll of the job
    comes right after a read of the cancellation flag that found it clear
    and the wait that follows it.  When the first read of the flag finds
    it set, the call is rejected and the run contains no poll and no
    download of a video.  The rejection then carries the cancellation
    message, wrapped by the error parser, provided no new key was selected
    during the call; after a key selection it is the error of the first
    attempt.  The flag is so found when it is set at the moment the job has
    been submitted (first attempt, no input image, one turn of fuel). *)
Theorem generateVideo_cancelled_before_first_poll fuel prompt image
    aspectRatio progressMessages isCancelledRef (w : W) :
  let out := generateVideo P fuel prompt image aspectRatio progressMessages
               isCancelledRef (boot w) in
  let t := trace (snd out) in
  polls_guarded t
  /\ (first_read t = Some true ->
      (exists e, fst out = inl e)
      /\ existsb is_poll t = false
      /\ existsb is_fetch t = false
      /\ (existsb is_select t = false -> fst out = inl cancelled_rejection))
  /\ (forall turns w1 operation,
        fuel = S turns -> image = None ->
        Js.truthy (API_KEY P w) = true ->
        generateVideos P (video_request prompt aspectRatio None) w
        = (inr operation, w1) ->
        isCancelledRef w1 = true ->
        first_read t = Some true).
Proof.
  cbv zeta.
  destruct (generateVideo_follows fuel prompt image aspectRatio
              progressMessages isCancelledRef w) as (G & Ph & Hit).
  split; [ apply accepted_polls_guarded; exact G | ].
  split;
    [ | intros turns w1 operation -> -> Key Submitted Set_;
        exact (generateVideo_reads_flag _ _ _ _ _ _ _ _ Key Submitted Set_) ].
  intros First.
  assert (phase (scan (trace (snd (generateVideo P fuel prompt image
            aspectRatio progressMessages isCancelledRef (boot w)))))
          = CancelHit) as AtRead.
  { apply first_read_set_hits; [ reflexivity | exact First | exact Ph ]. }
  destruct (Hit AtRead) as [Rejected Message].
  destruct (cancel_hit_no_calls _ start eq_refl AtRead) as [NoPoll NoFetch].
  repeat split; try assumption.
  intros NoSelect. apply Message.
  unfold scan. rewrite scan_from_selected, NoSelect. reflexivity.
Qed.

End CancelFacts.

Lemma generateVideo_cancelled_before_first_poll_witness :
  fst (Service.generateVideo lab 3 "pan left" None Service.R16_9
         ["Analyzing scene dynamics..."] (fun _ => true) (Service.boot 1%nat))
  = inl Watch.cancelled_rejection.
Proof.
  apply (proj1 (proj2 (generateVideo_cancelled_before_first_poll lab 3
                         "pan left" None Service.R16_9
                         ["Analyzing scene dynamics..."]
                         (fun _ => true) 1%nat)) eq_refl).
  reflexivity.
Defined.

(** C8, as the claim words it, fails when the cancelled attempt is the
    retried one: the first attempt is refused as not found, a key is
    selected, the second attempt finds the flag set at its first read, and
    the call is rejected with the error of the first attempt, which says
    nothing of a cancellation. *)
Lemma generateVideo_cancelled_retry_counterexample :
  let out := Service.generateVideo lab 3 "pan left" None Service.R16_9
               ["Analyzing scene dynamics..."] (fun _ => true)
               (Service.boot 0%nat) in
  Watch.first_read (Service.trace (snd out)) = Some true
  /\ exists e,
       fst out = inl e
       /\ Js.includes (ApiClient.error_text e) "cancelled" = false.
Proof.
  cbv zeta. split; [ reflexivity | ].
  eexists. split; reflexivity.
Qed.

(** * Further properties *)

(** ** The error parser and the retrying client together *)

Section ParserFacts.

Import ApiClient Service Reading.

Lemma parseGeminiError_not_found e :
  Js.includes (thrown_message e) "Requested entity was not found." = true ->
  parseGeminiError e =
    "The requested AI model is not available with your current API key. Please ensure your key has access to Gemini 3.0 Preview models.".
Proof.
  unfold thrown_message, parseGeminiError. cbv zeta. intros ->. reflexivity.
Qed.

Lemma parseGeminiError_permission e :
  Js.includes (thrown_message e) "Requested entity was not found." = false ->
  (Js.includes (thrown_message e) "does not have permission"
   || Js.includes (thrown_message e) "PERMISSION_DENIED")%bool = true ->
  parseGeminiError e =
    "Permission denied. Your API key does not have access to this model. Please select a different key or check your Google Cloud project permissions.".
Proof.
  unfold thrown_message, parseGeminiError. cbv zeta. intros -> ->.
  reflexivity.
Qed.

Lemma parseGeminiError_nonempty e : parseGeminiError e <> EmptyString.
Proof.
  unfold parseGeminiError. cbv zeta.
  generalize (if is_Error e then Js.str_or_empty (message e)
              else match inner e with
                   | Some (mkInnerError _ (Some m)) => m
                   | _ => match message e with
                          | Some m => m
                          | None => "An unknown and unexpected error occurred. Please try again."
                          end
                   end).
  intros m.
  repeat match goal with
         | |- context [if ?c then _ else _] => destruct c eqn:?
         end; try discriminate.
  destruct m; [ discriminate | discriminate ].
Qed.

End ParserFacts.

Section StringFacts.

Lemma prefix_append_weaken p : forall q s,
  String.prefix (p ++ q) s = true -> String.prefix p s = true.
Proof.
  induction p as [ | a p IH]; intros q s.
  - destruct s; reflexivity.
  - destruct s as [ | b s]; cbn; [ discriminate | ].
    destruct (ascii_dec a b); [ apply IH | discriminate ].
Qed.

Lemma index_append_weaken p q : forall s,
  String.index 0 (p ++ q) s <> None -> String.index 0 p s <> None.
Proof.
  induction s as [ | c s IH].
  - cbn. destruct p; [ discriminate | cbn; intros F; exact F ].
  - intros Found. cbn [String.index] in *.
    destruct (String.prefix (p ++ q) (String c s)) eqn:Here.
    + rewrite (prefix_append_weaken _ _ _ Here). discriminate.
    + destruct (String.prefix p (String c s)); [ discriminate | ].
      destruct (String.index 0 (p ++ q) s); [ | contradiction ].
      destruct (String.index 0 p s); [ discriminate | ].
      exfalso. apply IH; [ discriminate | reflexivity ].
Qed.

(** A text that includes a pattern includes every prefix of it. *)
Lemma includes_append_weaken s p q :
  Js.includes s (p ++ q) = true -> Js.includes s p = true.
Proof.
  unfold Js.includes. intros Found.
  pose proof (index_append_weaken p q s) as Weak.
  destruct (String.index 0 (p ++ q) s); [ | discriminate ].
  destruct (String.index 0 p s); [ reflexivity | ].
  exfalso. apply Weak; [ discriminate | reflexivity ].
Qed.

End StringFacts.

Section ClientFailures.

Import ApiClient.

Context {S T : Type}.
Variable has : S -> bool.
Variable sel : Io S unit.
Variable fn : Io S T.

(** A call that fails, fails with what the first run of the thunk
    threw. *)
Lemma execute_failure_first s e s' :
  executeWithApiKeyHandling has sel fn s = (inl e, s') ->
  exists s1, fn s = (inl e, s1).
Proof.
  unfold executeWithApiKeyHandling, try_catch, bind, gets, throw.
  destruct (fn s) as [[e1 | v0] s1] eqn:First; [ | discriminate ].
  destruct (isPermissionDenied e1 || isNotFound e1)%bool.
  - destruct (has s1).
    + destruct (sel s1) as [[e2 | []] s2].
      * intros E. injection E as <- _. exists s1. reflexivity.
      * destruct (fn s2) as [[e3 | v1] s3]; [ | discriminate ].
        intros E. injection E as <- _. exists s1. reflexivity.
    + intros E. injection E as <- _. exists s1. reflexivity.
  - intros E. injection E as <- _. exists s1. reflexivity.
Qed.

End ClientFailures.

Section GuardedFacts.

Import ApiClient Service Reading Imaging.

Context {W : Type}.
Variable P : Platform W.

Lemma guarded_without_key {T} (k : unit -> Io (Sys W) T) (s : Sys W) :
  Js.truthy (API_KEY P (Service.world s)) = false ->
  try_catch (bind (getAi P) k) rethrow_parsed s
  = (inl missing_key_rejection, s).
Proof.
  intros Key.
  unfold try_catch, bind, getAi, gets, throw, rethrow_parsed.
  cbn. rewrite Key. reflexivity.
Qed.

Lemma without_key_final {T} (body : Io (Sys W) T) (s : Sys W) :
  body s = (inl missing_key_rejection, s) ->
  withApiKeyHandling P body s = (inl missing_key_rejection, s).
Proof.
  intros Body. unfold withApiKeyHandling.
  apply execute_final_failure; [ exact Body | vm_compute; reflexivity ].
Qed.

(** X1.  Without a configured key every function of the service rejects
    at once with the missing-key message, as the error parser wraps it,
    and does nothing else: the state and the trace are as before, so no
    image was resized, no remote call was made and no key selection was
    opened. *)
Theorem service_rejects_without_key (s : Sys W) :
  Js.truthy (API_KEY P (Service.world s)) = false ->
  (forall prompt settings instruction template seed,
     generateImagesFromPrompt P prompt settings instruction template seed s
     = (inl missing_key_rejection, s))
  /\ (forall masterPrompt image mime seed,
        editImageFromPrompt P masterPrompt image mime seed s
        = (inl missing_key_rejection, s))
  /\ (forall original mask mime masterPrompt,
        inpaintImage P original mask mime masterPrompt s
        = (inl missing_key_rejection, s))
  /\ (forall images masterPrompt,
        combineImages P images masterPrompt s
        = (inl missing_key_rejection, s))
  /\ (forall image resolution upscalePrompt,
        upscaleImage P image resolution upscalePrompt s
        = (inl missing_key_rejection, s))
  /\ (forall image masterPrompt,
        refineImage P image masterPrompt s
        = (inl missing_key_rejection, s))
  /\ (forall image mime masterPrompt,
        reframeImage P image mime masterPrompt s
        = (inl missing_key_rejection, s))
  /\ (forall fuel prompt image aspect progressMessages isCancelledRef,
        generateVideo P fuel prompt image aspect progressMessages
          isCancelledRef s
        = (inl missing_key_rejection, s)).
Proof.
  intros Key.
  repeat split; intros; apply without_key_final;
    apply guarded_without_key; exact Key.
Qed.

Lemma guarded_failure {T} (inner : Io (Sys W) T) s e s1 :
  try_catch inner rethrow_parsed s = (inl e, s1) ->
  exists m, e = new_Error m /\ m <> EmptyString.
Proof.
  unfold try_catch, rethrow_parsed, throw.
  destruct (inner s) as [[e0 | v] s0]; [ | discriminate ].
  intros E. injection E as <- _.
  exists (parseGeminiError e0).
  split; [ reflexivity | apply parseGeminiError_nonempty ].
Qed.

Lemma guarded_reports {T} (inner : Io (Sys W) T) :
  reports_first_failure
    (withApiKeyHandling P (try_catch inner rethrow_parsed))
    (try_catch inner rethrow_parsed).
Proof.
  intros s e s' Run. unfold withApiKeyHandling in Run.
  apply execute_failure_first in Run. destruct Run as [s1 First].
  split; [ exists s1; exact First | ].
  exact (guarded_failure _ _ _ _ First).
Qed.

(** X2.  What a function of the service rejects with is what the first
    run of its body threw, also when a key was selected and the second
    run failed in another way, or when the selection itself failed; and
    it is always an [Error] made by the error parser, whose message is
    not empty. *)
Theorem service_reports_first_failure :
  (forall prompt settings instruction template seed,
     reports_first_failure
       (generateImagesFromPrompt P prompt settings instruction template seed)
       (generateImagesFromPrompt_body P prompt settings instruction template
          seed))
  /\ (forall masterPrompt image mime seed,
        reports_first_failure
          (editImageFromPrompt P masterPrompt image mime seed)
          (editImageFromPrompt_body P masterPrompt image mime seed))
  /\ (forall original mask mime masterPrompt,
        reports_first_failure
          (inpaintImage P original mask mime masterPrompt)
          (inpaintImage_body P original mask mime masterPrompt))
  /\ (forall images masterPrompt,
        reports_first_failure
          (combineImages P images masterPrompt)
          (combineImages_body P images masterPrompt))
  /\ (forall image resolution upscalePrompt,
        reports_first_failure
          (upscaleImage P image resolution upscalePrompt)
          (upscaleImage_body P image resolution upscalePrompt))
  /\ (forall image masterPrompt,
        reports_first_failure
          (refineImage P image masterPrompt)
          (refineImage_body P image masterPrompt))
  /\ (forall image mime masterPrompt,
        reports_first_failure
          (reframeImage P image mime masterPrompt)
          (reframeImage_body P image mime masterPrompt))
  /\ (forall fuel prompt image aspect progressMessages isCancelledRef,
        reports_first_failure
          (generateVideo P fuel prompt image aspect progressMessages
             isCancelledRef)
          (generateVideo_body P fuel prompt image aspect progressMessages
             isCancelledRef)).
Proof.
  repeat match goal with |- _ /\ _ => split end; intros;
    apply guarded_reports.
Qed.

(** X3.  A failure inside a service function whose text mentions a
    missing entity or a missing permission is replaced, by the catch of
    the function itself, with a friendly message that the retrying client
    does not recognise: the call fails at once with that message and no
    key selection is opened, although the client finds the failure
    eligible for a retry as it was thrown, when that is an [Error]. *)
Theorem masked_failure_not_retried {T} (inner : Io (Sys W) T)
    (s : Sys W) (e : JsError) (s1 : Sys W) :
  inner s = (inl e, s1) ->
  (Js.includes (thrown_message e) "Requested entity was not found."
   || Js.includes (thrown_message e) "does not have permission"
   || Js.includes (thrown_message e) "PERMISSION_DENIED")%bool = true ->
  withApiKeyHandling P (try_catch inner rethrow_parsed) s
  = (inl (new_Error (parseGeminiError e)), s1)
  /\ (parseGeminiError e =
        "The requested AI model is not available with your current API key. Please ensure your key has access to Gemini 3.0 Preview models."
      \/ parseGeminiError e =
        "Permission denied. Your API key does not have access to this model. Please select a different key or check your Google Cloud project permissions.")
  /\ (is_Error e = true -> reauth_eligible e = true).
Proof.
  intros First Masked.
  assert (parseGeminiError e =
        "The requested AI model is not available with your current API key. Please ensure your key has access to Gemini 3.0 Preview models."
      \/ parseGeminiError e =
        "Permission denied. Your API key does not have access to this model. Please select a different key or check your Google Cloud project permissions.")
    as Friendly.
  { destruct (Js.includes (thrown_message e)
                "Requested entity was not found.") eqn:Missing.
    - left. apply parseGeminiError_not_found. exact Missing.
    - right. apply parseGeminiError_permission; [ exact Missing | ].
      exact Masked. }
  split; [ | split; [ exact Friendly | ] ].
  - unfold withApiKeyHandling. apply execute_final_failure.
    + unfold try_catch, rethrow_parsed, throw. rewrite First. reflexivity.
    + destruct Friendly as [-> | ->]; vm_compute; reflexivity.
  - intros IsError. unfold thrown_message in Masked.
    rewrite IsError in Masked.
    unfold reauth_eligible, isPermissionDenied, isNotFound, error_text,
      Js.or_else.
    assert (Js.truthy (Js.str_or_empty (message e)) = true) as Truthy.
    { destruct (Js.str_or_empty (message e)); [ | reflexivity ].
      vm_compute in Masked. discriminate. }
    rewrite Truthy.
    destruct (Js.includes (Js.str_or_empty (message e))
                "Requested entity was not found.") eqn:Missing.
    + rewrite (includes_append_weaken _ "Requested entity was not found"
                 "." Missing).
      rewrite ?orb_true_r, ?orb_true_l. reflexivity.
    + cbn [orb] in Masked.
      destruct (Js.includes (Js.str_or_empty (message e))
                  "does not have permission");
        [ reflexivity | ].
      cbn [orb] in Masked. rewrite Masked. reflexivity.
Qed.

End GuardedFacts.

(** ** What the service keeps of a response *)

Section ResponseFacts.

Import ApiClient Service Reading Imaging.

Lemma collect_parts_images parts : forall imgs refusalText,
  fst (collect_parts parts imgs refusalText) = (imgs ++ payloads parts)%list.
Proof.
  induction parts as [ | part rest IH]; intros imgs refusalText; cbn.
  - rewrite app_nil_r. reflexivity.
  - destruct (inlineData part) as [[mime data] | ].
    + rewrite IH, <- app_assoc. reflexivity.
    + destruct (Js.truthy (Js.str_or_empty (text part))); apply IH.
Qed.

Lemma texts_cons part rest :
  texts (part :: rest) =
    (match inlineData part with
     | Some _ => []
     | None =>
         if Js.truthy (Js.str_or_empty (text part))
         then [Js.str_or_empty (text part)] else []
     end ++ texts rest)%list.
Proof. reflexivity. Qed.

Lemma append_empty_r (x : string) : x ++ EmptyString = x.
Proof. induction x as [ | c x IH]; cbn; congruence. Qed.

Lemma append_assoc (a b c : string) : (a ++ b) ++ c = a ++ b ++ c.
Proof. induction a as [ | ch a IH]; cbn; congruence. Qed.

Lemma collect_parts_text parts : forall imgs refusalText,
  snd (collect_parts parts imgs refusalText) =
    match texts parts with
    | [] => refusalText
    | ts => Some (Js.str_or_empty refusalText ++ joined ts)
    end.
Proof.
  induction parts as [ | part rest IH]; intros imgs refusalText.
  - reflexivity.
  - cbn [collect_parts]. rewrite texts_cons.
    destruct (inlineData part) as [[mime data] | ].
    + cbn [app]. apply IH.
    + destruct (Js.truthy (Js.str_or_empty (text part))) eqn:Truthy.
      * cbn [app]. rewrite IH.
        destruct (texts rest) as [ | t ts].
        -- unfold joined. cbn [fold_right Js.str_or_empty].
           rewrite append_empty_r. reflexivity.
        -- cbn [Js.str_or_empty]. rewrite append_assoc. reflexivity.
      * cbn [app]. apply IH.
Qed.

Lemma first_image_payloads parts :
  first_image parts = hd_error (payloads parts).
Proof.
  induction parts as [ | part rest IH]; cbn; [ reflexivity | ].
  destruct (inlineData part) as [[mime data] | ]; [ reflexivity | exact IH ].
Qed.

Lemma read_response_pair (response : Response) :
  read_response response =
    (payloads (parts_of response),
     match texts (parts_of response) with
     | [] => None
     | ts => Some (joined ts)
     end).
Proof.
  unfold read_response, parts_of.
  destruct (first_candidate_parts response) as [parts | ];
    [ | reflexivity ].
  pose proof (collect_parts_images parts [] None) as Images.
  pose proof (collect_parts_text parts [] None) as Text.
  destruct (collect_parts parts [] None) as [images refusalText].
  cbn [fst snd] in Images, Text. rewrite Images, Text.
  destruct (texts parts); reflexivity.
Qed.

Lemma read_first_image_head (response : Response) :
  read_first_image response = hd_error (payloads (parts_of response)).
Proof.
  unfold read_first_image, parts_of.
  destruct (first_candidate_parts response) as [parts | ];
    [ apply first_image_payloads | reflexivity ].
Qed.

(** X4.  The loops that read a response.  The images are the payloads of
    the parts of the first candidate, as data URLs and in the order of
    the parts; a part that carries a payload gives no text; the refusal
    text is the truthy texts of the other parts, one after the other, and
    is absent when there is none; and the image that [upscaleImage] and
    [refineImage] pick is the first of these images. *)
Theorem read_response_reads (response : Response) :
  fst (read_response response) = payloads (parts_of response)
  /\ snd (read_response response) =
       match texts (parts_of response) with
       | [] => None
       | ts => Some (joined ts)
       end
  /\ read_first_image response = hd_error (payloads (parts_of response)).
Proof.
  unfold read_response, read_first_image, parts_of.
  destruct (first_candidate_parts response) as [parts | ].
  - rewrite collect_parts_images, collect_parts_text, first_image_payloads.
    split; [ reflexivity | ]. split; [ | reflexivity ].
    destruct (texts parts); reflexivity.
  - repeat split.
Qed.

End ResponseFacts.

Ltac remote_call Remote :=
  match goal with
  | |- context [Service.generateContent ?P ?req ?w] =>
      destruct (Service.generateContent P req w)
        as [[? | ?response] ?w1] eqn:Remote
  end.

Ltac resize_call :=
  match goal with
  | |- context [Service.resizeImage ?P ?src ?w] =>
      destruct (Service.resizeImage P src w) as [[? | [? ?]] ?w0]
  end.

Section ImagingFacts.

Import ApiClient Service Reading Imaging.

Context {W : Type}.
Variable P : Platform W.

Lemma editImageFromPrompt_body_success masterPrompt image mime seed
    (s : Sys W) g s' :
  editImageFromPrompt_body P masterPrompt image mime seed s = (inr g, s') ->
  images g <> []
  /\ (forall v, seed = Some v -> Service.seed g = v)
  /\ exists request w response w1,
       generateContent P request w = (inr response, w1)
       /\ req_seed request = Some (Service.seed g)
       /\ images g = payloads (parts_of response).
Proof.
  unfold editImageFromPrompt_body, try_catch, bind, getAi, gets, ret,
    throw, rethrow_parsed, call.
  cbn.
  destruct (Js.truthy (API_KEY P (Service.world s))); [ | discriminate ].
  destruct seed as [v | ]; cbn.
  - resize_call; cbn; [ discriminate | ].
    remote_call Remote; cbn; [ discriminate | ].
    rewrite read_response_pair.
    destruct (payloads (parts_of response)) as [ | first more] eqn:Read.
    + destruct (texts (parts_of response)); cbn; [ discriminate | ].
      match goal with
      | |- context [Js.truthy ?x] => destruct (Js.truthy x)
      end; discriminate.
    + intros E. injection E as <- _. cbn.
      split; [ discriminate | ].
      split; [ intros v' E'; congruence | ].
      do 4 eexists. split; [ exact Remote | ].
      split; [ reflexivity | ]. symmetry. exact Read.
  - destruct (random_seed P (Service.world s)) as [v w0']; cbn.
    resize_call; cbn; [ discriminate | ].
    remote_call Remote; cbn; [ discriminate | ].
    rewrite read_response_pair.
    destruct (payloads (parts_of response)) as [ | first more] eqn:Read.
    + destruct (texts (parts_of response)); cbn; [ discriminate | ].
      match goal with
      | |- context [Js.truthy ?x] => destruct (Js.truthy x)
      end; discriminate.
    + intros E. injection E as <- _. cbn.
      split; [ discriminate | ].
      split; [ intros v' E'; discriminate | ].
      do 4 eexists. split; [ exact Remote | ].
      split; [ reflexivity | ]. symmetry. exact Read.
Qed.

Lemma inpaintImage_body_success original mask mime masterPrompt
    (s : Sys W) result s' :
  inpaintImage_body P original mask mime masterPrompt s = (inr result, s') ->
  result <> []
  /\ exists request w response w1,
       generateContent P request w = (inr response, w1)
       /\ req_parts request =
            [ {| inlineData := Some (mime, pure_base64 original);
                 text := None |};
              {| inlineData := Some ("image/png", pure_base64 mask);
                 text := None |};
              {| inlineData := None; text := Some masterPrompt |} ]
       /\ result = payloads (parts_of response).
Proof.
  unfold inpaintImage_body, try_catch, bind, getAi, gets, ret,
    throw, rethrow_parsed, call.
  cbn.
  destruct (Js.truthy (API_KEY P (Service.world s))); [ | discriminate ].
  remote_call Remote; cbn; [ discriminate | ].
  rewrite read_response_pair.
  destruct (payloads (parts_of response)) as [ | first more] eqn:Read.
  - destruct (texts (parts_of response)); cbn; [ discriminate | ].
    match goal with
    | |- context [Js.truthy ?x] => destruct (Js.truthy x)
    end; discriminate.
  - intros E. injection E as <- _.
    split; [ discriminate | ].
    do 4 eexists. split; [ exact Remote | ].
    split; [ reflexivity | ]. symmetry. exact Read.
Qed.

Lemma reframeImage_body_success image mime masterPrompt
    (s : Sys W) result s' :
  reframeImage_body P image mime masterPrompt s = (inr result, s') ->
  result <> []
  /\ exists request w response w1,
       generateContent P request w = (inr response, w1)
       /\ result = payloads (parts_of response).
Proof.
  unfold reframeImage_body, try_catch, bind, getAi, gets, ret,
    throw, rethrow_parsed, call.
  cbn.
  destruct (Js.truthy (API_KEY P (Service.world s))); [ | discriminate ].
  resize_call; cbn; [ discriminate | ].
  remote_call Remote; cbn; [ discriminate | ].
  rewrite read_response_pair.
  destruct (payloads (parts_of response)) as [ | first more] eqn:Read.
  - destruct (texts (parts_of response)); cbn; [ discriminate | ].
    match goal with
    | |- context [Js.truthy ?x] => destruct (Js.truthy x)
    end; discriminate.
  - intros E. injection E as <- _.
    split; [ discriminate | ].
    do 4 eexists. split; [ exact Remote | ]. symmetry. exact Read.
Qed.

(** X5.  Unlike the generation from a prompt, which keeps one image, the
    functions that edit, inpaint and reframe return every image payload
    of the response they got, in the order of the response, and at least
    one.  The seed [editImageFromPrompt] returns is the seed it sent with
    the request, and the seed of the caller when there was one.
    [inpaintImage] sends the original and the mask as they are, the mask
    as a PNG, followed by the prompt. *)
Theorem edits_return_every_image :
  (forall masterPrompt image mime seed (s : Sys W) g s',
     editImageFromPrompt P masterPrompt image mime seed s = (inr g, s') ->
     images g <> []
     /\ (forall v, seed = Some v -> Service.seed g = v)
     /\ exists request w response w1,
          generateContent P request w = (inr response, w1)
          /\ req_seed request = Some (Service.seed g)
          /\ images g = payloads (parts_of response))
  /\ (forall original mask mime masterPrompt (s : Sys W) result s',
        inpaintImage P original mask mime masterPrompt s = (inr result, s') ->
        result <> []
        /\ exists request w response w1,
             generateContent P request w = (inr response, w1)
             /\ req_parts request =
                  [ {| inlineData := Some (mime, pure_base64 original);
                       text := None |};
                    {| inlineData := Some ("image/png", pure_base64 mask);
                       text := None |};
                    {| inlineData := None; text := Some masterPrompt |} ]
             /\ result = payloads (parts_of response))
  /\ (forall image mime masterPrompt (s : Sys W) result s',
        reframeImage P image mime masterPrompt s = (inr result, s') ->
        result <> []
        /\ exists request w response w1,
             generateContent P request w = (inr response, w1)
             /\ result = payloads (parts_of response)).
Proof.
  split; [ | split ].
  - intros masterPrompt image mime seed s g s' Run.
    unfold editImageFromPrompt, withApiKeyHandling in Run.
    apply execute_success in Run. destruct Run as [s0 Body].
    exact (editImageFromPrompt_body_success _ _ _ _ _ _ _ Body).
  - intros original mask mime masterPrompt s result s' Run.
    unfold inpaintImage, withApiKeyHandling in Run.
    apply execute_success in Run. destruct Run as [s0 Body].
    exact (inpaintImage_body_success _ _ _ _ _ _ _ Body).
  - intros image mime masterPrompt s result s' Run.
    unfold reframeImage, withApiKeyHandling in Run.
    apply execute_success in Run. destruct Run as [s0 Body].
    exact (reframeImage_body_success _ _ _ _ _ _ Body).
Qed.

Lemma first_payload_truthy (response : Response) img :
  hd_error (payloads (parts_of response)) = Some img ->
  Js.truthy img = true.
Proof.
  unfold payloads.
  induction (parts_of response) as [ | part rest IH]; cbn; [ discriminate | ].
  destruct (inlineData part) as [[mime data] | ]; cbn.
  - intros E. injection E as <-. reflexivity.
  - exact IH.
Qed.

Lemma upscaleImage_body_success image resolution upscalePrompt
    (s : Sys W) result s' :
  upscaleImage_body P image resolution upscalePrompt s = (inr result, s') ->
  exists request w response w1,
    generateContent P request w = (inr response, w1)
    /\ req_parts request =
         [ {| inlineData := Some (mime_of_data_url image, pure_base64 image);
              text := None |};
           {| inlineData := None; text := Some upscalePrompt |} ]
    /\ hd_error (payloads (parts_of response)) = Some result.
Proof.
  unfold upscaleImage_body, try_catch, bind, getAi, gets, ret,
    throw, rethrow_parsed, call.
  cbn.
  destruct (Js.truthy (API_KEY P (Service.world s))); [ | discriminate ].
  remote_call Remote; cbn; [ discriminate | ].
  rewrite read_first_image_head.
  destruct (hd_error (payloads (parts_of response))) as [img | ] eqn:Head;
    cbn.
  - rewrite (first_payload_truthy _ _ Head). cbn.
    intros E. injection E as <- _.
    do 4 eexists. split; [ exact Remote | ].
    split; [ reflexivity | exact Head ].
  - discriminate.
Qed.

Lemma refineImage_body_success image masterPrompt (s : Sys W) result s' :
  refineImage_body P image masterPrompt s = (inr result, s') ->
  exists request w response w1,
    generateContent P request w = (inr response, w1)
    /\ hd_error (payloads (parts_of response)) = Some result.
Proof.
  unfold refineImage_body, try_catch, bind, getAi, gets, ret,
    throw, rethrow_parsed, call.
  cbn.
  destruct (Js.truthy (API_KEY P (Service.world s))); [ | discriminate ].
  resize_call; cbn; [ discriminate | ].
  remote_call Remote; cbn; [ discriminate | ].
  rewrite read_first_image_head.
  destruct (hd_error (payloads (parts_of response))) as [img | ] eqn:Head;
    cbn.
  - rewrite (first_payload_truthy _ _ Head). cbn.
    intros E. injection E as <- _.
    do 4 eexists. split; [ exact Remote | exact Head ].
  - discriminate.
Qed.

(** X6.  [upscaleImage] and [refineImage] return one image: the first
    payload of the response they got, whatever follows it.
    [upscaleImage] sends the image of the caller itself, with the mime
    type read off its data URL, followed by the prompt; the resolution it
    is given plays no part in the request. *)
Theorem upscale_and_refine_return_first_image :
  (forall image resolution upscalePrompt (s : Sys W) result s',
     upscaleImage P image resolution upscalePrompt s = (inr result, s') ->
     exists request w response w1,
       generateContent P request w = (inr response, w1)
       /\ req_parts request =
            [ {| inlineData :=
                   Some (mime_of_data_url image, pure_base64 image);
                 text := None |};
              {| inlineData := None; text := Some upscalePrompt |} ]
       /\ hd_error (payloads (parts_of response)) = Some result)
  /\ (forall image masterPrompt (s : Sys W) result s',
        refineImage P image masterPrompt s = (inr result, s') ->
        exists request w response w1,
          generateContent P request w = (inr response, w1)
          /\ hd_error (payloads (parts_of response)) = Some result).
Proof.
  split.
  - intros image resolution upscalePrompt s result s' Run.
    unfold upscaleImage, withApiKeyHandling in Run.
    apply execute_success in Run. destruct Run as [s0 Body].
    exact (upscaleImage_body_success _ _ _ _ _ _ Body).
  - intros image masterPrompt s result s' Run.
    unfold refineImage, withApiKeyHandling in Run.
    apply execute_success in Run. destruct Run as [s0 Body].
    exact (refineImage_body_success _ _ _ _ _ Body).
Qed.

End ImagingFacts.

(** ** What the caller is told when no image comes back *)

Section RefusalFacts.

Import ApiClient Service Reading Imaging.

Lemma includes_false_weaken s p q :
  Js.includes s p = false -> Js.includes s (p ++ q) = false.
Proof.
  intros Absent. destruct (Js.includes s (p ++ q)) eqn:Found;
    [ | reflexivity ].
  rewrite (includes_append_weaken _ _ _ Found) in Absent. discriminate.
Qed.

(** The error parser leaves a plain refusal as it is, and the retrying
    client does not take it for a missing permission or entity. *)
Lemma plain_refusal_kept refusalText :
  plain_refusal refusalText = true ->
  parseGeminiError (new_Error ("Model refusal: " ++ refusalText))
  = "Model refusal: " ++ refusalText
  /\ reauth_eligible (new_Error ("Model refusal: " ++ refusalText)) = false.
Proof.
  unfold plain_refusal. cbv zeta.
  assert (Js.startsWith ("Model refusal: " ++ refusalText) "Model refusal:"
          = true) as Starts by reflexivity.
  assert (Js.truthy ("Model refusal: " ++ refusalText) = true) as Truthy
    by reflexivity.
  revert Starts Truthy.
  generalize ("Model refusal: " ++ refusalText). intros m Starts Truthy Plain.
  apply negb_true_iff in Plain.
  repeat match type of Plain with
         | (_ || _)%bool = false =>
             apply orb_false_iff in Plain;
             let Last := fresh "Absent" in destruct Plain as [Plain Last]
         end.
  pose proof (includes_false_weaken m "Requested entity was not found" "."
                Plain) as Dot.
  change ("Requested entity was not found" ++ ".")
    with "Requested entity was not found." in Dot.
  split.
  - unfold parseGeminiError. cbv zeta.
    cbn [is_Error new_Error message Js.str_or_empty].
    repeat match goal with
           | H : Js.includes _ _ = false |- _ => rewrite H
           end.
    cbn [orb]. rewrite Starts. reflexivity.
  - unfold reauth_eligible, isPermissionDenied, isNotFound, error_text,
      Js.or_else.
    cbn [is_Error new_Error message Js.str_or_empty status code inner
         inner_code_is Js.num_is].
    rewrite Truthy.
    repeat match goal with
           | H : Js.includes _ _ = false |- _ => rewrite H
           end.
    reflexivity.
Qed.

Context {W : Type}.
Variable P : Platform W.

Lemma answered response request w :
  answers P response ->
  exists w1, generateContent P request w = (inr response, w1).
Proof.
  intros Answers. specialize (Answers request w).
  destruct (generateContent P request w) as [r w1]. cbn in Answers.
  subst r. exists w1. reflexivity.
Qed.

Lemma texts_truthy parts t ts :
  texts parts = t :: ts -> Js.truthy (joined (t :: ts)) = true.
Proof.
  intros Texts.
  assert (In t (texts parts)) as Member by (rewrite Texts; left; reflexivity).
  unfold texts in Member. apply in_flat_map in Member.
  destruct Member as [part [_ Here]].
  destruct (inlineData part); [ contradiction | ].
  destruct (Js.truthy (Js.str_or_empty (text part))) eqn:Truthy;
    [ | contradiction ].
  destruct Here as [<- | []].
  unfold joined. cbn [fold_right].
  destruct (Js.str_or_empty (text part)); [ discriminate | reflexivity ].
Qed.

Ltac answered_call Answers :=
  match goal with
  | |- context [Service.generateContent ?P ?req ?w] =>
      let w1 := fresh "w1" in
      let Remote := fresh "Remote" in
      destruct (answered _ req w Answers) as [w1 Remote]; rewrite Remote
  end.

Ltac run_body Key Answers :=
  unfold try_catch, bind, getAi, gets, ret, throw, rethrow_parsed, call;
  cbn; rewrite Key;
  try match goal with
      | |- context [match ?seed with Some _ => _ | None => _ end] =>
          destruct seed; cbn
      end;
  try match goal with
      | |- context [Service.random_seed ?P ?w] =>
          destruct (Service.random_seed P w); cbn
      end;
  answered_call Answers; cbn.

(** X7.  When the model answers with neither an image nor a text, what
    the caller is told depends on the function.  The internal message of
    the generation from a prompt and of [upscaleImage] mentions safety
    policies, so the error parser replaces it with the message of a
    blocked request; the internal message of [inpaintImage] does not, and
    reaches the caller as an unexpected API error.  In each case one
    content request was made and no key selection was opened. *)
Theorem empty_answer_messages (response : Response) (s : Sys W) :
  Js.truthy (API_KEY P (Service.world s)) = true ->
  answers P response ->
  payloads (parts_of response) = [] ->
  texts (parts_of response) = [] ->
  (forall prompt settings instruction template seed,
     exists request w1,
       generateImagesFromPrompt P prompt settings instruction template seed s
       = (inl (new_Error
            "Your request was blocked due to safety policies. Please adjust your prompt and try again."),
          mkSys w1 (trace s ++ [EvGenerateContent request])))
  /\ (forall image resolution upscalePrompt,
        exists request w1,
          upscaleImage P image resolution upscalePrompt s
          = (inl (new_Error
               "Your request was blocked due to safety policies. Please adjust your prompt and try again."),
             mkSys w1 (trace s ++ [EvGenerateContent request])))
  /\ (forall original mask mime masterPrompt,
        exists request w1,
          inpaintImage P original mask mime masterPrompt s
          = (inl (new_Error
               "An unexpected API error occurred: The model did not return an inpainted image. It may have refused the request."),
             mkSys w1 (trace s ++ [EvGenerateContent request]))).
Proof.
  intros Key Answers NoImage NoText.
  split; [ | split ].
  - intros prompt settings instruction template seed.
    assert (exists request w1,
              generateImagesFromPrompt_body P prompt settings instruction
                template seed s
              = (inl (new_Error
                   "Your request was blocked due to safety policies. Please adjust your prompt and try again."),
                 mkSys w1 (trace s ++ [EvGenerateContent request])))
      as [request [w1 Body]].
    { unfold generateImagesFromPrompt_body. run_body Key Answers;
        rewrite read_response_pair, NoImage, NoText; cbn;
        do 2 eexists; reflexivity. }
    exists request, w1.
    unfold generateImagesFromPrompt, withApiKeyHandling.
    apply execute_final_failure; [ exact Body | vm_compute; reflexivity ].
  - intros image resolution upscalePrompt.
    assert (exists request w1,
              upscaleImage_body P image resolution upscalePrompt s
              = (inl (new_Error
                   "Your request was blocked due to safety policies. Please adjust your prompt and try again."),
                 mkSys w1 (trace s ++ [EvGenerateContent request])))
      as [request [w1 Body]].
    { unfold upscaleImage_body. run_body Key Answers.
      rewrite read_first_image_head.
      rewrite NoImage. cbn. do 2 eexists; reflexivity. }
    exists request, w1.
    unfold upscaleImage, withApiKeyHandling.
    apply execute_final_failure; [ exact Body | vm_compute; reflexivity ].
  - intros original mask mime masterPrompt.
    assert (exists request w1,
              inpaintImage_body P original mask mime masterPrompt s
              = (inl (new_Error
                   "An unexpected API error occurred: The model did not return an inpainted image. It may have refused the request."),
                 mkSys w1 (trace s ++ [EvGenerateContent request])))
      as [request [w1 Body]].
    { unfold inpaintImage_body. run_body Key Answers.
      rewrite read_response_pair, NoImage, NoText; cbn.
      do 2 eexists; reflexivity. }
    exists request, w1.
    unfold inpaintImage, withApiKeyHandling.
    apply execute_final_failure; [ exact Body | vm_compute; reflexivity ].
Qed.

(** X8.  A refusal of the model in ASCII text reaches the caller word for
    word.  When the response carries no image and some text, the text is
    ASCII and matches none of the patterns of the error parser and of the
    retrying client, the generation from a prompt and [inpaintImage]
    reject with "Model refusal: " followed by the texts of the response,
    after one content request and without a key selection.  (The patterns
    are searched in the lower-cased text, which the model computes for
    ASCII text only.) *)
Theorem refusal_reaches_caller (response : Response) (s : Sys W) t ts :
  Js.truthy (API_KEY P (Service.world s)) = true ->
  answers P response ->
  payloads (parts_of response) = [] ->
  texts (parts_of response) = t :: ts ->
  Js.is_ascii (joined (t :: ts)) = true ->
  plain_refusal (joined (t :: ts)) = true ->
  (forall prompt settings instruction template seed,
     exists request w1,
       generateImagesFromPrompt P prompt settings instruction template seed s
       = (inl (new_Error ("Model refusal: " ++ joined (t :: ts))),
          mkSys w1 (trace s ++ [EvGenerateContent request])))
  /\ (forall original mask mime masterPrompt,
        exists request w1,
          inpaintImage P original mask mime masterPrompt s
          = (inl (new_Error ("Model refusal: " ++ joined (t :: ts))),
             mkSys w1 (trace s ++ [EvGenerateContent request]))).
Proof.
  intros Key Answers NoImage Texts Ascii_ Plain.
  pose proof (texts_truthy _ _ _ Texts) as Truthy.
  destruct (plain_refusal_kept _ Plain) as [Kept Final].
  cbn -[joined] in Kept.
  split.
  - intros prompt settings instruction template seed.
    assert (exists request w1,
              generateImagesFromPrompt_body P prompt settings instruction
                template seed s
              = (inl (new_Error ("Model refusal: " ++ joined (t :: ts))),
                 mkSys w1 (trace s ++ [EvGenerateContent request])))
      as [request [w1 Body]].
    { unfold generateImagesFromPrompt_body. run_body Key Answers;
        rewrite read_response_pair, NoImage, Texts;
        cbn [Js.str_or_empty]; rewrite Truthy, Kept;
        do 2 eexists; reflexivity. }
    exists request, w1.
    unfold generateImagesFromPrompt, withApiKeyHandling.
    apply execute_final_failure; [ exact Body | exact Final ].
  - intros original mask mime masterPrompt.
    assert (exists request w1,
              inpaintImage_body P original mask mime masterPrompt s
              = (inl (new_Error ("Model refusal: " ++ joined (t :: ts))),
                 mkSys w1 (trace s ++ [EvGenerateContent request])))
      as [request [w1 Body]].
    { unfold inpaintImage_body. run_body Key Answers.
      rewrite read_response_pair, NoImage, Texts.
      cbn [Js.str_or_empty]. rewrite Truthy, Kept.
      do 2 eexists; reflexivity. }
    exists request, w1.
    unfold inpaintImage, withApiKeyHandling.
    apply execute_final_failure; [ exact Body | exact Final ].
Qed.

End RefusalFacts.

(** ** Combining: every image is loaded first *)

Section CombineOrder.

Import ApiClient Service Reading.

Context {W : Type}.
Variable P : Platform W.

Lemma start_resizes_trace images : forall s : Sys W,
  trace (snd (start_resizes P images s))
  = (trace s ++ resize_events images)%list.
Proof.
  induction images as [ | image rest IH]; intros s; cbn [start_resizes].
  - cbn. rewrite app_nil_r. reflexivity.
  - unfold call.
    destruct (resizeImage P (base64 image) (Service.world s)) as [r w1].
    specialize (IH (mkSys w1 (trace s ++ [EvResizeImage (base64 image)]))).
    destruct (start_resizes P rest
                (mkSys w1 (trace s ++ [EvResizeImage (base64 image)])))
      as [rs s2].
    cbn [snd] in *. rewrite IH. cbn [trace resize_events map].
    rewrite <- app_assoc. reflexivity.
Qed.

(** One run of the body of [combineImages] with a key and 2 to 6 images:
    every image is loaded, then the request is sent when every load
    succeeded. *)
Lemma combineImages_body_run images masterPrompt (s : Sys W) :
  Js.truthy (API_KEY P (Service.world s)) = true ->
  (2 <= length images <= 6)%nat ->
  let loaded := start_resizes P images s in
  match all_settled (fst loaded) with
  | inl e =>
      combineImages_body P images masterPrompt s
      = (inl (new_Error (parseGeminiError e)), snd loaded)
  | inr resizedImages =>
      exists r w1,
        combineImages_body P images masterPrompt s
        = (r, mkSys w1
                (trace (snd loaded)
                 ++ [EvGenerateContent
                       (combine_request resizedImages masterPrompt)]))
  end.
Proof.
  intros Key Count. cbv zeta.
  assert (((length images <? 2)%nat || (6 <? length images)%nat)%bool
          = false) as InRange.
  { apply orb_false_iff. split; apply Nat.ltb_ge; lia. }
  unfold combineImages_body, getAi, resize_all, try_catch, bind, gets, ret, throw,
    rethrow_parsed, call.
  rewrite Key, InRange.
  destruct (start_resizes P images s) as [rs s1]. cbn [fst snd].
  destruct (all_settled rs) as [e | resizedImages]; [ reflexivity | ].
  fold (combine_request resizedImages masterPrompt).
  destruct (generateContent P (combine_request resizedImages masterPrompt)
              (Service.world s1)) as [[e | response] w1];
    cbn -[combine_request].
  - do 2 eexists. reflexivity.
  - destruct (read_response response) as [[ | first more] refusalText].
    + destruct (Js.truthy (Js.str_or_empty refusalText));
        do 2 eexists; reflexivity.
    + do 2 eexists. reflexivity.
Qed.

Lemma combineImages_body_extends images masterPrompt (s : Sys W) :
  exists added,
    trace (snd (combineImages_body P images masterPrompt s))
    = (trace s ++ added)%list.
Proof.
  unfold combineImages_body, getAi, resize_all, try_catch, bind, gets, ret, throw,
    rethrow_parsed, call.
  destruct (Js.truthy (API_KEY P (Service.world s)));
    [ | exists []; cbn; rewrite app_nil_r; reflexivity ].
  destruct ((length images <? 2)%nat || (6 <? length images)%nat)%bool;
    [ exists []; cbn; rewrite app_nil_r; reflexivity | ].
  pose proof (start_resizes_trace images s) as Loads.
  destruct (start_resizes P images s) as [rs s1]. cbn [snd] in Loads.
  destruct (all_settled rs) as [e | resizedImages]; cbn.
  - eexists. exact Loads.
  - match goal with
    | |- context [generateContent P ?req ?w] =>
        destruct (generateContent P req w) as [[e | response] w1]
    end; cbn.
    + eexists. rewrite Loads, <- app_assoc. reflexivity.
    + destruct (read_response response) as [[ | first more] refusalText].
      * destruct (Js.truthy (Js.str_or_empty refusalText)); cbn;
          eexists; rewrite Loads, <- app_assoc; reflexivity.
      * cbn. eexists. rewrite Loads, <- app_assoc. reflexivity.
Qed.

(** A call through the retrying client only adds to the trace of the
    first run of its thunk. *)
Lemma withApiKeyHandling_extends {T} (fn : Io (Sys W) T) (s : Sys W) :
  (forall s0, exists added,
     trace (snd (fn s0)) = (trace s0 ++ added)%list) ->
  exists later,
    trace (snd (withApiKeyHandling P fn s))
    = (trace (snd (fn s)) ++ later)%list
    /\ (later = [] \/ exists more, later = EvOpenSelectKey :: more).
Proof.
  intros Extends.
  unfold withApiKeyHandling, executeWithApiKeyHandling, try_catch, bind,
    gets, throw, call.
  destruct (fn s) as [[e | v] s1];
    [ | exists []; cbn; rewrite app_nil_r; auto ].
  destruct (isPermissionDenied e || isNotFound e)%bool;
    [ | exists []; cbn; rewrite app_nil_r; auto ].
  destruct (aistudio P (Service.world s1));
    [ | exists []; cbn; rewrite app_nil_r; auto ].
  cbn.
  destruct (openSelectKey P (Service.world s1)) as [[e2 | []] w2]; cbn.
  - exists [EvOpenSelectKey]. split; [ reflexivity | right; eauto ].
  - destruct (Extends (mkSys w2 (trace s1 ++ [EvOpenSelectKey])))
      as [added Second].
    destruct (fn (mkSys w2 (trace s1 ++ [EvOpenSelectKey])))
      as [[e3 | v] s3]; cbn in *;
      exists (EvOpenSelectKey :: added);
      (split; [ rewrite Second, <- app_assoc; reflexivity | right; eauto ]).
Qed.

(** X25.  [combineImages] loads every image before anything else.  With
    a key and 2 to 6 images, the first events of a call are the loads of
    all the images for resizing, in the order of the list, also when one
    of the loads fails: the loads are all started before any is awaited.
    When a load failed, the first run of the body makes no content
    request, and what follows the loads, if anything, starts with a key
    selection.  When every load succeeded the next event is the content
    request, whose parts are the resized images in the order of the list,
    each with its payload and mime type, followed by the prompt. *)
Theorem combineImages_loads_every_image_first (images : list ImageData)
    (masterPrompt : string) (s : Sys W) :
  Js.truthy (API_KEY P (Service.world s)) = true ->
  (2 <= length images <= 6)%nat ->
  exists rest,
    trace (snd (combineImages P images masterPrompt s))
    = (trace s ++ resize_events images ++ rest)%list
    /\ match all_settled (fst (start_resizes P images s)) with
       | inl _ => rest = [] \/ exists more, rest = EvOpenSelectKey :: more
       | inr resizedImages =>
           exists more,
             rest =
               EvGenerateContent (combine_request resizedImages masterPrompt)
               :: more
       end.
Proof.
  intros Key Count.
  destruct (withApiKeyHandling_extends
              (combineImages_body P images masterPrompt) s
              (combineImages_body_extends images masterPrompt))
    as (later & Whole & Later).
  pose proof (combineImages_body_run images masterPrompt s Key Count) as Run.
  cbv zeta in Run.
  pose proof (start_resizes_trace images s) as Loads.
  unfold combineImages. rewrite Whole.
  destruct (all_settled (fst (start_resizes P images s)))
    as [e | resizedImages].
  - rewrite Run. cbn [snd]. rewrite Loads.
    exists later. split; [ rewrite <- app_assoc; reflexivity | exact Later ].
  - destruct Run as (r & w1 & Run). rewrite Run. cbn [snd trace].
    rewrite Loads.
    eexists. split; [ rewrite <- !app_assoc; reflexivity | ].
    eexists. reflexivity.
Qed.

End CombineOrder.

Lemma combineImages_loads_every_image_first_witness :
  exists rest,
    Service.trace
      (snd (Service.combineImages lab [png "AAAA"; png "BBBB"] "blend"
              (Service.boot 0%nat)))
    = (Service.trace (Service.boot 0%nat)
       ++ Reading.resize_events [png "AAAA"; png "BBBB"] ++ rest)%list.
Proof.
  destruct (combineImages_loads_every_image_first lab
              [png "AAAA"; png "BBBB"] "blend" (Service.boot 0%nat)
              eq_refl ltac:(cbn; lia)) as (rest & Trace & _).
  exists rest. exact Trace.
Defined.

Lemma service_rejects_without_key_witness :
  Service.generateVideo lab_without_key 3 "a wave" None Service.R16_9 []
    (fun _ => false) (Service.boot 0%nat)
  = (inl Reading.missing_key_rejection, Service.boot 0%nat).
Proof.
  apply (service_rejects_without_key lab_without_key (Service.boot 0%nat)
           eq_refl).
Defined.

Lemma masked_failure_not_retried_witness :
  Service.withApiKeyHandling lab
    (try_catch (throw denied) Service.rethrow_parsed) (Service.boot 0%nat)
  = (inl (new_Error (Service.parseGeminiError denied)) : JsError + Z,
     Service.boot 0%nat).
Proof.
  apply (proj1 (masked_failure_not_retried lab (throw denied)
                  (Service.boot 0%nat) denied (Service.boot 0%nat)
                  eq_refl ltac:(vm_compute; reflexivity))).
Defined.

Lemma edits_return_every_image_witness :
  Service.images
    {| Service.images :=
         ["data:image/png;base64,AAAA"; "data:image/png;base64,BBBB"];
       Service.seed := 7 |} <> [].
Proof.
  apply (proj1
    (proj1 (edits_return_every_image lab) "make it blue"
       "data:image/png;base64,CCCC" "image/png" (Some 7)
       (Service.boot 0%nat)
       {| Service.images :=
            ["data:image/png;base64,AAAA"; "data:image/png;base64,BBBB"];
          Service.seed := 7 |}
       (snd (Imaging.editImageFromPrompt lab "make it blue"
               "data:image/png;base64,CCCC" "image/png" (Some 7)
               (Service.boot 0%nat)))
       ltac:(vm_compute; reflexivity))).
Defined.

Lemma upscale_and_refine_return_first_image_witness :
  exists request w response w1,
    Service.generateContent lab request w = (inr response, w1)
    /\ Service.req_parts request =
         [ {| Service.inlineData := Some ("image/png", "CCCC");
              Service.text := None |};
           {| Service.inlineData := None; Service.text := Some "sharpen" |} ]
    /\ hd_error (Reading.payloads (Reading.parts_of response))
       = Some "data:image/png;base64,AAAA".
Proof.
  apply (proj1 (upscale_and_refine_return_first_image lab)
           "data:image/png;base64,CCCC" Root.X2 "sharpen"
           (Service.boot 0%nat) "data:image/png;base64,AAAA"
           (snd (Imaging.upscaleImage lab "data:image/png;base64,CCCC"
                   Root.X2 "sharpen" (Service.boot 0%nat)))
           ltac:(vm_compute; reflexivity)).
Defined.

Lemma empty_answer_messages_witness :
  exists request w1,
    Imaging.inpaintImage (answering no_parts) "data:image/png;base64,CCCC"
      "data:image/png;base64,DDDD" "image/png" "a hat" (Service.boot 0%nat)
    = (inl (new_Error
         "An unexpected API error occurred: The model did not return an inpainted image. It may have refused the request."),
       Service.mkSys w1
         (Service.trace (Service.boot 0%nat)
          ++ [Service.EvGenerateContent request])).
Proof.
  apply (proj2 (proj2
    (empty_answer_messages (answering no_parts) no_parts (Service.boot 0%nat)
       eq_refl (fun _ _ => eq_refl) eq_refl eq_refl))).
Defined.

Lemma refusal_reaches_caller_witness :
  exists request w1,
    Service.generateImagesFromPrompt (answering refusal) "a cat" four_images
      None " in {{ratio}}" None (Service.boot 0%nat)
    = (inl (new_Error "Model refusal: I cannot draw that."),
       Service.mkSys w1
         (Service.trace (Service.boot 0%nat)
          ++ [Service.EvGenerateContent request])).
Proof.
  apply (proj1
    (refusal_reaches_caller (answering refusal) refusal (Service.boot 0%nat)
       "I cannot draw " ["that."]
       eq_refl (fun _ _ => eq_refl) eq_refl eq_refl
       ltac:(vm_compute; reflexivity) ltac:(vm_compute; reflexivity))).
Defined.

(** ** The undo stack in any position *)

Section StackFacts.

Import Service Vox Undo Stack.

Lemma slice0_prefix {A} (arr : list A) (i : Z) :
  -1 <= i < Z.of_nat (length arr) ->
  slice0 arr (i + 1) = firstn (Z.to_nat (i + 1)) arr
  /\ length (slice0 arr (i + 1)) = Z.to_nat (i + 1).
Proof.
  intros Range. unfold slice0.
  destruct (Z.ltb_spec (i + 1) 0); [ lia | ].
  replace (Z.min (i + 1) (Z.of_nat (length arr))) with (i + 1) by lia.
  split; [ reflexivity | ]. rewrite length_firstn. lia.
Qed.

Lemma tl_snoc {A} (l : list A) (x : A) :
  l <> [] -> tl (l ++ [x]) = (tl l ++ [x])%list.
Proof. destruct l; [ contradiction | reflexivity ]. Qed.

Lemma at_index_snoc {A} (l : list A) (x : A) :
  at_index (l ++ [x]) (Z.of_nat (length l)) = Some x.
Proof.
  unfold at_index. destruct (Z.ltb_spec (Z.of_nat (length l)) 0); [ lia | ].
  rewrite Nat2Z.id, nth_error_app2 by lia.
  rewrite Nat.sub_diag. reflexivity.
Qed.

(** A push started in a render [r] that shows a valid stack: the
    snapshots that [r] shows after its cursor are dropped, the new one is
    appended, the oldest one is dropped when that makes 51, and the
    pending cursor moves up by one unless the oldest was dropped.  When
    the stack and the cursor are still those that [r] showed, the cursor
    ends on the new snapshot. *)
Lemma push_from_anywhere r snapshot st :
  Valid r ->
  let kept := firstn (Z.to_nat (historyIndex r + 1)) (sessionHistory r) in
  let entry := SessionState.mk (fst snapshot) (snd snapshot) in
  let st' := push_from r snapshot st in
  sessionHistory st'
  = (if (length kept =? 50)%nat then tl kept ++ [entry]
     else kept ++ [entry])%list
  /\ historyIndex st'
     = (if (length kept =? 50)%nat then historyIndex st
        else historyIndex st + 1)
  /\ (SameStack r st ->
      AtTail st' /\ current st' = Some entry /\ Valid st').
Proof.
  intros [Range Bound]. cbv zeta.
  destruct (slice0_prefix (sessionHistory r) (historyIndex r) Range)
    as [Slice Len].
  assert (length (firstn (Z.to_nat (historyIndex r + 1)) (sessionHistory r))
          = Z.to_nat (historyIndex r + 1)) as Kept
    by (rewrite <- Slice; exact Len).
  unfold push_from, pushToSessionHistory, AtTail, current, Valid, SameStack.
  rewrite Slice. cbn [fst snd].
  set (kept := firstn (Z.to_nat (historyIndex r + 1)) (sessionHistory r))
    in *.
  set (entry := SessionState.mk (fst snapshot) (snd snapshot)).
  rewrite length_app. cbn [length]. unfold MAX_SESSION_HISTORY.
  destruct (Z.ltb_spec 50 (Z.of_nat (length kept + 1))) as [Full | Room].
  - assert (length kept = 50%nat) as Fifty by lia.
    rewrite Fifty. cbn [Nat.eqb].
    cbn [sessionHistory setSessionHistory historyIndex].
    assert (kept <> []) as Some_ by (intros E; rewrite E in Fifty; discriminate).
    rewrite (tl_snoc _ _ Some_).
    assert (length (tl kept) = 49%nat) as FortyNine.
    { destruct kept; [ contradiction | cbn in *; lia ]. }
    assert (historyIndex r = 49) as Cursor by lia.
    rewrite length_app. cbn [length]. rewrite FortyNine.
    split; [ reflexivity | ]. split; [ reflexivity | ].
    intros [_ Same]. rewrite <- Same, Cursor.
    split; [ reflexivity | ].
    split; [ | cbn; lia ].
    change 49 with (Z.of_nat 49). rewrite <- FortyNine.
    apply at_index_snoc.
  - destruct (Nat.eqb_spec (length kept) 50); [ lia | ].
    cbn [sessionHistory setSessionHistory historyIndex setHistoryIndex].
    rewrite length_app. cbn [length].
    split; [ reflexivity | ]. split; [ reflexivity | ].
    intros [_ Same]. rewrite <- Same.
    split; [ lia | ].
    split; [ | lia ].
    replace (historyIndex r + 1) with (Z.of_nat (length kept)) by lia.
    apply at_index_snoc.
Qed.

Lemma same_stack_valid r st : SameStack r st -> Valid st -> Valid r.
Proof.
  intros [Stack Cursor]. unfold Valid. rewrite Stack, Cursor. tauto.
Qed.

Lemma undo_valid st : Valid st -> Valid (undo st).
Proof.
  intros [Range Bound]. unfold Valid.
  rewrite undo_sessionHistory, undo_historyIndex.
  destruct (Z.ltb_spec 0 (historyIndex st)); [ lia | ].
  destruct (Z.eqb_spec (historyIndex st) 0); lia.
Qed.

Lemma redo_historyIndex st :
  historyIndex (redo st) =
  if historyIndex st <? Z.of_nat (length (sessionHistory st)) - 1
  then historyIndex st + 1 else historyIndex st.
Proof.
  unfold redo, dispatch, handleRedo.
  destruct (historyIndex st <? Z.of_nat (length (sessionHistory st)) - 1).
  - rewrite (proj2 (restore_stack _ _ _)). reflexivity.
  - reflexivity.
Qed.

Lemma redo_valid st : Valid st -> Valid (redo st).
Proof.
  intros [Range Bound]. unfold Valid.
  rewrite redo_sessionHistory, redo_historyIndex.
  destruct (Z.ltb_spec (historyIndex st)
              (Z.of_nat (length (sessionHistory st)) - 1)); lia.
Qed.

Lemma at_index_valid {A} (arr : list A) i :
  0 <= i < Z.of_nat (length arr) -> exists x, at_index arr i = Some x.
Proof.
  intros Range. unfold at_index.
  destruct (Z.ltb_spec i 0); [ lia | ].
  destruct (nth_error arr (Z.to_nat i)) as [x | ] eqn:Nth;
    [ exists x; reflexivity | ].
  apply nth_error_None in Nth. lia.
Qed.

Lemma run_valid actions : forall st,
  Valid st -> InTurn actions st -> Valid (run actions st).
Proof.
  induction actions as [ | a rest IH]; intros st Ok Turns; [ exact Ok | ].
  destruct Turns as [Same Rest].
  cbn [run fold_left]. apply IH; [ | exact Rest ].
  destruct a as [r snapshot | | ]; cbn [act].
  - apply (push_from_anywhere r snapshot st (same_stack_valid r st Same Ok)).
    exact Same.
  - apply undo_valid. exact Ok.
  - apply redo_valid. exact Ok.
Qed.

(** X9.  Pushes, undos and redos, in any number and order, keep a valid
    undo stack valid, provided that no push overlaps another action on
    the stack: each push is applied to the stack and the cursor that the
    render showed in which its action was started.  The cursor is then
    [-1] or points at a stored snapshot, and never more than 50 snapshots
    are stored.  In the state they reach, undo and redo find the entry
    they restore, so neither stops on an undefined entry; undo at the
    empty state and redo at the newest snapshot leave the page as it is.
    (Pushes that overlap can leave the cursor beyond the stack, see
    [overlapping_pushes_scenario].) *)
Theorem undo_stack_stays_valid (actions : list Action) (st : VoxState) :
  Valid st -> InTurn actions st ->
  let st' := run actions st in
  Valid st'
  /\ (0 < historyIndex st' ->
      exists entry,
        at_index (sessionHistory st') (historyIndex st' - 1) = Some entry)
  /\ (historyIndex st' < Z.of_nat (length (sessionHistory st')) - 1 ->
      exists entry,
        at_index (sessionHistory st') (historyIndex st' + 1) = Some entry)
  /\ (historyIndex st' = -1 -> undo st' = st')
  /\ (AtTail st' -> redo st' = st').
Proof.
  intros Start Turns. cbv zeta.
  pose proof (run_valid actions st Start Turns) as Ok.
  split; [ exact Ok | ].
  destruct Ok as [Range Bound].
  split; [ intros Back; apply at_index_valid; lia | ].
  split; [ intros Forth; apply at_index_valid; lia | ].
  split.
  - intros Empty_. unfold undo, dispatch, handleUndo. rewrite Empty_.
    reflexivity.
  - intros Tail. unfold redo, dispatch, handleRedo. rewrite Tail.
    rewrite Z.ltb_irrefl. reflexivity.
Qed.

(** X10.  A push discards the redo branch of the render it was started
    in.  Whatever happened since that render, the stored snapshots after
    the push are those the render showed up to its cursor followed by the
    new one (without the oldest when that makes 51), and the pending
    cursor is moved up by one, or left when the oldest was dropped.  When
    the stack and the cursor are still those the render showed, also in
    the middle of the stack after some undos, the cursor is on the new
    snapshot and a redo finds nothing to restore: it leaves the page as
    it is.  (When another push landed in between, the cursor can end
    beyond the stack, see [overlapping_pushes_scenario].) *)
Theorem push_discards_redo_branch r snapshot st :
  Valid r ->
  let kept := firstn (Z.to_nat (historyIndex r + 1)) (sessionHistory r) in
  let entry := SessionState.mk (fst snapshot) (snd snapshot) in
  let st' := push_from r snapshot st in
  sessionHistory st'
  = (if (length kept =? 50)%nat then tl kept ++ [entry]
     else kept ++ [entry])%list
  /\ historyIndex st'
     = (if (length kept =? 50)%nat then historyIndex st
        else historyIndex st + 1)
  /\ (SameStack r st ->
      current st' = Some entry
      /\ historyIndex st' = Z.of_nat (length (sessionHistory st')) - 1
      /\ redo st' = st').
Proof.
  intros Ok. cbv zeta.
  destruct (push_from_anywhere r snapshot st Ok) as (Stack & Cursor & Turn).
  split; [ exact Stack | ]. split; [ exact Cursor | ].
  intros Same. destruct (Turn Same) as (Tail & Cur & _).
  split; [ exact Cur | ]. split; [ exact Tail | ].
  unfold redo, dispatch, handleRedo. unfold AtTail in Tail. rewrite Tail.
  rewrite Z.ltb_irrefl. reflexivity.
Qed.

(** X11.  The round trip the other way, and at the first snapshot.  On a
    valid stack with a snapshot after the cursor, redo followed by undo
    brings the cursor back over an unchanged stack; the page then shows
    the prompt of the snapshot under the cursor, or, when the cursor is
    back at [-1], an empty prompt and no image. *)
Theorem redo_undo_round_trip (st : VoxState) :
  Valid st ->
  historyIndex st < Z.of_nat (length (sessionHistory st)) - 1 ->
  let st' := undo (redo st) in
  historyIndex st' = historyIndex st
  /\ sessionHistory st' = sessionHistory st
  /\ (forall snap, current st = Some snap ->
        prompt st' = SessionState.prompt snap)
  /\ (historyIndex st = -1 ->
        prompt st' = EmptyString /\ currentImage st' = None).
Proof.
  intros [Range Bound] Forth. cbv zeta.
  pose proof (redo_historyIndex st) as Step.
  destruct (Z.ltb_spec (historyIndex st)
              (Z.of_nat (length (sessionHistory st)) - 1)); [ | lia ].
  pose proof (redo_sessionHistory st) as Same.
  split.
  { rewrite undo_historyIndex, Step.
    destruct (Z.ltb_spec 0 (historyIndex st + 1)); [ lia | ].
    destruct (Z.eqb_spec (historyIndex st + 1) 0); lia. }
  split; [ rewrite undo_sessionHistory; exact Same | ].
  split.
  - intros snap Cur. unfold current in Cur.
    pose proof (at_index_in_range _ _ _ Cur) as In.
    unfold undo, dispatch, handleUndo. rewrite Step, Same.
    destruct (Z.ltb_spec 0 (historyIndex st + 1)); [ | lia ].
    replace (historyIndex st + 1 - 1) with (historyIndex st) by lia.
    rewrite Cur. reflexivity.
  - intros Empty_.
    unfold undo, dispatch, handleUndo. rewrite Step, Empty_.
    cbn [Z.add Z.ltb Z.eqb Z.compare Z.opp Pos.compare Z.pos_sub].
    cbn. split; [ reflexivity | ].
    unfold updateCurrentImage.
    destruct (Js.truthy (Js.str_or_empty (currentVideoUrl (redo st))));
      reflexivity.
Qed.

End StackFacts.

Ltac valid_by_computation :=
  unfold Stack.Valid;
  split; [ split; [ apply Z.leb_le | apply Z.ltb_lt ] | apply Nat.leb_le ];
  vm_compute; reflexivity.

Lemma undo_stack_stays_valid_witness :
  Stack.Valid (Stack.run stack_actions Vox.initial).
Proof.
  apply (undo_stack_stays_valid stack_actions Vox.initial).
  - valid_by_computation.
  - cbn. repeat split.
Defined.

Lemma push_discards_redo_branch_witness :
  Undo.redo
    (Undo.push_from (Undo.undo two_snapshots) (None, "a bird")
       (Undo.undo two_snapshots))
  = Undo.push_from (Undo.undo two_snapshots) (None, "a bird")
      (Undo.undo two_snapshots).
Proof.
  apply (push_discards_redo_branch (Undo.undo two_snapshots)
           (None, "a bird") (Undo.undo two_snapshots)).
  - valid_by_computation.
  - split; reflexivity.
Defined.

Lemma redo_undo_round_trip_witness :
  Vox.historyIndex (Undo.undo (Undo.redo (Undo.undo two_snapshots))) = 0.
Proof.
  apply (redo_undo_round_trip (Undo.undo two_snapshots)).
  - valid_by_computation.
  - apply Z.ltb_lt. vm_compute. reflexivity.
Defined.

(** ** Numbers written to the storage and read back *)

Section NumeralFacts.

Import Quota Numeral.

Lemma parse_digits_uint d : forall acc,
  parse_digits 10 (NilEmpty.string_of_uint d) acc true
  = Int (uint_value d acc).
Proof.
  induction d; intros acc; cbn [NilEmpty.string_of_uint uint_value];
    [ reflexivity | .. ];
    cbn [parse_digits]; apply IHd.
Qed.

Lemma uint_value_pos d : forall a,
  uint_value d (Z.pos a) = Z.pos (Pos.of_uint_acc d a).
Proof.
  induction d; intros a; cbn [uint_value Pos.of_uint_acc];
    [ reflexivity | .. ];
    rewrite <- IHd; f_equal; lia.
Qed.

Lemma uint_value_zero d : uint_value d 0 = Z.of_N (Pos.of_uint d).
Proof.
  induction d; cbn [uint_value Pos.of_uint]; [ reflexivity | exact IHd | .. ];
    cbn [Z.mul Z.add]; rewrite uint_value_pos; reflexivity.
Qed.

Ltac eval_chars :=
  repeat match goal with
         | |- context [Js.is_space ?c] =>
             let b := eval vm_compute in (Js.is_space c) in
             change (Js.is_space c) with b
         | |- context [Js.is_ascii_char ?c] =>
             let b := eval vm_compute in (Js.is_ascii_char c) in
             change (Js.is_ascii_char c) with b
         | |- context [digit_value ?c] =>
             let b := eval vm_compute in (digit_value c) in
             change (digit_value c) with b
         end.

Lemma parseInt_uint d :
  d <> Decimal.Nil ->
  parseInt (NilEmpty.string_of_uint d) 0 = Int (uint_value d 0)
  /\ parseInt (String "-" (NilEmpty.string_of_uint d)) 0
     = Int (- uint_value d 0).
Proof.
  intros Digits.
  destruct d as [ | l | l | l | l | l | l | l | l | l | l ];
    [ contradiction | .. ].
  2-10: split; unfold parseInt; cbn [NilEmpty.string_of_uint Js.trimStart];
    eval_chars; cbn; eval_chars; cbn;
    rewrite parse_digits_uint; reflexivity.
  assert (match NilEmpty.string_of_uint l with
          | EmptyString => None
          | String x r =>
              if (Ascii.eqb x "x" || Ascii.eqb x "X")%bool
              then Some r else None
          end = None) as NoPrefix.
  { destruct l; reflexivity. }
  split; unfold parseInt; cbn [NilEmpty.string_of_uint Js.trimStart];
    eval_chars; cbn; eval_chars; cbn;
    rewrite NoPrefix, parse_digits_uint; reflexivity.
Qed.

(** What [toString] writes, [parseInt] reads back. *)
Lemma parseInt_toString (n : Z) : parseInt (Js.toString n) 0 = Int n.
Proof.
  unfold Js.toString.
  destruct n as [ | p | p ]; [ reflexivity | | ].
  - cbn [Z.to_int NilZero.string_of_int].
    pose proof (Unsigned.to_uint_nonnil p) as Digits.
    replace (NilZero.string_of_uint (Pos.to_uint p))
      with (NilEmpty.string_of_uint (Pos.to_uint p))
      by (destruct (Pos.to_uint p); [ contradiction | reflexivity .. ]).
    rewrite (proj1 (parseInt_uint _ Digits)), uint_value_zero,
      Unsigned.of_to.
    reflexivity.
  - cbn [Z.to_int NilZero.string_of_int].
    pose proof (Unsigned.to_uint_nonnil p) as Digits.
    replace (NilZero.string_of_uint (Pos.to_uint p))
      with (NilEmpty.string_of_uint (Pos.to_uint p))
      by (destruct (Pos.to_uint p); [ contradiction | reflexivity .. ]).
    rewrite (proj2 (parseInt_uint _ Digits)), uint_value_zero,
      Unsigned.of_to.
    reflexivity.
Qed.

Lemma toString_truthy (n : Z) : Js.truthy (Js.toString n) = true.
Proof.
  unfold Js.toString.
  destruct n as [ | p | p ]; [ reflexivity | | reflexivity ].
  cbn [Z.to_int NilZero.string_of_int].
  pose proof (Unsigned.to_uint_nonnil p) as Digits.
  destruct (Pos.to_uint p); [ contradiction | reflexivity .. ].
Qed.

End NumeralFacts.

(** ** The quota across reloads, and the tokens *)

Section ReloadFacts.

Import Service Vox Quota Persist.

Context {W : Type}.
Variable getItem : string -> W -> option string.
Variable setItem : string -> string -> Io W unit.
Variable toDateString : W -> string.

Local Abbreviation quota_effect :=
  (Quota.quota_effect getItem setItem toDateString).

(** X12.  The quota on a new day.  When the stored date is missing or is
    not the date of today, the effect that runs at mount sets the quota
    to 3, whatever it was and whatever was stored, and writes the date
    and then the quota "3"; the quota is 3 also when a write fails.  When
    both writes succeed and the storage keeps what is written, running
    the effect once more on that day writes nothing and leaves the quota
    at the stored 3. *)
Theorem quota_resets_on_new_day (m : Mount W) :
  differs (getItem "vox_quota_date" (Quota.world m))
    (toDateString (Quota.world m)) = true ->
  Quota.videoQuota (snd (quota_effect m)) = Int 3
  /\ (forall w1 w2,
        setItem "vox_quota_date" (toDateString (Quota.world m))
          (Quota.world m) = (inr tt, w1) ->
        setItem "vox_video_quota" "3" w1 = (inr tt, w2) ->
        quota_effect m = (inr tt, mkMount (Int 3) w2)
        /\ (keeps getItem setItem toDateString ->
            forall q,
              quota_effect (mkMount q w2) = (inr tt, mkMount (Int 3) w2))).
Proof.
  intros NewDay.
  unfold Quota.quota_effect, bind, gets, setVideoQuota, localStorage, modify,
    ret.
  cbn. rewrite NewDay. cbn.
  split.
  - destruct (setItem "vox_quota_date" _ (Quota.world m)) as [[e | []] w1];
      cbn; [ reflexivity | ].
    destruct (setItem "vox_video_quota" _ w1) as [[e | []] w2]; reflexivity.
  - intros w1 w2 Date Stored.
    rewrite Date. cbn.
    change (Js.toString DAILY_FREE_QUOTA) with "3". rewrite Stored. cbn.
    split; [ reflexivity | ].
    intros Keeps q.
    destruct (Keeps _ _ _ _ Date) as (DateRead & _ & Today1).
    destruct (Keeps _ _ _ _ Stored) as (QuotaRead & Others & Today2).
    rewrite (Others "vox_quota_date") by discriminate.
    rewrite DateRead, Today2, Today1.
    unfold differs. rewrite String.eqb_refl. cbn.
    rewrite QuotaRead. reflexivity.
Qed.

(** X13.  The quota survives a reload.  When the storage keeps what is
    written and the stored date is the date of today, then after
    [updateQuota] has written a quota [n] that is a safe integer, as a
    charged attempt and an accepted token do, the effect that runs at the
    next mount reads [n] back, whatever the quota of the fresh page was,
    and writes nothing: [toString] wrote the decimal digits of [n], and
    [parseInt] reads them. *)
Theorem quota_survives_reload (pg pg' : Page W) (n : Z) :
  Js.isSafeInteger n = true ->
  keeps getItem setItem toDateString ->
  getItem "vox_quota_date" (Vox.world pg) = Some (toDateString (Vox.world pg)) ->
  updateQuota setItem n pg = (inr tt, pg') ->
  Vox.videoQuota (view pg') = n
  /\ forall q,
       quota_effect (mkMount q (Vox.world pg'))
       = (inr tt, mkMount (Int n) (Vox.world pg')).
Proof.
  intros Safe Keeps Today.
  unfold updateQuota, update_view, outside, bind, modify. cbn.
  destruct (setItem "vox_video_quota" (Js.toString n) (Vox.world pg))
    as [[e | []] w1] eqn:Write; [ discriminate | ].
  intros E. injection E as <-. cbn.
  split; [ reflexivity | ].
  intros q.
  destruct (Keeps _ _ _ _ Write) as (QuotaRead & Others & SameDay).
  unfold Quota.quota_effect, bind, gets, setVideoQuota, modify, ret. cbn.
  rewrite (Others "vox_quota_date") by discriminate.
  rewrite Today, SameDay. unfold differs. rewrite String.eqb_refl. cbn.
  rewrite QuotaRead. cbn [Js.str_or_empty].
  rewrite toString_truthy, parseInt_toString. reflexivity.
Qed.

End ReloadFacts.

Section TokenFacts.

Import Service Vox Quota Persist.

Lemma upper_lower_ascii c : upper_ascii (Js.lower_ascii c) = upper_ascii c.
Proof.
  destruct c as [[] [] [] [] [] [] [] []]; vm_compute; reflexivity.
Qed.

Lemma upper_upper_ascii c : upper_ascii (upper_ascii c) = upper_ascii c.
Proof.
  destruct c as [[] [] [] [] [] [] [] []]; vm_compute; reflexivity.
Qed.

Lemma toUpperCase_toLowerCase s :
  toUpperCase (Js.toLowerCase s) = toUpperCase s.
Proof.
  induction s as [ | c s IH]; [ reflexivity | ].
  cbn [Js.toLowerCase toUpperCase]. rewrite upper_lower_ascii, IH.
  reflexivity.
Qed.

Lemma toUpperCase_idempotent s : toUpperCase (toUpperCase s) = toUpperCase s.
Proof.
  induction s as [ | c s IH]; [ reflexivity | ].
  cbn [toUpperCase]. rewrite upper_upper_ascii, IH. reflexivity.
Qed.

Lemma validTokens_values key value :
  validTokens key = Some value ->
  (key = "VEO-FAST" /\ value = 5)
  \/ (key = "GEMINI-VIDEO" /\ value = 10)
  \/ (key = "VXDL-PRO" /\ value = 20)
  \/ (key = "DEMO-123" /\ value = 3).
Proof.
  unfold validTokens.
  destruct (String.eqb_spec key "VEO-FAST");
    [ intros E; injection E as <-; auto | ].
  destruct (String.eqb_spec key "GEMINI-VIDEO");
    [ intros E; injection E as <-; auto | ].
  destruct (String.eqb_spec key "VXDL-PRO");
    [ intros E; injection E as <-; auto | ].
  destruct (String.eqb_spec key "DEMO-123");
    [ intros E; injection E as <-; auto 6 | ].
  discriminate.
Qed.

Context {W : Type}.
Variable setItem : string -> string -> Io W unit.

Local Abbreviation redeem := (Quota.redeem setItem).

Lemma redeem_quota (token : string) (pg : Page W) :
  Vox.videoQuota (view (snd (redeem token pg))) = Vox.videoQuota (view pg)
  \/ Vox.videoQuota (view pg) + 3
     <= Vox.videoQuota (view (snd (redeem token pg))).
Proof.
  unfold Quota.redeem, handleRedeemToken.
  destruct (validTokens (toUpperCase token)) as [value | ] eqn:Table;
    [ | left; reflexivity ].
  destruct (negb (value =? 0)); [ | left; reflexivity ].
  right.
  unfold updateQuota, update_view, outside, bind, modify, ret. cbn.
  destruct (setItem "vox_video_quota" _ (Vox.world pg)) as [[e | []] w1];
    cbn;
    destruct (validTokens_values _ _ Table)
      as [[_ ->] | [[_ ->] | [[_ ->] | [_ ->]]]]; lia.
Qed.

(** X14.  Redeeming a token typed in ASCII.  Such a token is accepted
    exactly when, in upper case, it is one of the four codes of the
    table, so the letter case of what was typed plays no part.  A token
    that is not accepted gives
    [false] and leaves the page and the storage as they are, with no call
    made.  An accepted token raises the quota of the page by the value of
    its code (5, 10, 20 or 3) and writes the new quota to the storage,
    which is the only call made; the answer is [true] when the write
    succeeded, and when it threw, the handler throws with the quota
    already raised. *)
Theorem redeem_adds_table_value (token : string) (pg : Page W) :
  Js.is_ascii token = true ->
  redeem (Js.toLowerCase token) pg = redeem token pg
  /\ redeem (toUpperCase token) pg = redeem token pg
  /\ match validTokens (toUpperCase token) with
     | None => redeem token pg = (inr false, pg)
     | Some value =>
         let raised := Vox.videoQuota (view pg) + value in
         (value = 5 \/ value = 10 \/ value = 20 \/ value = 3)
         /\ Vox.videoQuota (view (snd (redeem token pg))) = raised
         /\ events (snd (redeem token pg))
            = (events pg
               ++ [EvSetItem "vox_video_quota" (Js.toString raised)])%list
         /\ match setItem "vox_video_quota" (Js.toString raised)
                    (Vox.world pg) with
            | (inr _, w1) =>
                fst (redeem token pg) = inr true
                /\ Vox.world (snd (redeem token pg)) = w1
            | (inl e, w1) =>
                fst (redeem token pg) = inl e
                /\ Vox.world (snd (redeem token pg)) = w1
            end
     end.
Proof.
  intros Ascii_.
  unfold Quota.redeem, handleRedeemToken.
  rewrite toUpperCase_toLowerCase, toUpperCase_idempotent.
  split; [ reflexivity | ]. split; [ reflexivity | ].
  destruct (validTokens (toUpperCase token)) as [value | ] eqn:Table;
    [ | reflexivity ].
  cbv zeta.
  assert (value = 5 \/ value = 10 \/ value = 20 \/ value = 3) as Value.
  { destruct (validTokens_values _ _ Table)
      as [[_ ->] | [[_ ->] | [[_ ->] | [_ ->]]]]; auto. }
  split; [ exact Value | ].
  assert (negb (value =? 0) = true) as NonZero.
  { destruct Value as [-> | [-> | [-> | ->]]]; reflexivity. }
  rewrite NonZero.
  unfold updateQuota, update_view, outside, bind, modify, ret. cbn.
  destruct (setItem "vox_video_quota" _ (Vox.world pg)) as [[e | []] w1];
    cbn; repeat split.
Qed.

Variable getActiveAspectRatio : W -> AspectRatio.
Variable generateVideo : string -> ImageData -> AspectRatio -> Io W string.
Variable addToHistory : string -> string -> W -> W.

Local Abbreviation act :=
  (Persist.act setItem getActiveAspectRatio generateVideo addToHistory).
Local Abbreviation run :=
  (Persist.run setItem getActiveAspectRatio generateVideo addToHistory).

Lemma act_quota (pg : Page W) (a : Action) :
  match a with
  | Animate _ =>
      Vox.videoQuota (view (act pg a)) = Vox.videoQuota (view pg)
      \/ (0 < Vox.videoQuota (view pg)
          /\ Vox.videoQuota (view (act pg a)) = Vox.videoQuota (view pg) - 1)
  | Submit _ =>
      Vox.videoQuota (view (act pg a)) = Vox.videoQuota (view pg)
      \/ Vox.videoQuota (view pg) + 3 <= Vox.videoQuota (view (act pg a))
  end.
Proof.
  destruct a as [motionPrompt | token]; cbn [Persist.act].
  - pose proof (attempt_cases setItem getActiveAspectRatio generateVideo
                  addToHistory motionPrompt pg) as Cases.
    destruct (currentImage (view pg)) as [img | ].
    + cbv zeta in Cases.
      destruct (Z.leb_spec (Vox.videoQuota (view pg)) 0) as [Low | High].
      * rewrite Cases. left. reflexivity.
      * destruct Cases as (out & Run & Quota_ & _). rewrite Run.
        right. split; [ exact High | exact Quota_ ].
    + rewrite Cases. left. reflexivity.
  - exact (redeem_quota token pg).
Qed.

(** X15.  The quota is never negative.  Whatever the user does, presses
    on the animate button and tokens submitted in any number and order, a
    quota that is not negative stays so, whether the storage writes and
    the remote calls succeed or fail.  A press takes one unit or nothing,
    and takes nothing at a quota of zero; a token adds at least 3 or
    nothing. *)
Theorem quota_never_negative (actions : list Action) (pg : Page W) :
  0 <= Vox.videoQuota (view pg) ->
  0 <= Vox.videoQuota (view (run actions pg))
  /\ (forall motionPrompt,
        let q := Vox.videoQuota (view (run actions pg)) in
        let q' := Vox.videoQuota
                    (view (act (run actions pg) (Animate motionPrompt))) in
        (q' = q \/ q' = q - 1) /\ (q = 0 -> q' = 0))
  /\ (forall token,
        let q := Vox.videoQuota (view (run actions pg)) in
        let q' := Vox.videoQuota
                    (view (act (run actions pg) (Submit token))) in
        q' = q \/ q + 3 <= q').
Proof.
  intros Start.
  assert (forall acts (p : Page W),
            0 <= Vox.videoQuota (view p) ->
            0 <= Vox.videoQuota (view (run acts p))) as Invariant.
  { induction acts as [ | a rest IH]; intros p Ok; [ exact Ok | ].
    cbn [Persist.run fold_left]. apply IH.
    pose proof (act_quota p a) as Step.
    destruct a; destruct Step as [Same | Moved]; lia. }
  split; [ apply Invariant; exact Start | ].
  split.
  - intros motionPrompt. cbv zeta.
    pose proof (act_quota (run actions pg) (Animate motionPrompt)) as Step.
    cbn beta iota in Step. split; [ | intros Zero ]; lia.
  - intros token. cbv zeta.
    exact (act_quota (run actions pg) (Submit token)).
Qed.

End TokenFacts.

Lemma stored_keeps : Persist.keeps stored keep_setItem (fun _ => today).
Proof.
  intros key value w w' Write. unfold keep_setItem in Write.
  injection Write as <-. cbn [stored]. rewrite String.eqb_refl.
  split; [ reflexivity | ]. split; [ | reflexivity ].
  intros other Other.
  destruct (String.eqb_spec key other); [ congruence | reflexivity ].
Qed.

Lemma quota_resets_on_new_day_witness :
  Quota.videoQuota
    (snd (Quota.quota_effect stored keep_setItem (fun _ => today)
            (Quota.mkMount (Quota.Int 0) [("vox_quota_date", "Mon Nov 02 2026")])))
  = Quota.Int 3.
Proof.
  apply (quota_resets_on_new_day stored keep_setItem (fun _ => today)
           (Quota.mkMount (Quota.Int 0)
              [("vox_quota_date", "Mon Nov 02 2026")])
           eq_refl).
Defined.

Lemma quota_survives_reload_witness :
  Quota.quota_effect stored keep_setItem (fun _ => today)
    (Quota.mkMount (Quota.Int 3)
       (Vox.world (snd (Vox.updateQuota keep_setItem 1 (dated_page 2)))))
  = (inr tt,
     Quota.mkMount (Quota.Int 1)
       (Vox.world (snd (Vox.updateQuota keep_setItem 1 (dated_page 2))))).
Proof.
  apply (proj2
    (quota_survives_reload stored keep_setItem (fun _ => today)
       (dated_page 2)
       (snd (Vox.updateQuota keep_setItem 1 (dated_page 2))) 1
       eq_refl stored_keeps eq_refl eq_refl)).
Defined.

Lemma redeem_adds_table_value_witness :
  Vox.videoQuota
    (Vox.view (snd (Quota.redeem keep_setItem "demo-123" (dated_page 2))))
  = 5
  /\ Vox.events (snd (Quota.redeem keep_setItem "demo-123" (dated_page 2)))
     = [Vox.EvSetItem "vox_video_quota" "5"].
Proof.
  destruct (redeem_adds_table_value keep_setItem "demo-123" (dated_page 2)
              eq_refl) as (_ & _ & Table).
  exact (conj (proj1 (proj2 Table)) (proj1 (proj2 (proj2 Table)))).
Defined.

Lemma quota_never_negative_witness :
  0 <= Vox.videoQuota
         (Vox.view
            (Persist.run keep_setItem (fun _ => Service.R16_9) video_fails
               (fun _ _ w => w)
               [Persist.Animate "pan left"; Persist.Animate "pan right";
                Persist.Animate "zoom"; Persist.Submit "demo-123";
                Persist.Animate "tilt"]
               (page_with_quota 2))).
Proof.
  apply (quota_never_negative keep_setItem (fun _ => Service.R16_9)
           video_fails (fun _ _ w => w)
           [Persist.Animate "pan left"; Persist.Animate "pan right";
            Persist.Animate "zoom"; Persist.Submit "demo-123";
            Persist.Animate "tilt"]
           (page_with_quota 2)).
  cbn. lia.
Defined.

(** ** Deleting and updating records of the history *)

Section RecordFacts.

Import Root Activity Session.

Context {W : Type}.
Variable LS : Storage W.

Lemma saveHistory_outcome (h : list HistoryItem) (st : State W) :
  exists after,
    saveHistory LS h st = (inr (Some tt), after)
    /\ (Abandoned st after
        \/ ((exists n, history after = firstn n h)
            /\ (h = [] -> history after = []))).
Proof.
  unfold saveHistory.
  destruct (save_loop_outcome LS (length h) h st (le_n _))
    as (after & Run & [S | [C | A]]); exists after; (split; [ exact Run | ]).
  - right. destruct S as (NonEmpty & [n Pre] & _).
    split; [ exists n; exact Pre | ].
    intros ->. rewrite firstn_nil in Pre. contradiction.
  - right. destruct C as [Nil _].
    split; [ exists 0%nat; rewrite Nil; reflexivity | intros _; exact Nil ].
  - left. exact A.
Qed.

Lemma saveHistory_accepted (h : list HistoryItem) (st : State W) :
  h <> [] ->
  (forall w, exists w', setItem LS h w = (inr tt, w')) ->
  exists after,
    saveHistory LS h st = (inr (Some tt), after)
    /\ history after = h /\ console after = console st.
Proof.
  intros NonEmpty Accepts. unfold saveHistory.
  destruct (save_loop_fits LS (length h) h st (length h) (le_n _))
    as (after & Run & Hist & Log).
  - destruct h; [ contradiction | cbn; lia ].
  - intros n w Range. lia.
  - intros w. rewrite firstn_all. apply Accepts.
  - exists after. rewrite firstn_all in Hist. auto.
Qed.

Lemma in_firstn {A} (x : A) n (l : list A) : In x (firstn n l) -> In x l.
Proof.
  revert l. induction n as [ | n IH]; intros l; [ contradiction | ].
  destruct l as [ | y l]; [ contradiction | ].
  cbn. intros [-> | Later]; [ left; reflexivity | right; apply IH; exact Later ].
Qed.

(** X16.  Deleting records.  [deleteHistoryItems] never throws and ends
    in one of two ways.  Either a write failed for another reason than
    capacity: the failure is logged and the history is as before, the
    records to delete included.  Or the history is a prefix of the old
    history without the records to delete: none of their ids is left,
    nothing was added, the order is kept, and only the oldest records may
    have been dropped for lack of room.  When the storage accepts the
    write, exactly the records to delete are gone; when every record is
    to be deleted the history ends up empty. *)
Theorem deleteHistoryItems_removes (idsToDelete : list string)
    (st : State W) :
  let kept :=
    List.filter
      (fun item => negb (existsb (String.eqb (id item)) idsToDelete))
      (history st) in
  exists after,
    deleteHistoryItems LS idsToDelete st = (inr (Some tt), after)
    /\ (Abandoned st after
        \/ ((exists n, history after = firstn n kept)
            /\ (forall item, In item (history after) ->
                  In item (history st) /\ ~ In (id item) idsToDelete)
            /\ (length (history after) <= length (history st))%nat))
    /\ (kept <> [] ->
        (forall w, exists w', setItem LS kept w = (inr tt, w')) ->
        history after = kept /\ console after = console st)
    /\ (kept = [] -> history after = []).
Proof.
  cbv zeta. unfold deleteHistoryItems.
  set (kept := List.filter
                 (fun item => negb (existsb (String.eqb (id item)) idsToDelete))
                 (history st)).
  destruct (saveHistory_outcome kept st) as (after & Run & Ways).
  exists after. split; [ exact Run | ].
  split; [ | split ].
  - destruct Ways as [A | [[n Pre] _]]; [ left; exact A | right ].
    split; [ exists n; exact Pre | ].
    split.
    + intros item Member. rewrite Pre in Member.
      apply in_firstn in Member. unfold kept in Member.
      apply filter_In in Member. destruct Member as [Old Keep].
      split; [ exact Old | ].
      intros Listed. apply negb_true_iff in Keep.
      assert (existsb (String.eqb (id item)) idsToDelete = true) as Found.
      { apply existsb_exists. exists (id item).
        split; [ exact Listed | apply String.eqb_refl ]. }
      congruence.
    + rewrite Pre, length_firstn.
      pose proof (filter_length_le
                    (fun item =>
                       negb (existsb (String.eqb (id item)) idsToDelete))
                    (history st)).
      fold kept in H. lia.
  - intros NonEmpty Accepts.
    destruct (saveHistory_accepted kept st NonEmpty Accepts)
      as (after' & Run' & Hist & Log).
    rewrite Run in Run'. injection Run' as <-. auto.
  - intros Nil. destruct Ways as [A | [_ Empty_]].
    + exfalso. revert Run. rewrite Nil. unfold saveHistory. cbn.
      unfold try_catch, bind, storage, setHistory, console_error, modify, ret.
      destruct A as [_ [e [NotQuota Log]]].
      destruct (removeItem LS (world st)) as [[e1 | []] w1]; cbn;
        intros E; injection E as <-; cbn in Log.
      * injection Log as Msg _. discriminate.
      * apply (f_equal (@length _)) in Log. cbn in Log. lia.
    + apply Empty_. exact Nil.
Qed.

(** [{ ...item, images: updatedImages }] when the id is the one given. *)
Lemma updated_ids itemId updatedImages (h : list HistoryItem) :
  map id
    (map (fun item =>
            if String.eqb (id item) itemId then
              {| id := id item;
                 prompt := prompt item;
                 settings := settings item;
                 images := updatedImages;
                 timestamp := timestamp item;
                 generationMode := generationMode item;
                 inputImage := inputImage item;
                 voxSettings := voxSettings item;
                 videoSrc := videoSrc item;
                 seed := seed item |}
            else item) h)
  = map id h.
Proof.
  rewrite map_map. apply map_ext. intros item.
  destruct (String.eqb (id item) itemId); reflexivity.
Qed.

(** X17.  Updating a record.  [updateHistoryItem] never throws.  It
    rewrites the history that the render showed which created it: unless
    a write failed for another reason than capacity, which is logged and
    leaves the history as it was, the history it leaves has the ids of
    the history of that render in their order (without the oldest, when
    there was no room for all), every record with the given id now
    carries the new images, and every other record is a record of that
    render unchanged.  When the storage accepts the write the ids are
    exactly those of that render; so no record is lost when the function
    is called in the render that shows the current history, while a
    record appended since the render of the function is not kept (see
    [update_scenario_stale_render]). *)
Theorem updateHistoryItem_keeps_records (itemId : string)
    (updatedImages : list ImageInfo) (r st : State W) :
  exists after,
    updateHistoryItem LS itemId updatedImages r st = (inr (Some tt), after)
    /\ (Abandoned st after
        \/ ((exists n, map id (history after)
                       = firstn n (map id (history r)))
            /\ (forall item, In item (history after) ->
                  (id item = itemId /\ images item = updatedImages)
                  \/ (id item <> itemId /\ In item (history r)))))
    /\ (history r <> [] ->
        (forall h w, exists w', setItem LS h w = (inr tt, w')) ->
        map id (history after) = map id (history r)
        /\ console after = console st
        /\ (history r = history st ->
            map id (history after) = map id (history st))).
Proof.
  unfold updateHistoryItem.
  match goal with
  | |- context [saveHistory LS ?h st] => set (mapped := h)
  end.
  destruct (saveHistory_outcome mapped st) as (after & Run & Ways).
  exists after. split; [ exact Run | ].
  split.
  - destruct Ways as [A | [[n Pre] _]]; [ left; exact A | right ].
    split.
    + exists n. rewrite Pre, <- firstn_map. unfold mapped.
      rewrite updated_ids. reflexivity.
    + intros item Member. rewrite Pre in Member.
      apply in_firstn in Member. unfold mapped in Member.
      apply in_map_iff in Member. destruct Member as [old [Image Old]].
      destruct (String.eqb_spec (id old) itemId) as [Same | Other].
      * left. rewrite <- Image. cbn. auto.
      * right. rewrite <- Image. auto.
  - intros NonEmpty Accepts.
    destruct (saveHistory_accepted mapped st) as (after' & Run' & Hist & Log).
    + unfold mapped. destruct (history r); [ contradiction | discriminate ].
    + intros w. apply Accepts.
    + rewrite Run in Run'. injection Run' as <-.
      rewrite Hist. unfold mapped. rewrite updated_ids.
      split; [ reflexivity | ]. split; [ exact Log | ].
      intros ->. reflexivity.
Qed.

End RecordFacts.

(** ** The session of a guest *)

Section SessionFacts.

Import Root Session Clock.

Context {W : Type}.
Variable B : Browser W.

Local Abbreviation tick := (Session.tick B).
Local Abbreviation ticks := (Clock.ticks B).
Local Abbreviation load_user := (Session.load_user B).
Local Abbreviation load_session := (Session.load_session B).

Lemma tick_counts (a : App W) :
  timer a = true -> 1 < sessionTime a ->
  tick a =
    (inr tt,
     mkApp (appState a) (user a) (sessionTime a - 1) true (store a)).
Proof.
  intros Running More.
  unfold Session.tick, bind, gets, setSessionTime, modify. rewrite Running.
  destruct (Z.leb_spec (sessionTime a) 1); [ lia | ].
  rewrite Running. reflexivity.
Qed.

Lemma tick_logs_out (a : App W) w1 :
  timer a = true -> sessionTime a <= 1 ->
  session_removeItem B (world (store a)) = (inr tt, w1) ->
  tick a =
    (inr tt,
     mkApp Login None 0 false
       (mkState (history (store a)) w1 (console (store a)))).
Proof.
  intros Running Last Removed.
  unfold Session.tick, handleLogout, clearInterval, on_store, storage, bind,
    gets, setUser, setAppState, setSessionTime, modify.
  rewrite Running.
  destruct (Z.leb_spec (sessionTime a) 1); [ | lia ].
  cbn. rewrite Removed. reflexivity.
Qed.

Lemma tick_stopped (a : App W) : timer a = false -> tick a = (inr tt, a).
Proof.
  intros Stopped. unfold Session.tick, bind, gets, ret. rewrite Stopped.
  reflexivity.
Qed.

Lemma ticks_count k : forall a : App W,
  timer a = true -> Z.of_nat k < sessionTime a ->
  ticks k a =
    mkApp (appState a) (user a) (sessionTime a - Z.of_nat k) true (store a).
Proof.
  induction k as [ | k IH]; intros a Running More.
  - cbn [Clock.ticks]. destruct a. cbn in *. subst.
    f_equal. lia.
  - cbn [Clock.ticks]. rewrite tick_counts by (assumption || lia).
    cbn [snd]. rewrite IH by (cbn; reflexivity || lia).
    cbn. f_equal. lia.
Qed.

Lemma ticks_stopped k : forall a : App W,
  timer a = false -> ticks k a = a.
Proof.
  induction k as [ | k IH]; intros a Stopped; [ reflexivity | ].
  cbn [Clock.ticks]. rewrite tick_stopped by exact Stopped.
  apply IH. exact Stopped.
Qed.

(** X18.  The countdown of a guest.  With the timer running, [n >= 1]
    seconds left and a session storage that accepts removals, the guest
    stays logged in through the first [n - 1] firings of the interval,
    each of which takes one second off and nothing else; the [n]-th
    firing logs the guest out: the stored session is removed, the user is
    [null], the application is at the login page, no time is left and
    the interval is cleared, so that later firings change nothing.  A
    successful guest login starts this countdown at 1800, also when the
    session could not be written to the storage; a member login starts
    no timer. *)
Theorem guest_session_counts_down (a : App W) (n : nat) :
  removal_succeeds B ->
  timer a = true -> sessionTime a = Z.of_nat n -> (1 <= n)%nat ->
  (forall k, (k < n)%nat ->
     ticks k a =
       mkApp (appState a) (user a) (Z.of_nat (n - k)) true (store a))
  /\ (exists w1,
        ticks n a =
          mkApp Login None 0 false
            (mkState (history (store a)) w1 (console (store a)))
        /\ forall more, ticks (n + more) a = ticks n a)
  /\ (forall b : App W,
        let guest := snd (handleLoginSuccess B Guest b) in
        let member := snd (handleLoginSuccess B Member b) in
        fst (handleLoginSuccess B Guest b) = inr tt
        /\ timer guest = true
        /\ sessionTime guest = 1800
        /\ appState guest = Bridge
        /\ user guest
           = Some {| type := "guest";
                     loginTime := Some (now B (world (store b))) |}
        /\ fst (handleLoginSuccess B Member b) = inr tt
        /\ timer member = false
        /\ sessionTime member = sessionTime b
        /\ appState member = Bridge).
Proof.
  intros Removal Running Left Positive.
  split; [ | split ].
  - intros k Less. rewrite ticks_count by (assumption || lia).
    f_equal. lia.
  - assert (ticks (n - 1) a =
              mkApp (appState a) (user a) 1 true (store a)) as Before.
    { rewrite ticks_count by (assumption || lia). f_equal. lia. }
    destruct (Removal (world (store a))) as [w1 Removed].
    exists w1.
    assert (forall j i (x : App W), ticks (i + j) x = ticks j (ticks i x))
      as Split.
    { intros j i. induction i as [ | i IHi]; intros x; [ reflexivity | ].
      cbn [Nat.add Clock.ticks]. apply IHi. }
    assert (ticks n a =
              mkApp Login None 0 false
                (mkState (history (store a)) w1 (console (store a)))) as Out.
    { replace n with ((n - 1) + 1)%nat at 1 by lia.
      rewrite Split, Before. cbn [Clock.ticks].
      rewrite (tick_logs_out _ w1); [ reflexivity | reflexivity | cbn; lia | ].
      exact Removed. }
    split; [ exact Out | ].
    intros more. rewrite Split, Out. apply ticks_stopped. reflexivity.
  - intros b. cbv zeta.
    unfold handleLoginSuccess, bind, gets, try_catch, on_store, storage,
      console_error, setSessionTime, setUser, setAppState, modify, ret.
    cbn.
    destruct (session_setItem B _ (world (store b))) as [[e | []] w1];
      destruct (session_setItem B _ (world (store b))) as [[e' | []] w2];
      cbn; repeat split.
Qed.

(** X19.  The session found at mount.  A stored guest session whose login
    lies 1800 seconds or more back is logged out: the stored session is
    removed, the user stays [null], the application goes to the login
    page, and the effect returns before it reads the stored history, so
    the history of the component stays as it was although the storage may
    hold one.  A stored guest session that is younger is restored with
    the seconds that are left, which are more than none, and the timer
    runs; a stored member session is restored whatever its age, with no
    timer. *)
Theorem stored_session_at_mount (a : App W) (json : string) (u : User) :
  session_getItem B (world (store a)) = Some json ->
  Js.truthy json = true ->
  parse_user B json = inr (Some u) ->
  let e := elapsed B u (world (store a)) in
  (type u = "guest" -> 1800 <= e ->
   forall w1,
     session_removeItem B (world (store a)) = (inr tt, w1) ->
     load_session a =
       (inr tt,
        mkApp Login None (sessionTime a) false
          (mkState (history (store a)) w1 (console (store a)))))
  /\ (type u = "guest" -> e < 1800 ->
      load_user a =
        (inr true, mkApp Bridge (Some u) (1800 - e) true (store a))
      /\ 0 < 1800 - e)
  /\ (type u = "member" ->
      load_user a =
        (inr true, mkApp Bridge (Some u) (sessionTime a) false (store a))).
Proof.
  intros Stored Truthy Parsed. cbv zeta.
  assert (elapsed B u (world (store a)) =
            (now B (world (store a))
             - match loginTime u with
               | Some t => if t =? 0 then 0 else t
               | None => 0
               end) / 1000) as Elapsed.
  { unfold elapsed. destruct (loginTime u) as [t | ]; [ | reflexivity ].
    destruct (Z.eqb_spec t 0) as [-> | ]; reflexivity. }
  split; [ | split ].
  - intros Guest_ Old w1 Removed.
    unfold Session.load_session, Session.load_user, handleLogout, try_catch,
      bind, gets, thrown, on_store, storage, setUser, setAppState, modify,
      ret.
    rewrite Stored. cbn [Js.str_or_empty]. rewrite Truthy, Parsed, Guest_.
    cbn [String.eqb Ascii.eqb Bool.eqb andb]. cbv beta.
    rewrite <- Elapsed. unfold GUEST_SESSION_DURATION.
    destruct (Z.leb_spec 1800 (elapsed B u (world (store a)))); [ | lia ].
    cbn. rewrite Removed. reflexivity.
  - intros Guest_ Young.
    split; [ | lia ].
    unfold Session.load_user, bind, gets, thrown, setUser, setSessionTime,
      setAppState, modify, ret.
    rewrite Stored. cbn [Js.str_or_empty]. rewrite Truthy, Parsed, Guest_.
    cbn [String.eqb Ascii.eqb Bool.eqb andb]. cbv beta.
    rewrite <- Elapsed. unfold GUEST_SESSION_DURATION.
    destruct (Z.leb_spec 1800 (elapsed B u (world (store a)))); [ lia | ].
    cbn. unfold is_guest. rewrite Guest_. reflexivity.
  - intros Member_.
    unfold Session.load_user, bind, gets, thrown, setUser, setSessionTime,
      setAppState, modify, ret.
    rewrite Stored. cbn [Js.str_or_empty]. rewrite Truthy, Parsed.
    unfold is_guest. rewrite Member_. reflexivity.
Qed.

End SessionFacts.

Lemma deleteHistoryItems_removes_witness :
  exists after,
    Root.deleteHistoryItems small_storage ["b"] three_records
    = (inr (Some tt), after)
    /\ Root.history after = [record_ "a"; record_ "c"].
Proof.
  destruct (deleteHistoryItems_removes small_storage ["b"] three_records)
    as (after & Run & _ & Accepted & _).
  exists after. split; [ exact Run | ].
  apply Accepted; [ discriminate | ].
  intros w. eexists. reflexivity.
Defined.

Lemma updateHistoryItem_keeps_records_witness :
  exists after,
    Session.updateHistoryItem small_storage "b" [] three_records
      three_records
    = (inr (Some tt), after)
    /\ (Activity.Abandoned three_records after
        \/ exists n,
             map Root.id (Root.history after)
             = firstn n (map Root.id (Root.history three_records))).
Proof.
  destruct (updateHistoryItem_keeps_records small_storage "b" []
              three_records three_records)
    as (after & Run & [A | [Ids _]] & _);
    exists after; (split; [ exact Run | ]);
    [ left; exact A | right; exact Ids ].
Defined.

(** An update started before an append landed: the function of the
    render that showed the record a alone is called when the history
    holds b and a.  The record b is gone. *)
Example update_scenario_stale_render :
  Session.updateHistoryItem small_storage "a" []
    (Root.mkState [record_ "a"] [record_ "a"] [])
    (Root.mkState [record_ "b"; record_ "a"] [record_ "b"; record_ "a"] [])
  = (inr (Some tt), Root.mkState [record_ "a"] [record_ "a"] []).
Proof. reflexivity. Qed.

Lemma guest_session_counts_down_witness :
  Clock.ticks kiosk 2 (counting 3)
  = Session.mkApp Session.InApp
      (Some {| Session.type := "guest"; Session.loginTime := Some 0 |})
      1 true (fresh (0, Some "guest session")).
Proof.
  apply (proj1 (guest_session_counts_down kiosk (counting 3) 3
                  (fun w => ex_intro _ (fst w, None) eq_refl)
                  eq_refl eq_refl ltac:(lia))
           2%nat ltac:(lia)).
Defined.

Lemma stored_session_at_mount_witness :
  Session.load_session kiosk (at_mount 2000000)
  = (inr tt,
     Session.mkApp Session.Login None 1800 false
       (Root.mkState [] (2000000, None) [])).
Proof.
  apply (proj1 (stored_session_at_mount kiosk (at_mount 2000000)
                  "guest session"
                  {| Session.type := "guest"; Session.loginTime := Some 0 |}
                  eq_refl eq_refl eq_refl)
           eq_refl ltac:(vm_compute; discriminate) (2000000, None) eq_refl).
Defined.

(** ** Sending a chat message *)

Section ChatFacts.

Import ApiClient Chat Sending.

Context {W Session T : Type}.
Variable has : W -> bool.
Variable sel : Io W unit.
Variable init : W -> option Session.
Variable send : Session -> Io W T.

Local Abbreviation send_counted := (Sending.send_counted has sel init send).

Lemma entity_not_found_eligible e :
  entity_not_found e = true -> reauth_eligible e = true.
Proof.
  unfold entity_not_found, reauth_eligible, isNotFound, error_text.
  cbv zeta. intros Found. apply orb_true_iff in Found.
  destruct Found as [-> | ->]; rewrite ?orb_true_r; reflexivity.
Qed.

(** X20.  The chat page retries a message at most once.  One call of
    [sendMessageWithRetry] sends the message once or twice and opens the
    key selection at most once; two levels of recursion are all it ever
    uses.  Without a chat session it throws "Chat not initialized" and
    calls nothing.  The message is sent a second time only when the
    first send failed with a missing entity (by its text or by the status
    404), the key selector is present and the selection succeeded; a
    failure for a missing permission alone is not retried here, although
    the client of the service would retry it.  Whenever the call fails
    after a first send, it fails with what the first send threw. *)
Theorem chat_send_retries_at_most_once (fuel : nat)
    (chat : option Session) (w : W) :
  (2 <= fuel)%nat ->
  let r := fst (send_counted fuel chat w) in
  let c := snd (send_counted fuel chat w) in
  r <> inr None
  /\ (thunk_calls c <= 2)%nat
  /\ (select_calls c <= 1)%nat
  /\ (chat = None ->
      r = inl (new_Error "Chat not initialized")
      /\ thunk_calls c = 0%nat /\ select_calls c = 0%nat)
  /\ (forall session, chat = Some session ->
      match send session w with
      | (inr v, w1) =>
          r = inr (Some (v, chat))
          /\ thunk_calls c = 1%nat /\ select_calls c = 0%nat
      | (inl e, w1) =>
          (thunk_calls c = 2%nat ->
           entity_not_found e = true /\ has w1 = true
           /\ select_calls c = 1%nat)
          /\ (entity_not_found e = false ->
              r = inl e /\ thunk_calls c = 1%nat /\ select_calls c = 0%nat)
          /\ (forall e', r = inl e' -> e' = e)
      end)
  /\ (forall e, entity_not_found e = true -> reauth_eligible e = true).
Proof.
  intros Enough. cbv zeta.
  destruct fuel as [ | [ | fuel]]; [ lia | lia | ].
  unfold Sending.send_counted.
  split; [ | split; [ | split; [ | split; [ | split ] ] ] ];
    try (intros e; apply entity_not_found_eligible).
  all: destruct chat as [session | ]; cbn [sendMessageWithRetry];
    unfold try_catch, bind, gets, throw, ret, count_thunk, count_select,
      start; cbn.
  all: try (intros; discriminate).
  all: try lia.
  all: try (intros _; repeat split; reflexivity).
  all: try (intros session' E; injection E as <-).
  all: destruct (send session w) as [[e | v] w1]; cbn;
    try discriminate; try lia; try (repeat split; reflexivity).
  all: destruct (entity_not_found e) eqn:Found; cbn;
    try discriminate; try lia;
    try (repeat split; (discriminate || reflexivity || congruence)).
  all: destruct (has w1) eqn:Present; cbn;
    try discriminate; try lia;
    try (repeat split; (discriminate || reflexivity || congruence)).
  all: destruct (sel w1) as [[e2 | []] w2]; cbn;
    try discriminate; try lia;
    try (repeat split; (discriminate || reflexivity || congruence)).
  all: destruct (init w2) as [session2 | ]; cbn;
    try discriminate; try lia;
    try (repeat split; (discriminate || reflexivity || congruence)).
  all: destruct (send session2 w2) as [[e3 | v3] w3]; cbn;
    rewrite ?andb_false_r; cbn;
    try discriminate; try lia;
    try (repeat split; (discriminate || reflexivity || congruence)).
Qed.

End ChatFacts.

Lemma chat_send_retries_at_most_once_witness :
  fst (Sending.send_counted (fun _ => true) selection_ok (fun _ => Some tt)
         flaky_send 2 (Some tt) 0%nat)
  <> inr None.
Proof.
  apply (chat_send_retries_at_most_once (fun _ => true) selection_ok
           (fun _ => Some tt) flaky_send 2 (Some tt) 0%nat ltac:(lia)).
Defined.

(** In that run the message is sent twice and the key selection is opened
    once. *)
Example chat_send_scenario :
  Sending.send_counted (fun _ => true) selection_ok (fun _ => Some tt)
    flaky_send 2 (Some tt) 0%nat
  = (inr (Some (42, Some tt)), ApiClient.mkCounted 2%nat 2%nat 1%nat).
Proof. reflexivity. Qed.

(** ** The size of a resized image *)

Section ResizeFacts.

Import Imaging.

Lemma round_div_bounds a b :
  0 <= a -> 0 < b ->
  0 <= round_div a b
  /\ 2 * b * round_div a b <= 2 * a + b
  /\ 2 * a + b < 2 * b * round_div a b + 2 * b.
Proof.
  intros A B. unfold round_div.
  pose proof (Z.mul_div_le (2 * a + b) (2 * b) ltac:(lia)).
  pose proof (Z.mul_succ_div_gt (2 * a + b) (2 * b) ltac:(lia)).
  split; [ apply Z.div_pos; lia | ]. lia.
Qed.

(** X21.  The size [resizeImage] gives an image of positive size, with
    both bounds equal as in every call of the service (1024).  The result
    fits within the bound on both sides and is never larger than the
    image on either side; an image that fits already keeps its size; the
    longer side of a larger image becomes the bound, and the shorter side
    is the proportional length rounded to the nearest integer, which may
    round down to 0 for a very thin image. *)
Theorem resized_dimensions_fit (width height bound : Z) :
  0 < width -> 0 < height -> 0 < bound ->
  let w := fst (resized_dimensions width height bound bound) in
  let h := snd (resized_dimensions width height bound bound) in
  0 <= w <= bound /\ 0 <= h <= bound
  /\ w <= width /\ h <= height
  /\ Z.max w h = Z.min (Z.max width height) bound
  /\ (width <= bound -> height <= bound -> w = width /\ h = height)
  /\ (bound < width -> height < width ->
      w = bound /\ Z.abs (2 * (h * width - height * bound)) <= width)
  /\ (bound < height -> width <= height ->
      h = bound /\ Z.abs (2 * (w * height - width * bound)) <= height).
Proof.
  intros W H B. cbv zeta. unfold resized_dimensions.
  destruct (Z.ltb_spec height width) as [Wide | Tall].
  - destruct (Z.ltb_spec bound width) as [Large | Fits].
    + destruct (round_div_bounds (height * bound) width ltac:(nia) W)
        as (Low & Down & Up).
      assert (round_div (height * bound) width <= bound) as Side by nia.
      assert (round_div (height * bound) width <= height) as Short by nia.
      cbn [fst snd]. repeat split; try lia; try nia.
    + cbn [fst snd]. repeat split; try lia.
  - destruct (Z.ltb_spec bound height) as [Large | Fits].
    + destruct (round_div_bounds (width * bound) height ltac:(nia) H)
        as (Low & Down & Up).
      assert (round_div (width * bound) height <= bound) as Side by nia.
      assert (round_div (width * bound) height <= width) as Short by nia.
      cbn [fst snd]. repeat split; try lia; try nia.
    + cbn [fst snd]. repeat split; try lia.
Qed.

End ResizeFacts.

Lemma resized_dimensions_fit_witness :
  0 <= fst (Imaging.resized_dimensions 4000 3000 1024 1024) <= 1024
  /\ 0 <= snd (Imaging.resized_dimensions 4000 3000 1024 1024) <= 1024.
Proof.
  pose proof (resized_dimensions_fit 4000 3000 1024 ltac:(lia) ltac:(lia)
                ltac:(lia)) as Fit.
  cbv zeta in Fit. split; [ apply Fit | apply Fit ].
Defined.

Example resized_dimensions_landscape :
  Imaging.resized_dimensions 4000 3000 1024 1024 = (1024, 768).
Proof. reflexivity. Qed.

(** A very thin image is given a side of length 0. *)
Example resized_dimensions_thin :
  Imaging.resized_dimensions 5000 1 1024 1024 = (1024, 0).
Proof. reflexivity. Qed.

(** ** The generate action of the VOX page *)

Section StudioFacts.

Import Service Vox Studio Pressed.

Context {W : Type}.
Variable t : string -> list (string * string) -> string.
Variable combineImages : list ImageData -> string -> Io W (list string).
Variable enhancePrompt : string -> string -> Io W string.
Variable inpaintImage : string -> string -> string -> string
                        -> Io W (list string).
Variable editImageFromPrompt :
  string -> string -> string -> option Quota.Number -> Io W Generated.
Variable generateImagesFromPrompt :
  string -> ImageSettings -> option string -> string -> option Quota.Number
  -> Io W Generated.
Variable maskCanvas : W -> option string.
Variable null_TypeError : JsError.
Variable getActiveAspectRatio : W -> AspectRatio.
Variable addToHistory : Root.HistoryItem -> W -> W.
Variable toISOString : W -> string.
Variable now : W -> Z.

Local Abbreviation operate :=
  (Studio.operate t combineImages enhancePrompt inpaintImage
     editImageFromPrompt generateImagesFromPrompt maskCanvas null_TypeError
     getActiveAspectRatio).
Local Abbreviation show_result :=
  (Studio.show_result getActiveAspectRatio addToHistory toISOString now).
Local Abbreviation generate :=
  (Studio.generate t combineImages enhancePrompt inpaintImage
     editImageFromPrompt generateImagesFromPrompt maskCanvas null_TypeError
     getActiveAspectRatio addToHistory toISOString now).

Lemma stored_records_app cs ds :
  stored_records (cs ++ ds) = (stored_records cs ++ stored_records ds)%list.
Proof.
  induction cs as [ | c cs IH]; [ reflexivity | ].
  destruct c; cbn; rewrite IH; reflexivity.
Qed.

(** What the remote operation leaves, whether it fails or not: the calls
    it made hand no record to the history, and the page is as before but
    for the tray and the inpainting mode, which only change when it
    succeeds. *)
Lemma operate_effect (r : Panel) rawPrompt inputSeed (d : Desk W)
    result (d' : Desk W) :
  operate r rawPrompt inputSeed d = (result, d') ->
  exists new,
    calls d' = (calls d ++ new)%list
    /\ stored_records new = []
    /\ match result with
       | inl _ => panel d' = panel d
       | inr _ =>
           exists f,
             panel d' = setPage (f (page (panel d))) (panel d)
             /\ (f = (fun st => st)
                 \/ f = setInputImages []
                 \/ f = setIsInpaintingMode false)
       end.
Proof.
  destruct d as [p w cs]. destruct p as [pg ld sm np st di sar sd].
  cbn [panel world calls page].
  unfold Studio.operate.
  destruct (1 <? length (inputImages (page r)))%nat.
  - unfold bind, outside, update_page, update_panel, modify, ret.
    cbn -[String.append].
    destruct (combineImages (inputImages (page r)) rawPrompt w)
      as [[e | res] w1]; cbn -[String.append];
      intros E; injection E as <- <-; cbn -[String.append].
    + eexists. split; [ reflexivity | ]. split; reflexivity.
    + eexists. split; [ reflexivity | ]. split; [ reflexivity | ].
      exists (setInputImages []). split; [ reflexivity | auto ].
  - unfold bind at 1. unfold gets at 1. cbn [world].
    destruct (isInpaintingMode (page r)) eqn:Mode;
      destruct (currentImage (page r)) as [image | ] eqn:Image;
      destruct (maskCanvas w) as [mask | ] eqn:Mask.
    all: unfold bind, outside, update_page, update_panel, modify, ret, gets,
           current_settings; cbn -[String.append].
    all: try match goal with
      | |- context [editImageFromPrompt ?a ?b ?c ?s ?w] =>
          destruct (editImageFromPrompt a b c s w) as [[? | ?] ?]
      end.
    all: try match goal with
      | |- context [generateImagesFromPrompt ?a ?b ?c ?x ?s ?w] =>
          destruct (generateImagesFromPrompt a b c x s w) as [[? | ?] ?]
      end.
    all: try (cbn -[String.append];
              intros E; injection E as <- <-; cbn -[String.append];
              eexists; (split; [ reflexivity | ]); (split; [ reflexivity | ]);
              first [ reflexivity
                    | exists (fun x : VoxState => x);
                      split; [ reflexivity | auto ] ]).
    match goal with
    | |- context [enhancePrompt ?a ?b ?w] =>
        destruct (enhancePrompt a b w) as [[e | enhanced] w1];
        cbn -[String.append]
    end.
    + intros E; injection E as <- <-; cbn -[String.append].
      eexists. split; [ reflexivity | ]. split; reflexivity.
    + destruct (maskCanvas w1) as [url | ]; cbn -[String.append].
      * destruct (inpaintImage (base64 image) url (mimeType image) enhanced
                    w1) as [[e | res] w2]; cbn -[String.append].
        -- intros E; injection E as <- <-; cbn -[String.append].
           eexists. split; [ rewrite <- app_assoc; reflexivity | ].
           split; reflexivity.
        -- destruct res as [ | first more]; cbn -[String.append];
             intros E; injection E as <- <-; cbn -[String.append].
           ++ eexists. split; [ rewrite <- app_assoc; reflexivity | ].
              split; [ reflexivity | ].
              exists (fun x : VoxState => x). split; [ reflexivity | auto ].
           ++ eexists. split; [ rewrite <- app_assoc; reflexivity | ].
              split; [ reflexivity | ].
              exists (setIsInpaintingMode false).
              split; [ reflexivity | auto ].
      * intros E; injection E as <- <-; cbn -[String.append].
        eexists. split; [ reflexivity | ]. split; reflexivity.
Qed.

Lemma show_result_effect (r : Panel) newSrc resultSeed (d : Desk W) :
  exists item,
    show_result r newSrc resultSeed d
    = (inr tt,
       mkDesk
         (setPage
            (setPrompt EmptyString
               (pushToSessionHistory
                  (Some {| base64 := newSrc;
                           mimeType := Imaging.mime_of_data_url newSrc |})
                  (prompt (page r)) (page r)
                  (updateCurrentImage (Some newSrc)
                     (Some (Imaging.mime_of_data_url newSrc)) (page r)
                     (page (panel d)))))
            (panel d))
         (addToHistory item (world d))
         (calls d ++ [CallAddToHistory item]))
    /\ Root.prompt item = prompt (page r)
    /\ Root.images item =
         [ {| Root.src := newSrc; Root.upscaledTo := None;
              Root.isRefined := false; Root.filter := None |} ]
    /\ Root.seed item = resultSeed
    /\ Root.inputImage item = option_map base64 (currentImage (page r)).
Proof.
  destruct d as [p w cs]. destruct p as [pg ld sm np st di sar sd].
  unfold Studio.show_result, createAndStoreHistoryItem, current_settings,
    bind, gets, outside, update_page, update_panel, modify, ret.
  cbn -[updateCurrentImage pushToSessionHistory Imaging.mime_of_data_url].
  eexists. split; [ reflexivity | ]. repeat split.
Qed.

Lemma push_reads_render img p (r st : VoxState) :
  historyIndex st = historyIndex r ->
  sessionHistory (pushToSessionHistory img p r st)
  = sessionHistory (pushToSessionHistory img p r r)
  /\ historyIndex (pushToSessionHistory img p r st)
     = historyIndex (pushToSessionHistory img p r r).
Proof.
  intros Same. unfold pushToSessionHistory.
  match goal with
  | |- context [if ?c then _ else _] => destruct c
  end; cbn; rewrite ?Same; split; reflexivity.
Qed.

(** X22.  A press on the generate button is all or nothing.  With a blank
    prompt nothing happens at all.  Otherwise the handler never throws,
    ends with the loading flag off, and changes nothing of the settings;
    and it ends in one of three ways.  A call failed: the page is as it
    was before the press but for the error shown, which is not empty, and
    no record was handed to the history.  Or no image came back: the
    error is cleared, the undo stack, the image shown and the prompt are
    as before, and no record was handed to the history.  Or an image came
    back: the error is cleared, the image was pushed on the undo stack
    with the prompt of the press, the prompt is cleared, and exactly one
    record, with that prompt and that image, was handed to the history,
    as the last call. *)
Theorem generate_all_or_nothing (d : Desk W) :
  let before := page (panel d) in
  (Js.trim_is_empty (prompt before) = true -> generate d = (inr tt, d))
  /\ (Js.trim_is_empty (prompt before) = false ->
      exists d' new,
        generate d = (inr tt, d')
        /\ calls d' = (calls d ++ new)%list
        /\ panel d' = setIsLoading false (setPage (page (panel d')) (panel d))
        /\ let after := page (panel d') in
           (exists m,
              m <> EmptyString
              /\ after = setError (Some m) before
              /\ stored_records new = [])
           \/ (error after = None
               /\ NothingShown before after
               /\ stored_records new = [])
           \/ (exists newSrc item earlier,
                 error after = None
                 /\ Shown newSrc before after
                 /\ new = (earlier ++ [CallAddToHistory item])%list
                 /\ stored_records new = [item]
                 /\ Root.prompt item = prompt before
                 /\ Root.images item =
                      [ {| Root.src := newSrc; Root.upscaledTo := None;
                           Root.isRefined := false;
                           Root.filter := None |} ])).
Proof.
  cbv zeta. unfold Studio.generate, Studio.handleGenerate.
  split; [ intros ->; reflexivity | ].
  intros ->.
  unfold bind at 1. unfold update_panel at 1. unfold modify at 1.
  unfold bind at 1. unfold update_page at 1. unfold update_panel at 1.
  unfold modify at 1.
  unfold bind at 1. unfold try_catch. unfold bind at 1.
  match goal with
  | |- context [Studio.operate ?a ?b ?c ?d0 ?e ?f ?g ?h ?i ?r ?p ?s ?st] =>
      destruct (Studio.operate a b c d0 e f g h i r p s st)
        as [[err | res] d2] eqn:Op;
      apply operate_effect in Op;
      destruct Op as (new & Calls & NoRecord & Panel_)
  end.
  - (* a call failed *)
    cbn [calls panel page] in Calls, Panel_.
    unfold update_page, update_panel, modify. cbn.
    eexists. exists new. split; [ reflexivity | ]. cbn.
    split; [ exact Calls | ].
    rewrite Panel_. cbn.
    split; [ destruct (panel d); reflexivity | ].
    left.
    exists (Js.or_else (Js.str_or_empty (message err)) "Generation failed").
    split; [ | split; [ | exact NoRecord ] ].
    + unfold Js.or_else.
      destruct (Js.str_or_empty (message err)); cbn; discriminate.
    + destruct (panel d) as [pg ? ? ? ? ? ? ?]. cbn. destruct pg.
      reflexivity.
  - cbn [calls panel page] in Calls, Panel_.
    destruct Panel_ as (f & Panel_ & Which).
    destruct (fst res) as [ | newSrc more] eqn:Images.
    + (* no image came back *)
      unfold ret, update_panel, modify. cbn.
      eexists. exists new. split; [ reflexivity | ]. cbn.
      split; [ exact Calls | ].
      rewrite Panel_. cbn.
      split; [ destruct (panel d); reflexivity | ].
      right; left.
      destruct (panel d) as [pg ? ? ? ? ? ? ?]. cbn.
      destruct Which as [-> | [-> | ->]];
        (split; [ reflexivity | ]); (split; [ | exact NoRecord ]);
        repeat split.
    + (* an image came back *)
      destruct (show_result_effect (panel d) newSrc (snd res) d2)
        as (item & Show & Prompt & Image & _).
      rewrite Show. unfold update_panel, modify. cbn.
      eexists. exists (new ++ [CallAddToHistory item])%list.
      split; [ reflexivity | ]. cbn.
      split; [ rewrite Calls, app_assoc; reflexivity | ].
      rewrite Panel_. cbn.
      split; [ destruct (panel d); reflexivity | ].
      right; right. exists newSrc, item, new.
      assert (historyIndex (f (setError None (page (panel d))))
              = historyIndex (page (panel d))) as Cursor.
      { destruct Which as [-> | [-> | ->]]; reflexivity. }
      split.
      { destruct (panel d) as [pg ? ? ? ? ? ? ?]. cbn.
        unfold pushToSessionHistory.
        match goal with
        | |- context [if ?c then _ else _] => destruct c
        end; cbn; unfold updateCurrentImage;
          destruct (Js.truthy newSrc), (isBg1Active pg),
            (Js.truthy (Js.str_or_empty (currentVideoUrl pg)));
          destruct Which as [-> | [-> | ->]]; reflexivity. }
      split.
      { unfold Shown. cbv zeta. unfold Undo.push, dispatch. cbn [fst snd].
        destruct (panel d) as [pg ? ? ? ? ? ? ?]. cbn [page setPage] in *.
        destruct (push_reads_render
                    (Some {| base64 := newSrc;
                             mimeType := Imaging.mime_of_data_url newSrc |})
                    (prompt pg) pg
                    (updateCurrentImage (Some newSrc)
                       (Some (Imaging.mime_of_data_url newSrc)) pg
                       (f (setError None pg)))) as [Stack Index].
        { rewrite (proj2 (updateCurrentImage_stack _ _ _ _)). exact Cursor. }
        cbn [setPrompt sessionHistory historyIndex prompt].
        split; [ exact Stack | ]. split; [ exact Index | reflexivity ]. }
      split; [ reflexivity | ].
      split; [ rewrite stored_records_app, NoRecord; reflexivity | ].
      split; [ exact Prompt | exact Image ].
Qed.

Lemma operate_first_call (r : Panel) rawPrompt inputSeed (d : Desk W) op :
  Js.trim_is_empty (prompt (page r)) = false ->
  handleGenerate_operation (Js.present (maskCanvas (world d))) (page r)
  = Some op ->
  exists first rest,
    calls (snd (operate r rawPrompt inputSeed d))
    = (calls d ++ first :: rest)%list
    /\ starts t op r rawPrompt first.
Proof.
  intros Typed. unfold handleGenerate_operation. rewrite Typed.
  destruct d as [p w cs]. cbn [world calls].
  unfold Studio.operate.
  destruct (1 <? length (inputImages (page r)))%nat.
  - intros E. injection E as <-.
    unfold bind, outside, update_page, update_panel, modify, ret. cbn.
    destruct (combineImages (inputImages (page r)) rawPrompt w)
      as [[e | res] w1]; cbn; do 2 eexists;
      (split; [ reflexivity | split; reflexivity ]).
  - unfold bind at 1. unfold gets at 1. cbn [world].
    destruct (isInpaintingMode (page r)) eqn:Mode;
      destruct (currentImage (page r)) as [image | ] eqn:Image;
      destruct (maskCanvas w) as [mask | ] eqn:Mask;
      cbn [Js.present andb]; intros E; injection E as <-.
    all: unfold bind, outside, update_page, update_panel, modify, ret, gets,
           current_settings; cbn -[String.append].
    all: try match goal with
      | |- context [editImageFromPrompt ?a ?b ?c ?s ?w] =>
          destruct (editImageFromPrompt a b c s w) as [[? | ?] ?]
      end.
    all: try match goal with
      | |- context [generateImagesFromPrompt ?a ?b ?c ?x ?s ?w] =>
          destruct (generateImagesFromPrompt a b c x s w) as [[? | ?] ?]
      end.
    all: try (cbn -[String.append]; do 2 eexists;
              split; [ reflexivity | ];
              unfold starts; rewrite ?Image; repeat split).
    match goal with
    | |- context [enhancePrompt ?a ?b ?w] =>
        destruct (enhancePrompt a b w) as [[e | enhanced] w1];
        cbn -[String.append]
    end.
    + do 2 eexists. split; [ reflexivity | reflexivity ].
    + destruct (maskCanvas w1) as [url | ]; cbn -[String.append].
      * destruct (inpaintImage (base64 image) url (mimeType image) enhanced
                    w1) as [[e | res] w2]; cbn -[String.append].
        -- do 2 eexists.
           split; [ rewrite <- app_assoc; reflexivity | reflexivity ].
        -- destruct res as [ | first more]; cbn -[String.append];
             do 2 eexists;
             (split; [ rewrite <- app_assoc; reflexivity | reflexivity ]).
      * do 2 eexists. split; [ reflexivity | reflexivity ].
Qed.

(** X23.  The handler runs the operation the router names.  When the
    prompt is blank the press does nothing.  Otherwise the first call the
    press makes is the call of the operation that
    [handleGenerate_operation] selects for the page: several staged
    images are combined; a masked current image in inpainting mode has
    its instruction enhanced first; another current image is edited, with
    the translated master prompt; and without an image one image is
    generated with the selected model.  In each case the prompt handed
    over is the prompt of the page with the keywords of the settings. *)
Theorem generate_starts_routed_operation (d : Desk W) :
  let r := panel d in
  match handleGenerate_operation (Js.present (maskCanvas (world d))) (page r)
  with
  | None => generate d = (inr tt, d)
  | Some op =>
      exists first rest,
        calls (snd (generate d)) = (calls d ++ first :: rest)%list
        /\ starts t op r (constructFinalPrompt r) first
  end.
Proof.
  cbv zeta.
  destruct (handleGenerate_operation (Js.present (maskCanvas (world d)))
              (page (panel d))) as [op | ] eqn:Route.
  - assert (Js.trim_is_empty (prompt (page (panel d))) = false) as Typed.
    { unfold handleGenerate_operation in Route.
      destruct (Js.trim_is_empty (prompt (page (panel d))));
        [ discriminate | reflexivity ]. }
    unfold Studio.generate, Studio.handleGenerate. rewrite Typed.
    unfold bind at 1. unfold update_panel at 1. unfold modify at 1.
    unfold bind at 1. unfold update_page at 1. unfold update_panel at 1.
    unfold modify at 1.
    unfold bind at 1. unfold try_catch. unfold bind at 1.
    match goal with
    | |- context [Studio.operate ?a ?b ?c ?d0 ?e ?f ?g ?h ?i ?r ?p ?s ?st] =>
        destruct (operate_first_call r p s st op Typed Route)
          as (first & rest & Calls & Starts);
        destruct (Studio.operate a b c d0 e f g h i r p s st)
          as [[err | res] d2]
    end; cbn [snd calls] in Calls.
    + unfold update_page, update_panel, modify. cbn.
      exists first, rest. split; [ exact Calls | exact Starts ].
    + destruct (fst res) as [ | newSrc more].
      * unfold ret, update_panel, modify. cbn.
        exists first, rest. split; [ exact Calls | exact Starts ].
      * destruct (show_result_effect (panel d) newSrc (snd res) d2)
          as (item & Show & _).
        rewrite Show. unfold update_panel, modify. cbn.
        exists first, (rest ++ [CallAddToHistory item])%list.
        split; [ rewrite Calls, <- app_assoc; reflexivity | exact Starts ].
  - unfold handleGenerate_operation in Route.
    unfold Studio.generate, Studio.handleGenerate.
    destruct (Js.trim_is_empty (prompt (page (panel d))));
      [ reflexivity | ].
    destruct (1 <? length (inputImages (page (panel d))))%nat;
      [ discriminate | ].
    destruct (isInpaintingMode (page (panel d))
              && Js.present (currentImage (page (panel d)))
              && Js.present (maskCanvas (world d)))%bool; [ discriminate | ].
    destruct (Js.present (currentImage (page (panel d)))); discriminate.
Qed.

End StudioFacts.

Lemma generate_all_or_nothing_witness :
  fst (press_refused typed_desk) = inr tt.
Proof.
  destruct (proj2
    (generate_all_or_nothing (fun key _ => key)
       (fun _ _ => blocked) (fun _ _ => blocked) (fun _ _ _ _ => blocked)
       (fun _ _ _ _ => blocked) (fun _ _ _ _ _ => blocked)
       (fun _ => None) (new_Error "Cannot read properties of null")
       (fun _ => Service.R16_9) (fun _ w => w)
       (fun _ => "2026-11-03T00:00:00.000Z") (fun _ => 0) typed_desk)
    eq_refl) as (d' & new & Run & _).
  unfold press_refused. rewrite Run. reflexivity.
Defined.

(** In that run the page shows the message of the service and keeps the
    prompt; the undo stack stays empty. *)
Example generate_refused_scenario :
  Vox.error (Studio.page (Studio.panel (snd (press_refused typed_desk))))
  = Some "Your request was blocked due to safety policies. Please adjust your prompt and try again."
  /\ Vox.prompt (Studio.page (Studio.panel (snd (press_refused typed_desk))))
     = "a cat on a sofa"
  /\ Vox.sessionHistory
       (Studio.page (Studio.panel (snd (press_refused typed_desk)))) = [].
Proof. repeat split. Qed.

(** ** A video that is delivered *)

Section DeliveryFacts.

Import ApiClient Service Watch.

Context {W : Type}.
Variable P : Platform W.

Lemma after_polling_success isCancelledRef operation (s : Sys W) v s' :
  after_polling P isCancelledRef operation s = (inr v, s') ->
  exists link,
    video_uri operation = Some link
    /\ Js.truthy link = true
    /\ isCancelledRef (Service.world s) = false
    /\ v <> None
    /\ trace s' =
         (trace s
          ++ [EvReadCancelled false;
              EvProgress (Some "Finalizing video...");
              EvFetch (link ++ "&key=" ++ API_KEY P (Service.world s))])%list.
Proof.
  unfold after_polling, bind, read_cancelled, emit, modify, gets, call,
    throw, ret.
  cbn -[String.append].
  destruct (isCancelledRef (Service.world s)) eqn:Flag;
    cbn -[String.append]; [ discriminate | ].
  destruct (video_uri operation) as [link | ] eqn:Link;
    cbn -[String.append]; [ | discriminate ].
  destruct (Js.truthy link) eqn:Truthy; cbn -[String.append];
    [ | discriminate ].
  destruct (fetch P (link ++ "&key=" ++ API_KEY P (Service.world s))
              (Service.world s)) as [[e | videoResponse] w1];
    cbn -[String.append]; [ discriminate | ].
  destruct (ok videoResponse); cbn -[String.append]; [ | discriminate ].
  destruct (createObjectURL P videoResponse w1) as [[e | objectUrl] w2];
    cbn -[String.append]; [ discriminate | ].
  intros E. injection E as <- <-. cbn -[String.append].
  exists link.
  split; [ reflexivity | ]. split; [ exact Truthy | ].
  split; [ reflexivity | ]. split; [ discriminate | ].
  rewrite <- !app_assoc. reflexivity.
Qed.

(** The job the loop returns is done, and it is the job the loop was
    entered with or the answer to a poll of the loop. *)
Lemma poll_loop_source isCancelledRef progressMessages fuel :
  forall operation progressCounter (s : Sys W) finished s',
    poll_loop P isCancelledRef progressMessages fuel operation
      progressCounter s = (inr (Some finished), s') ->
    done finished = true
    /\ exists more,
         trace s' = (trace s ++ more)%list
         /\ (finished = operation
             \/ exists previous w w1,
                  getVideosOperation P previous w = (inr finished, w1)
                  /\ In EvGetVideosOperation more).
Proof.
  induction fuel as [ | fuel IH]; intros operation progressCounter s
    finished s'; cbn [poll_loop].
  - destruct (done operation) eqn:Done; unfold ret.
    + intros E. injection E as <- <-. split; [ exact Done | ].
      exists []. rewrite app_nil_r. auto.
    + discriminate.
  - destruct (done operation) eqn:Done; unfold ret.
    + intros E. injection E as <- <-. split; [ exact Done | ].
      exists []. rewrite app_nil_r. auto.
    + unfold bind, read_cancelled, wait, call, emit, modify, throw.
      destruct (isCancelledRef (Service.world s)); [ discriminate | ].
      cbn.
      match goal with
      | |- context [getVideosOperation P ?o ?w] =>
          destruct (getVideosOperation P o w) as [[e | operation'] w1]
            eqn:Poll
      end; cbn; [ discriminate | ].
      destruct (done operation'); cbn; intros Rest;
        apply IH in Rest; destruct Rest as (Done' & more & Trace & Source);
        cbn [trace] in Trace;
        (split; [ exact Done' | ]);
        eexists; (split; [ rewrite Trace, <- !app_assoc; reflexivity | ]);
        right;
        (destruct Source as [-> | (previous & w & w2 & Call & Polled)];
         [ do 3 eexists; split; [ exact Poll | ]
         | exists previous, w, w2; split; [ exact Call | ] ]);
        cbn; auto 6.
Qed.

Lemma submit_and_poll_success fuel request progressMessages isCancelledRef
    (s : Sys W) url s' :
  submit_and_poll P fuel request progressMessages isCancelledRef s
  = (inr (Some url), s') ->
  exists operation s1,
    done operation = true
    /\ reported_in P (trace s1) operation
    /\ after_polling P isCancelledRef operation s1 = (inr (Some url), s').
Proof.
  unfold submit_and_poll, bind, emit, modify, call.
  cbn -[after_polling poll_loop].
  match goal with
  | |- context [generateVideos P ?r ?w] =>
      destruct (generateVideos P r w) as [[e | operation] w1] eqn:Submitted
  end; cbn -[after_polling poll_loop]; [ discriminate | ].
  match goal with
  | |- context [poll_loop P ?f ?m ?n ?o ?c ?st] =>
      destruct (poll_loop P f m n o c st) as [[e | [finished | ]] s2] eqn:Poll
  end; [ discriminate | | discriminate ].
  intros After. exists finished, s2.
  apply poll_loop_source in Poll.
  destruct Poll as (Done & more & Trace & Source). cbn [trace] in Trace.
  split; [ exact Done | ]. split; [ | exact After ].
  destruct Source as [-> | (previous & w & w2 & Call & Polled)].
  - left. do 3 eexists. split; [ exact Submitted | ].
    rewrite Trace. apply in_or_app. left.
    apply in_or_app. left. apply in_or_app. right. left. reflexivity.
  - right. exists previous, w, w2. split; [ exact Call | ].
    rewrite Trace. apply in_or_app. right. exact Polled.
Qed.

Lemma generateVideo_body_success fuel prompt image aspectRatio
    progressMessages isCancelledRef (s : Sys W) url s' :
  generateVideo_body P fuel prompt image aspectRatio progressMessages
    isCancelledRef s = (inr (Some url), s') ->
  exists request s1,
    submit_and_poll P fuel request progressMessages isCancelledRef s1
    = (inr (Some url), s').
Proof.
  unfold generateVideo_body, try_catch, bind, getAi, gets, ret, throw,
    rethrow_parsed, call.
  cbn -[submit_and_poll].
  destruct (Js.truthy (API_KEY P (Service.world s))); [ | discriminate ].
  destruct image as [img | ]; cbn -[submit_and_poll].
  - destruct (resizeImage P (base64 img) (Service.world s))
      as [[e | resized] w1]; cbn -[submit_and_poll]; [ discriminate | ].
    match goal with
    | |- context [submit_and_poll P ?f ?r ?m ?c ?st] =>
        destruct (submit_and_poll P f r m c st) as [[e | v] s2] eqn:Run
    end; [ discriminate | ].
    intros E. injection E as <- <-. do 2 eexists. exact Run.
  - match goal with
    | |- context [submit_and_poll P ?f ?r ?m ?c ?st] =>
        destruct (submit_and_poll P f r m c st) as [[e | v] s2] eqn:Run
    end; [ discriminate | ].
    intros E. injection E as <- <-. do 2 eexists. exact Run.
Qed.

(** X24.  A video is delivered only when the job is done and the flag is
    clear.  Whenever [generateVideo] returns an object URL, on the first
    attempt or on the retried one, the run had reached a state [s1] in
    which the remote service had answered, to the submission of the job
    or to a poll recorded in the trace, with a job that is done and
    carries the link of the video; the statements that follow the polling
    loop ran from [s1] and gave the URL: the cancellation flag, read
    there, was clear, and the last three events of the run are that read,
    the progress message that announces the finalizing, and the download
    of that link with the key configured in [s1] appended as "&key="; the
    link is not empty. *)
Theorem generateVideo_delivers_after_final_check fuel prompt image
    aspectRatio progressMessages (isCancelledRef : W -> bool)
    (s s' : Sys W) (objectUrl : string) :
  generateVideo P fuel prompt image aspectRatio progressMessages
    isCancelledRef s = (inr (Some objectUrl), s') ->
  exists operation link s1,
    reported_in P (trace s1) operation
    /\ done operation = true
    /\ video_uri operation = Some link
    /\ Js.truthy link = true
    /\ after_polling P isCancelledRef operation s1
       = (inr (Some objectUrl), s')
    /\ isCancelledRef (Service.world s1) = false
    /\ trace s' =
         (trace s1
          ++ [EvReadCancelled false;
              EvProgress (Some "Finalizing video...");
              EvFetch (link ++ "&key=" ++ API_KEY P (Service.world s1))])%list.
Proof.
  intros Run. unfold generateVideo, withApiKeyHandling in Run.
  apply execute_success in Run. destruct Run as [s0 Body].
  apply generateVideo_body_success in Body.
  destruct Body as (request & s1 & Submit).
  apply submit_and_poll_success in Submit.
  destruct Submit as (operation & s2 & Done & Reported & After).
  pose proof (after_polling_success _ _ _ _ _ After)
    as (link & Link & Truthy & Clear & _ & Trace).
  exists operation, link, s2.
  auto 8.
Qed.

End DeliveryFacts.

Lemma generateVideo_delivers_after_final_check_witness :
  exists operation link s1,
    reported_in lab (Service.trace s1) operation
    /\ Service.done operation = true
    /\ Service.video_uri operation = Some link
    /\ Js.truthy link = true
    /\ Service.after_polling lab (fun _ => false) operation s1
       = (inr (Some "blob:1"),
          snd (Service.generateVideo lab 3 "a wave" None Service.R16_9
                 ["Warming up"; "Rendering"] (fun _ => false)
                 (Service.boot 1%nat)))
    /\ (fun _ : nat => false) (Service.world s1) = false
    /\ Service.trace
         (snd (Service.generateVideo lab 3 "a wave" None Service.R16_9
                 ["Warming up"; "Rendering"] (fun _ => false)
                 (Service.boot 1%nat)))
       = (Service.trace s1
          ++ [Service.EvReadCancelled false;
              Service.EvProgress (Some "Finalizing video...");
              Service.EvFetch
                (link ++ "&key="
                 ++ Service.API_KEY lab (Service.world s1))])%list.
Proof.
  apply (generateVideo_delivers_after_final_check lab 3 "a wave" None
           Service.R16_9 ["Warming up"; "Rendering"] (fun _ => false)
           (Service.boot 1%nat)
           (snd (Service.generateVideo lab 3 "a wave" None Service.R16_9
                   ["Warming up"; "Rendering"] (fun _ => false)
                   (Service.boot 1%nat)))
           "blob:1" ltac:(vm_compute; reflexivity)).
Defined.
